(** * Minio JavaScript client: request pipeline, region cache and object API

    A shallow embedding of [src/main/minio.js].  The [Client] class becomes a
    record, its methods become functions, and the callback-driven control flow
    becomes a state-and-outcome monad [Io] over a [World] that holds the
    mutable parts: the region cache ([this.regionMap]), the local file system
    and the trace of requests handed to the HTTP transport.

    Conventions.
    - JavaScript numbers that count bytes, keys or ports are integers of [Z];
      the arithmetic and the printing of the code are those of doubles, which
      agree with the integers up to 2^53, and statements about computed
      numbers are made within that bound.
    - Strings and Buffers are [string], a sequence of bytes; text is held in
      UTF-8.  A stream is the string it delivers.
    - [undefined] is [None]; the dynamic type checks ([isString], [isNumber],
      [isFunction], ...) are discharged by the Rocq types of the arguments.
    - The collaborators imported by the file ([helpers.js], [signing.js],
      [transformers.js], the crypto, clock and transport modules) are the
      fields of the class [Env]. *)

From Stdlib Require Import ZArith Ascii String List Lia.
From stdpp Require Import gmap strings list pretty.

Local Open Scope Z_scope.

(** ** Errors and outcomes *)

(** The error classes of [errors.js] and of the runtime.  Messages are elided,
    except for the plain [Error] objects the file builds itself. *)
Inductive Err : Type :=
  | TypeError
  | ReferenceError
  | InvalidArgumentError
  | InvalidEndPointError
  | InvalidBucketNameError
  | InvalidObjectNameError
  | InvalidPrefixError
  | InvalidACLError
  | AnonymousRequestError
  | PlainError (msg : string)
  | S3Error (code : string)
  | IOError (what : string).

(** What a call with a node-style callback can do: throw before (or instead
    of) calling back, call back with an error, or call back with a value. *)
Inductive Outcome (A : Type) : Type :=
  | Thrown (e : Err)
  | CbError (e : Err)
  | CbOk (a : A).
Arguments Thrown {A} e.
Arguments CbError {A} e.
Arguments CbOk {A} a.

Definition succeeded {A} (o : Outcome A) : bool :=
  match o with CbOk _ => true | _ => false end.

Definition failed {A} (o : Outcome A) : bool := negb (succeeded o).

(** ** JavaScript strings *)

Definition dquote : string := String "034"%char EmptyString.

(** Truthiness of a string and of a possibly undefined string. *)
Definition truthy (s : string) : bool :=
  match s with EmptyString => false | String _ _ => true end.

Definition truthy_opt (o : option string) : bool :=
  match o with Some s => truthy s | None => false end.

(** String conversion inside a template literal. *)
Definition js_string (o : option string) : string :=
  match o with Some s => s | None => "undefined" end.

Definition js_number (o : option Z) : string :=
  match o with Some n => pretty n | None => "undefined" end.

Definition lower_ascii (a : ascii) : ascii :=
  let n := nat_of_ascii a in
  if ((65 <=? n) && (n <=? 90))%nat then ascii_of_nat (n + 32) else a.

Fixpoint toLowerCase (s : string) : string :=
  match s with
  | EmptyString => EmptyString
  | String a r => String (lower_ascii a) (toLowerCase r)
  end.

(** [Array.prototype.join]. *)
Fixpoint join (sep : string) (l : list string) : string :=
  match l with
  | [] => EmptyString
  | [x] => x
  | x :: r => x +:+ sep +:+ join sep r
  end.



(** A JavaScript object used as a string-keyed record that keeps insertion
    order: assignment overwrites in place or appends. *)
Definition Obj := list (string * string).

Fixpoint obj_set (k v : string) (o : Obj) : Obj :=
  match o with
  | [] => [(k, v)]
  | (k', v') :: r =>
      if String.eqb k k' then (k, v) :: r else (k', v') :: obj_set k v r
  end.

Fixpoint obj_get (k : string) (o : Obj) : option string :=
  match o with
  | [] => None
  | (k', v') :: r => if String.eqb k k' then Some v' else obj_get k r
  end.

(** ** Requests and responses *)

(** The argument of [makeRequest]: [{method, bucketName, objectName, query,
    headers}]. *)
Record RequestSpec := {
  method : string;
  bucketName : option string;
  objectName : option string;
  query : option string;
  headers : Obj
}.

(** The options object handed to [transport.request]. *)
Record ReqOptions := {
  ro_method : string;
  ro_host : string;
  ro_port : option Z;
  ro_protocol : string;
  ro_path : string;
  ro_headers : Obj
}.

(** A request on the wire: the options and the bytes written to it. *)
Record Request := {
  options : ReqOptions;
  payload : string
}.

Record Response := {
  statusCode : Z;
  resp_headers : Obj;
  resp_body : string
}.

(** ** Decoded records of [transformers.js] *)

Record Grant := {
  grantee_uri : string;
  permission : string
}.

Record ObjectStat := {
  os_key : string;
  os_size : Z;
  os_etag : string;
  os_lastModified : string
}.

Record ListObjectsResult := {
  objects : list ObjectStat;
  isTruncated : bool;
  nextMarker : string
}.

(** The [policy] member of a [PostPolicy]: the expiration, once set, and the
    conditions [['eq', field, value]], [['starts-with', field, value]] and
    [['content-length-range', min, max]]. *)
Inductive Condition : Type :=
  | CondEq (field value : string)
  | CondStartsWith (field value : string)
  | CondContentLengthRange (min max : Z).

Record Policy := {
  expiration : option string;
  conditions : list Condition
}.

(** ** External collaborators *)

Class Env := {
  (* helpers.js *)
  isValidEndpoint : string -> bool;
  isValidPort : Z -> bool;
  isAmazonEndpoint : string -> bool;
  isValidBucketName : string -> bool;
  isValidObjectName : string -> bool;
  isValidPrefix : string -> bool;
  isValidACL : string -> bool;
  uriEscape : string -> string;
  uriResourceEscape : string -> string;
  getScope : string -> nat -> string;
  (* signing.js *)
  signV4 : ReqOptions -> string -> string -> string -> string;
  postPresignSignatureV4 : string -> nat -> string -> string -> string;
  (* crypto, Buffer, JSON *)
  sha256hex : string -> string;
  md5base64 : string -> string;
  base64 : string -> string;
  jsonStringify : Policy -> string;
  (* unary plus on a header value; [None] is NaN *)
  toNumber : option string -> option Z;
  (* transformers.js: a decoder maps a response to the record it emits or
     to the error it emits *)
  getErrorTransformer : Response -> Err;
  (* the record a hash summer emits: [md5sum] and, if present, [sha256sum] *)
  getHashSummer : bool -> string -> Err + (string * option string);
  getBucketRegionTransformer : Response -> Err + list string;
  getAclTransformer : Response -> Err + list Grant;
  getListObjectsTransformer : Response -> Err + ListObjectsResult;
  (* moment: the clock is read as the number of requests sent so far *)
  amzDate : nat -> string;
  formatExpiration : Z -> string;
  (* process, package.json *)
  platform : string;
  arch : string;
  version : string;
  (* path, mkdirp *)
  dirname : string -> string;
  mkdirp : string -> option Err;
  (* the HTTP transport with the server behind it: the reply to a request,
     given the requests sent before it; [inl] is a socket error *)
  transport : list Request -> Request -> Err + Response
}.

(** ** The client *)

Record ConstructorParams := {
  endPoint : string;
  cp_port : Z;
  insecure : bool;
  cp_accessKey : string;
  cp_secretKey : string
}.

Record ClientParams := {
  host : string;
  port : Z;
  protocol : string;
  accessKey : string;
  secretKey : string;
  userAgent : string
}.

Record Client := {
  params : ClientParams;
  anonymous : bool;
  virtualHostStyle : bool;
  minimumPartSize : Z;
  maximumPartSize : Z;
  maxObjectSize : Z
}.

Section Minio.
Context {env : Env}.

(** [constructor(params)]; an absent port is 0, absent keys are empty. *)
Definition newClient (p : ConstructorParams) : Err + Client :=
  if negb (isValidEndpoint (endPoint p)) then inl InvalidEndPointError
  else if negb (isValidPort (cp_port p)) then inl InvalidArgumentError
  else
    let host := endPoint p in
    let virtualHostStyle := isAmazonEndpoint host in
    let '(protocol, port) :=
      if negb (insecure p)
      then ("https:", if cp_port p =? 0 then 443 else cp_port p)
      else ("http:", if cp_port p =? 0 then 80 else cp_port p) in
    let libraryComments := "(" +:+ platform +:+ "; " +:+ arch +:+ ")" in
    let libraryAgent :=
      "Minio " +:+ libraryComments +:+ " minio-js/" +:+ version in
    inr {| params := {| host := host; port := port; protocol := protocol;
                        accessKey := cp_accessKey p;
                        secretKey := cp_secretKey p;
                        userAgent := libraryAgent |};
           anonymous :=
             negb (truthy (cp_accessKey p)) || negb (truthy (cp_secretKey p));
           virtualHostStyle := virtualHostStyle;
           minimumPartSize := 5 * 1024 * 1024;
           maximumPartSize := 5 * 1024 * 1024 * 1024;
           maxObjectSize := 5 * 1024 * 1024 * 1024 * 1024 |}.

(** [Math.ceil(a / b)] for integers [a] and [b > 0]. *)
Definition ceil_div (a b : Z) : Z := - ((- a) / b).

(** [calculatePartSize(size)]: [inl] is the thrown error. *)
Definition calculatePartSize (c : Client) (size : Z) : Err + Z :=
  if size >? maxObjectSize c then inl TypeError
  else
    let partSize := ceil_div size 10000 in
    let partSize := ceil_div partSize (minimumPartSize c) * minimumPartSize c in
    inr partSize.

(** ** The world and the monad of callbacks *)

(** [regionMap] holds the own properties of [this.regionMap], a plain
    object used as a map from bucket name to region (what a read of it finds
    besides them is in [cachedRegion]); [files] maps a path to the contents
    of the file there;
    [wire] lists the requests handed to the transport, oldest first.
    Tracing is off ([this.logStream] is unset), so [logHTTP] does nothing. *)
Record World := {
  regionMap : gmap string string;
  files : gmap string string;
  wire : list Request
}.

Definition withRegionMap (m : gmap string string) (w : World) : World :=
  {| regionMap := m; files := files w; wire := wire w |}.

Definition withFiles (f : gmap string string) (w : World) : World :=
  {| regionMap := regionMap w; files := f; wire := wire w |}.

Definition sent (r : Request) (w : World) : World :=
  {| regionMap := regionMap w; files := files w; wire := wire w ++ [r] |}.

Definition Io (A : Type) : Type := World -> Outcome A * World.

Definition ret {A} (a : A) : Io A := fun w => (CbOk a, w).
Definition throw {A} (e : Err) : Io A := fun w => (Thrown e, w).
Definition fail {A} (e : Err) : Io A := fun w => (CbError e, w).

(** [if (e) return cb(e)]: errors pass through, values go on. *)
Definition bind {A B} (m : Io A) (k : A -> Io B) : Io B := fun w =>
  match m w with
  | (CbOk a, w') => k a w'
  | (CbError e, w') => (CbError e, w')
  | (Thrown e, w') => (Thrown e, w')
  end.

#[local] Notation "x <- m ;; k" := (bind m (fun x => k))
  (at level 100, m at next level, right associativity).
#[local] Notation "m ;;; k" := (bind m (fun _ => k))
  (at level 100, right associativity).

(** A decoder piped behind a response: its error or its record. *)
Definition decode {A} (r : Err + A) : Io A :=
  match r with inl e => fail e | inr a => ret a end.

Definition getRegionMap : Io (gmap string string) := fun w => (CbOk (regionMap w), w).

Definition setRegion (b region : string) : Io unit := fun w =>
  (CbOk tt, withRegionMap (<[b := region]> (regionMap w)) w).

(** [delete(this.regionMap[b])]; an undefined [b] names the key
    ["undefined"]. *)
Definition deleteRegion (b : option string) : Io unit := fun w =>
  (CbOk tt, withRegionMap (delete (js_string b) (regionMap w)) w).

(** [Moment().utc().format('YYYYMMDDTHHmmss') + 'Z']. *)
Definition now : Io nat := fun w => (CbOk (length (wire w)), w).

(** [transport.request(reqOptions)] with [body] piped or written into it:
    the request goes on the wire and the transport answers. *)
Definition send (ro : ReqOptions) (body : string) : Io Response := fun w =>
  let r := {| options := ro; payload := body |} in
  match transport (wire w) r with
  | inl e => (CbError e, sent r w)
  | inr resp => (CbOk resp, sent r w)
  end.

(** ** Request construction *)

(** [reqOptions.headers.host]: the port is named unless it is the default
    one of the protocol. *)
Definition host_header (protocol host : string) (port : option Z) : string :=
  if (String.eqb protocol "http:" && negb (bool_decide (port = Some 80)))
     || (String.eqb protocol "https:" && negb (bool_decide (port = Some 443)))
  then host +:+ ":" +:+ js_number port
  else host.

(** [_.map(headers, (v, k) => reqOptions.headers[k.toLowerCase()] = v)]. *)
Definition lowerHeaders (hs acc : Obj) : Obj :=
  fold_left (fun acc kv => obj_set (toLowerCase (fst kv)) (snd kv) acc) hs acc.

(** [getRequestOptions(opts)]. *)
Definition getRequestOptions (c : Client) (opts : RequestSpec) : ReqOptions :=
  let objectName :=
    if truthy_opt (objectName opts)
    then Some (uriResourceEscape (js_string (objectName opts)))
    else objectName opts in
  let port := if port (params c) =? 0 then None else Some (port (params c)) in
  let '(host, path) :=
    if negb (virtualHostStyle c) || negb (truthy_opt (bucketName opts))
    then
      (host (params c),
       if truthy_opt objectName
       then "/" +:+ js_string (bucketName opts) +:+ "/" +:+ js_string objectName
       else if truthy_opt (bucketName opts)
       then "/" +:+ js_string (bucketName opts)
       else "/")
    else
      (js_string (bucketName opts) +:+ "." +:+ host (params c),
       if truthy_opt objectName then "/" +:+ js_string objectName else "/") in
  let path :=
    if truthy_opt (query opts) then path +:+ "?" +:+ js_string (query opts)
    else path in
  let hdrs := [("host", host_header (protocol (params c)) host port)] in
  let hdrs := lowerHeaders (headers opts) hdrs in
  {| ro_method := method opts; ro_host := host; ro_port := port;
     ro_protocol := protocol (params c); ro_path := path;
     ro_headers := hdrs |}.

(** The three lines that stamp and sign a request in [_makeRequest],
    [getBucketRegion] and [makeBucket]. *)
Definition stamp (c : Client) (ro : ReqOptions) (date : nat)
    (sha256sum region : string) : ReqOptions :=
  let h := obj_set "x-amz-date" (amzDate date) (ro_headers ro) in
  let h := obj_set "x-amz-content-sha256" sha256sum h in
  let ro := {| ro_method := ro_method ro; ro_host := ro_host ro;
               ro_port := ro_port ro; ro_protocol := ro_protocol ro;
               ro_path := ro_path ro; ro_headers := h |} in
  let authorization :=
    signV4 ro (accessKey (params c)) (secretKey (params c)) region in
  {| ro_method := ro_method ro; ro_host := ro_host ro;
     ro_port := ro_port ro; ro_protocol := ro_protocol ro;
     ro_path := ro_path ro;
     ro_headers := obj_set "authorization" authorization h |}.

(** ** Region cache and resolver *)

(** The property names every plain object inherits from
    [Object.prototype]. *)
Definition inheritedKeys : list string :=
  ["constructor"; "hasOwnProperty"; "isPrototypeOf"; "propertyIsEnumerable";
   "toLocaleString"; "toString"; "valueOf"; "__defineGetter__";
   "__defineSetter__"; "__lookupGetter__"; "__lookupSetter__"; "__proto__"].

Definition inheritedKey (b : string) : bool :=
  existsb (String.eqb b) inheritedKeys.

(** [Object.prototype[b]] for an inherited key: a function (the prototype
    itself for [__proto__]), never a string.  Where it is handed on as a
    region it is written as this string; nothing in the file looks into a
    region, it only passes it to [signing.js] and [helpers.js]. *)
Definition inheritedValue (b : string) : string := "Object.prototype." +:+ b.

(** [this.regionMap[bucketName]] read as a condition: the own property of
    that name when there is one, else the inherited one. *)
Definition cachedRegion (m : gmap string string) (b : string) : option string :=
  match m !! b with
  | Some region => if truthy region then Some region else None
  | None => if inheritedKey b then Some (inheritedValue b) else None
  end.

(** The [?location] request of [getBucketRegion]: always path-style; it has
    headers only when the client is not anonymous. *)
Definition locationRequest (c : Client) (b : string) (date : nat) : ReqOptions :=
  let ro := {| ro_method := "GET"; ro_host := host (params c);
               ro_port := Some (port (params c));
               ro_protocol := protocol (params c);
               ro_path := "/" +:+ b +:+ "?location";
               ro_headers := [] |} in
  if anonymous c then ro
  else
    let ro := {| ro_method := ro_method ro; ro_host := ro_host ro;
                 ro_port := ro_port ro; ro_protocol := ro_protocol ro;
                 ro_path := ro_path ro;
                 ro_headers :=
                   [("host", host_header (ro_protocol ro) (ro_host ro)
                                         (ro_port ro))] |} in
    stamp c ro date (sha256hex EmptyString) "us-east-1".

(** The lookup as it goes on the wire in world [w]. *)
Definition locationLookup (c : Client) (b : string) (w : World) : Request :=
  {| options := locationRequest c b (length (wire w));
     payload := EmptyString |}.

(** The [data] handler of [getBucketRegion]: the last truthy datum wins over
    the initial ['us-east-1']. *)
Definition regionOfData (data : list string) : string :=
  fold_left (fun region d => if truthy d then d else region) data "us-east-1".

(** [getBucketRegion(bucketName, cb)]. *)
Definition getBucketRegion (c : Client) (b : string) : Io string :=
  if negb (isValidBucketName b) then throw InvalidBucketNameError
  else
    m <- getRegionMap ;;
    match cachedRegion m b with
    | Some region => ret region
    | None =>
        date <- now ;;
        response <- send (locationRequest c b date) EmptyString ;;
        if negb (statusCode response =? 200)
        then fail (getErrorTransformer response)
        else
          data <- decode (getBucketRegionTransformer response) ;;
          let region := regionOfData data in
          setRegion b region ;;;
          ret region
    end.

(** The cache holds regions only: no bucket is mapped to the empty string. *)
Definition cacheSound (w : World) : Prop :=
  forall b r, regionMap w !! b = Some r -> r <> EmptyString.

(** ** Request executor *)

(** The closure [_makeRequest] of [makeRequestStream], called with the
    region once it is known: stamp and sign, send, compare the status. *)
Definition _makeRequest (c : Client) (opts : RequestSpec)
    (reqOptions : ReqOptions) (stream sha256sum : string) (expected : Z)
    (region : string) : Io Response :=
  date <- now ;;
  let reqOptions :=
    if anonymous c then reqOptions
    else stamp c reqOptions date sha256sum region in
  response <- send reqOptions stream ;;
  if negb (expected =? statusCode response)
  then deleteRegion (bucketName opts) ;;;
       fail (getErrorTransformer response)
  else ret response.

(** The request [_makeRequest] puts on the wire in world [w]. *)
Definition signedRequest (c : Client) (reqOptions : ReqOptions)
    (stream sha256sum region : string) (w : World) : Request :=
  {| options := if anonymous c then reqOptions
                else stamp c reqOptions (length (wire w)) sha256sum region;
     payload := stream |}.

(** The last two lines of [makeRequestStream]: which region to sign for. *)
Definition resolveRegion (c : Client) (opts : RequestSpec) : Io string :=
  if negb (truthy_opt (bucketName opts)) then ret "us-east-1"
  else getBucketRegion c (js_string (bucketName opts)).

(** The guards of [makeRequestStream] on [sha256sum]. *)
Definition sha256sumRejected (c : Client) (sha256sum : string) : bool :=
  ((String.length sha256sum =? 0)%nat && negb (anonymous c))
  || (negb (String.length sha256sum =? 64)%nat && negb (anonymous c)).

(** [makeRequestStream(options, stream, sha256sum, statusCode, cb)]. *)
Definition makeRequestStream (c : Client) (opts : RequestSpec)
    (stream sha256sum : string) (expected : Z) : Io Response :=
  if sha256sumRejected c sha256sum then throw InvalidArgumentError
  else
    let reqOptions := getRequestOptions c opts in
    region <- resolveRegion c opts ;;
    _makeRequest c opts reqOptions stream sha256sum expected region.

(** [s.length] for a string [s]: the number of UTF-16 code units of the
    text, counted on its UTF-8 bytes (one per character, two for a character
    of four bytes). *)
Fixpoint utf16Length (s : string) : nat :=
  match s with
  | EmptyString => 0
  | String a r =>
      let n := nat_of_ascii a in
      ((if n <? 128 then 1 else if n <? 192 then 0 else if n <? 240 then 1
        else 2) + utf16Length r)%nat
  end.

(** [options.headers['content-length'] = payload.length]; every caller in
    the file passes a string. *)
Definition withContentLength (opts : RequestSpec) (payload : string)
    : RequestSpec :=
  {| method := method opts; bucketName := bucketName opts;
     objectName := objectName opts; query := query opts;
     headers := obj_set "content-length"
                        (pretty (Z.of_nat (utf16Length payload)))
                        (headers opts) |}.

(** [makeRequest(options, payload, statusCode, cb)]. *)
Definition makeRequest (c : Client) (opts : RequestSpec) (payload : string)
    (expected : Z) : Io Response :=
  let opts := withContentLength opts payload in
  let sha256sum := if anonymous c then EmptyString else sha256hex payload in
  makeRequestStream c opts payload sha256sum expected.

(** ** The [xml] package, as far as [makeBucket] uses it *)

(** [{_attr: {...}}], [{name: 'text'}] and [{name: [children]}]. *)
#[local] Unset Elimination Schemes.
Inductive XmlObject : Type :=
  | XAttr (attrs : Obj)
  | XText (name text : string)
  | XNode (name : string) (children : list XmlObject).
#[local] Set Elimination Schemes.

Definition escape_char (a : ascii) : string :=
  if Ascii.eqb a "&"%char then "&amp;"
  else if Ascii.eqb a "034"%char then "&quot;"
  else if Ascii.eqb a "'"%char then "&apos;"
  else if Ascii.eqb a "<"%char then "&lt;"
  else if Ascii.eqb a ">"%char then "&gt;"
  else String a EmptyString.

Fixpoint escapeForXML (s : string) : string :=
  match s with
  | EmptyString => EmptyString
  | String a r => escape_char a +:+ escapeForXML r
  end.

Definition xml_attr (kv : string * string) : string :=
  " " +:+ fst kv +:+ "=" +:+ dquote +:+ escapeForXML (snd kv) +:+ dquote.

Fixpoint Xml (x : XmlObject) : string :=
  match x with
  | XAttr _ => EmptyString
  | XText name text =>
      "<" +:+ name +:+ ">" +:+ escapeForXML text +:+ "</" +:+ name +:+ ">"
  | XNode name children =>
      let attrs :=
        flat_map (fun ch => match ch with XAttr a => a | _ => [] end) children in
      "<" +:+ name +:+ join EmptyString (map xml_attr attrs) +:+ ">"
      +:+ join EmptyString (map Xml children)
      +:+ "</" +:+ name +:+ ">"
  end.

(** The serialized [CreateBucketConfiguration] for a location. *)
Definition createBucketConfigurationXml (location : string) : string :=
  "<CreateBucketConfiguration xmlns=" +:+ dquote
  +:+ "http://s3.amazonaws.com/doc/2006-03-01/" +:+ dquote
  +:+ "><LocationConstraint>" +:+ escapeForXML location
  +:+ "</LocationConstraint></CreateBucketConfiguration>".

(** ** Bucket operations *)

Definition createBucketConfiguration (region : string) : XmlObject :=
  XNode "CreateBucketConfiguration"
    [XAttr [("xmlns", "http://s3.amazonaws.com/doc/2006-03-01/")];
     XText "LocationConstraint" region].

(** The payload of [makeBucket]. *)
Definition makeBucketPayload (region : string) : string :=
  if truthy region then Xml (createBucketConfiguration region)
  else EmptyString.

(** [makeBucket(bucketName, acl, region, cb)]. *)
Definition makeBucket (c : Client) (bucket acl region : string) : Io unit :=
  if negb (isValidBucketName bucket) then throw InvalidBucketNameError
  else
    let acl := if truthy acl then acl else "private" in
    if negb (isValidACL acl) then throw InvalidACLError
    else
      let payload := makeBucketPayload region in
      let reqOptions :=
        getRequestOptions c
          {| method := "PUT"; bucketName := Some bucket; objectName := None;
             query := None; headers := [("x-amz-acl", acl)] |} in
      date <- now ;;
      let reqOptions :=
        if anonymous c then reqOptions
        else stamp c reqOptions date (sha256hex payload) "us-east-1" in
      response <- send reqOptions payload ;;
      if negb (200 =? statusCode response)
      then fail (getErrorTransformer response)
      else ret tt.

(** [removeBucket(bucketName, cb)]. *)
Definition removeBucket (c : Client) (bucket : string) : Io unit :=
  if negb (isValidBucketName bucket) then throw InvalidBucketNameError
  else fun w =>
    match makeRequest c {| method := "DELETE"; bucketName := Some bucket;
                           objectName := None; query := None; headers := [] |}
                      EmptyString 204 w with
    | (CbOk _, w') => (deleteRegion (Some bucket) ;;; ret tt) w'
    | (CbError e, w') => (CbError e, w')
    | (Thrown e, w') => (Thrown e, w')
    end.

(** The accumulator of the [reduce] in [getBucketACL]; a flag that was never
    set is [false]. *)
Record Perm := {
  publicRead : bool;
  publicWrite : bool;
  authenticatedRead : bool;
  authenticatedWrite : bool
}.

Definition AllUsers : string :=
  "http://acs.amazonaws.com/groups/global/AllUsers".
Definition AuthenticatedUsers : string :=
  "http://acs.amazonaws.com/groups/global/AuthenticatedUsers".

Definition permStep (acc : Perm) (grant : Grant) : Perm :=
  if String.eqb (grantee_uri grant) AllUsers then
    if String.eqb (permission grant) "READ" then
      {| publicRead := true; publicWrite := publicWrite acc;
         authenticatedRead := authenticatedRead acc;
         authenticatedWrite := authenticatedWrite acc |}
    else if String.eqb (permission grant) "WRITE" then
      {| publicRead := publicRead acc; publicWrite := true;
         authenticatedRead := authenticatedRead acc;
         authenticatedWrite := authenticatedWrite acc |}
    else acc
  else if String.eqb (grantee_uri grant) AuthenticatedUsers then
    if String.eqb (permission grant) "READ" then
      {| publicRead := publicRead acc; publicWrite := publicWrite acc;
         authenticatedRead := true;
         authenticatedWrite := authenticatedWrite acc |}
    else if String.eqb (permission grant) "WRITE" then
      {| publicRead := publicRead acc; publicWrite := publicWrite acc;
         authenticatedRead := authenticatedRead acc;
         authenticatedWrite := true |}
    else acc
  else acc.

Definition permOfGrants (acl : list Grant) : Perm :=
  fold_left permStep acl
    {| publicRead := false; publicWrite := false;
       authenticatedRead := false; authenticatedWrite := false |}.

Definition cannedACLOfPerm (perm : Perm) : string :=
  if publicRead perm && publicWrite perm
     && negb (authenticatedRead perm) && negb (authenticatedWrite perm)
  then "public-read-write"
  else if publicRead perm && negb (publicWrite perm)
     && negb (authenticatedRead perm) && negb (authenticatedWrite perm)
  then "public-read"
  else if negb (publicRead perm) && negb (publicWrite perm)
     && authenticatedRead perm && negb (authenticatedWrite perm)
  then "authenticated-read"
  else if negb (publicRead perm) && negb (publicWrite perm)
     && negb (authenticatedRead perm) && negb (authenticatedWrite perm)
  then "private"
  else "unsupported-acl".

(** [getBucketACL(bucketName, cb)]. *)
Definition getBucketACL (c : Client) (bucket : string) : Io string :=
  if negb (isValidBucketName bucket) then throw InvalidBucketNameError
  else
    response <- makeRequest c {| method := "GET"; bucketName := Some bucket;
                                 objectName := None; query := Some "acl";
                                 headers := [] |} EmptyString 200 ;;
    acl <- decode (getAclTransformer response) ;;
    ret (cannedACLOfPerm (permOfGrants acl)).

(** The reduction table of the ACL mapping, in the words of the
    specification: whether some grant gives [perm] to the group [uri], and
    the canned ACL for each combination of the four flags. *)
Definition grants (uri perm : string) (acl : list Grant) : bool :=
  existsb (fun g => String.eqb (grantee_uri g) uri
                    && String.eqb (permission g) perm) acl.

Definition cannedACLTable (publicRead publicWrite authRead authWrite : bool)
    : string :=
  match publicRead, publicWrite, authRead, authWrite with
  | true, true, false, false => "public-read-write"
  | true, false, false, false => "public-read"
  | false, false, true, false => "authenticated-read"
  | false, false, false, false => "private"
  | _, _, _, _ => "unsupported-acl"
  end.

(** ** Object download *)

Record ObjStat := {
  size : option Z;
  etag : string;
  contentType : option string;
  lastModified : option string
}.

(** [s.replace(/^\"/, '')] and [s.replace(/\"$/, '')]. *)
Definition stripLeadingQuote (s : string) : string :=
  match s with
  | String a r => if Ascii.eqb a "034"%char then r else s
  | EmptyString => s
  end.

Fixpoint stripTrailingQuote (s : string) : string :=
  match s with
  | EmptyString => EmptyString
  | String a EmptyString =>
      if Ascii.eqb a "034"%char then EmptyString else s
  | String a r => String a (stripTrailingQuote r)
  end.

Definition stripQuotes (s : string) : string :=
  stripTrailingQuote (stripLeadingQuote s).

(** [statObject(bucketName, objectName, cb)]; reading [.replace] off an
    absent [etag] header throws inside the callback. *)
Definition statObject (c : Client) (bucket object : string) : Io ObjStat :=
  if negb (isValidBucketName bucket) then throw InvalidBucketNameError
  else if negb (isValidObjectName object) then throw InvalidObjectNameError
  else
    response <- makeRequest c {| method := "HEAD"; bucketName := Some bucket;
                                 objectName := Some object; query := None;
                                 headers := [] |} EmptyString 200 ;;
    match obj_get "etag" (resp_headers response) with
    | None => throw TypeError
    | Some e =>
        ret {| size := toNumber (obj_get "content-length" (resp_headers response));
               etag := stripQuotes e;
               contentType := obj_get "content-type" (resp_headers response);
               lastModified := obj_get "last-modified" (resp_headers response) |}
    end.

(** The [range] string of [getPartialObject]; empty when no range is asked
    for.  The sum and the printed numbers are those of the code as long as
    [offset + length <= 2^53]; beyond that the code's doubles round. *)
Definition rangeOf (offset length : Z) : string :=
  if negb (offset =? 0) || negb (length =? 0) then
    let range :=
      if negb (offset =? 0) then "bytes=" +:+ pretty offset +:+ "-"
      else "bytes=0-" in
    let offset := if negb (offset =? 0) then offset else 0 in
    if negb (length =? 0) then range +:+ pretty ((length + offset) - 1)
    else range
  else EmptyString.

Definition rangeHeaders (range : string) : Obj :=
  if truthy range then [("range", range)] else [].

Definition expectedStatusOf (range : string) : Z :=
  if truthy range then 206 else 200.

(** [getPartialObject(bucketName, objectName, offset, length, cb)]; the
    callback is [None] when the caller passes [undefined]. *)
Definition getPartialObject (c : Client) (bucket object : string)
    (offset length : Z) (cb : option unit) : Io Response :=
  if negb (isValidBucketName bucket) then throw InvalidBucketNameError
  else if negb (isValidObjectName object) then throw InvalidObjectNameError
  else if negb (bool_decide (is_Some cb)) then throw TypeError
  else
    let range := rangeOf offset length in
    makeRequest c {| method := "GET"; bucketName := Some bucket;
                     objectName := Some object; query := None;
                     headers := rangeHeaders range |}
                EmptyString (expectedStatusOf range).

(** [getObject(bucketName, objectName, cb)]. *)
Definition getObject (c : Client) (bucket object : string) : Io Response :=
  if negb (isValidBucketName bucket) then throw InvalidBucketNameError
  else if negb (isValidObjectName object) then throw InvalidObjectNameError
  else getPartialObject c bucket object 0 0 (Some tt).

(** *** The file system *)

Definition fileSize (content : string) : Z := Z.of_nat (String.length content).

(** [fs.stat(path, cb)], reduced to the size. *)
Definition fs_stat (path : string) : Io Z := fun w =>
  match files w !! path with
  | Some content => (CbOk (fileSize content), w)
  | None => (CbError (IOError "ENOENT"), w)
  end.

(** [fs.createReadStream(path)], read to its end. *)
Definition readFile (path : string) : Io string := fun w =>
  match files w !! path with
  | Some content => (CbOk content, w)
  | None => (CbError (IOError "ENOENT"), w)
  end.

Definition writeFile (path content : string) : Io unit := fun w =>
  (CbOk tt, withFiles (<[path := content]> (files w)) w).

(** [fs.createWriteStream(path, {flags})]: ['w'] creates or truncates,
    ['a'] creates or keeps. *)
Definition createWriteStream (path : string) (append : bool) : Io unit := fun w =>
  match files w !! path with
  | Some content => if append then (CbOk tt, w) else writeFile path EmptyString w
  | None => writeFile path EmptyString w
  end.

(** Bytes piped into an open write stream land behind what the file holds. *)
Definition pipeToFile (path data : string) : Io unit := fun w =>
  match files w !! path with
  | Some content => writeFile path (content +:+ data) w
  | None => writeFile path data w
  end.

(** [fs.rename(oldPath, newPath, cb)]; an undefined [oldPath] is rejected
    with a thrown [TypeError]. *)
Definition fs_rename (oldPath : option string) (newPath : string) : Io unit :=
  match oldPath with
  | None => throw TypeError
  | Some old => fun w =>
      match files w !! old with
      | None => (CbError (IOError "ENOENT"), w)
      | Some content =>
          (CbOk tt, withFiles (<[newPath := content]> (delete old (files w))) w)
      end
  end.

(** *** [fGetObject] *)

(** The name of the resume artifact. *)
Definition partFileName (filePath etag : string) : string :=
  filePath +:+ "." +:+ etag +:+ ".part.minio".

(** How the part file got ready for the rename. *)
Inductive Fetched : Type :=
  | AlreadyComplete
  | Downloaded.

(** The third to sixth tasks of the waterfall in [fGetObject], from the
    [fs.stat] of the part file on.  [cb] is the callback the third task
    received. *)
Definition fGetDownload (c : Client) (bucket object partFile : string)
    (objStat : ObjStat) (cb : option unit) : Io Fetched := fun w =>
  let download (offset : Z) (append : bool) : Io Fetched :=
    createWriteStream partFile append ;;;
    downloadStream <- getPartialObject c bucket object offset 0 cb ;;
    pipeToFile partFile (resp_body downloadStream) ;;;
    stats <- fs_stat partFile ;;
    if bool_decide (Some stats = size objStat) then ret Downloaded
    else fail (PlainError "Size mismatch between downloaded file and the object") in
  match fs_stat partFile w with
  | (CbOk stats, w') =>
      if bool_decide (size objStat = Some stats) then (CbOk AlreadyComplete, w')
      else download stats true w'
  | (_, w') => download 0 false w'
  end.

(** [fGetObject(bucketName, objectName, filePath, cb)].  The final callback
    of the waterfall is [rename], which takes no argument: it runs after the
    last task and after any task that called back with an error. *)
Definition fGetObject (c : Client) (bucket object filePath : string) : Io unit :=
  if negb (isValidBucketName bucket) then throw InvalidBucketNameError
  else if negb (isValidObjectName object) then throw InvalidObjectNameError
  else fun w =>
    match statObject c bucket object w with
    | (Thrown e, w1) => (Thrown e, w1)
    | (CbError e, w1) => fs_rename None filePath w1
    | (CbOk objStat, w1) =>
        let partFile := partFileName filePath (etag objStat) in
        let dir := dirname filePath in
        (* a task that calls [cb()] hands the next task its callback as the
           first argument and nothing as the second *)
        let cb := if String.eqb dir "." then Some None
                  else match mkdirp dir with
                       | None => Some (Some tt)
                       | Some e => None
                       end in
        match cb with
        | None => fs_rename None filePath w1
        | Some cb =>
            match fGetDownload c bucket object partFile objStat cb w1 with
            | (Thrown e, w2) => (Thrown e, w2)
            | (_, w2) => fs_rename (Some partFile) filePath w2
            end
        end
    end.

(** ** Object upload *)

Definition is_space (a : ascii) : bool :=
  let n := nat_of_ascii a in
  ((9 <=? n) && (n <=? 13) || (n =? 32))%nat.

(** The white space and line terminators of two and three bytes that [trim]
    strips: U+00A0; U+1680; U+2000 to U+200A, U+2028, U+2029, U+202F and
    U+205F; U+3000; U+FEFF (the space separators of Unicode 6.3 and
    later). *)
Definition is_space2 (a b : ascii) : bool :=
  ((nat_of_ascii a =? 194) && (nat_of_ascii b =? 160))%nat.

Definition is_space3 (a b d : ascii) : bool :=
  let '(x, y, z) := (nat_of_ascii a, nat_of_ascii b, nat_of_ascii d) in
  ((x =? 225) && (y =? 154) && (z =? 128)
   || (x =? 226) && (y =? 128)
      && ((128 <=? z) && (z <=? 138) || (z =? 168) || (z =? 169) || (z =? 175))
   || (x =? 226) && (y =? 129) && (z =? 159)
   || (x =? 227) && (y =? 128) && (z =? 128)
   || (x =? 239) && (y =? 187) && (z =? 191))%nat.

(** [s.trim() === '']: [s] is made of white space and line terminators
    only. *)
Fixpoint isBlank (s : string) : bool :=
  match s with
  | EmptyString => true
  | String a r =>
      if is_space a then isBlank r
      else
        match r with
        | String b r2 =>
            if is_space2 a b then isBlank r2
            else
              match r2 with
              | String d r3 => is_space3 a b d && isBlank r3
              | EmptyString => false
              end
        | EmptyString => false
        end
  end.

Definition defaultContentType (contentType : string) : string :=
  if isBlank contentType then "application/octet-stream" else contentType.

(** How an upload call ends when it calls back without error: with the ETag
    of the single PUT, or inside the multipart waterfall, whose first task is
    [findUploadId(bucketName, objectName, cb)].  The multipart engine past
    that entry is outside this development. *)
Inductive UploadEnd : Type :=
  | Uploaded (etag : option string)
  | EnterMultipart.

(** [getUploader(bucketName, objectName, contentType, false)], applied:
    [simpleUploader(stream, length, sha256sum, md5sum, cb)]. *)
Definition simpleUploader (c : Client) (bucket object contentType : string)
    (stream : string) (length : Z) (sha256sum : option string)
    (md5sum : string) : Io UploadEnd :=
  if negb (isValidBucketName bucket) then throw InvalidBucketNameError
  else if negb (isValidObjectName object) then throw InvalidObjectNameError
  else
    let contentType :=
      if truthy contentType then contentType else "application/octet-stream" in
    match sha256sum with
    | None => throw TypeError
    | Some sha256sum =>
        response <- makeRequestStream c
          {| method := "PUT"; bucketName := Some bucket;
             objectName := Some object; query := Some EmptyString;
             headers := [("Content-Length", pretty length);
                         ("Content-Type", contentType);
                         ("Content-MD5", md5sum)] |}
          stream sha256sum 200 ;;
        ret (Uploaded (option_map stripQuotes
                                  (obj_get "etag" (resp_headers response))))
    end.

(** [putObject(bucketName, objectName, stream, size, contentType, cb)]:
    [stream] delivers the given bytes, [size] is what the caller declares.
    Modelled from the spec: the concater of [transformers.js], which is not
    under [src/], hands the whole stream on as one chunk, also when the
    stream is empty (a zero-byte object takes the single-shot path with
    [Content-Length: 0]). *)
Definition putObject (c : Client) (bucket object stream : string) (size : Z)
    (contentType : string) : Io UploadEnd :=
  if negb (isValidBucketName bucket) then throw InvalidBucketNameError
  else if negb (isValidObjectName object) then throw InvalidObjectNameError
  else if size <? 0 then throw InvalidArgumentError
  else
    let contentType := defaultContentType contentType in
    if size <=? minimumPartSize c then
      let chunk := stream in
      let sha256sum := if anonymous c then EmptyString else sha256hex chunk in
      let md5sum := md5base64 chunk in
      simpleUploader c bucket object contentType chunk (fileSize chunk)
                     (Some sha256sum) md5sum
    else ret EnterMultipart.

(** [putObject(bucketName, objectName, buffer, contentType, cb)]. *)
Definition putObjectBuffer (c : Client) (bucket object buffer contentType : string)
    : Io UploadEnd :=
  putObject c bucket object buffer (fileSize buffer) contentType.

(** [fPutObject(bucketName, objectName, filePath, contentType, callback)]. *)
Definition fPutObject (c : Client) (bucket object filePath contentType : string)
    : Io UploadEnd :=
  if negb (isValidBucketName bucket) then throw InvalidBucketNameError
  else if negb (isValidObjectName object) then throw InvalidObjectNameError
  else
    let contentType := defaultContentType contentType in
    size <- fs_stat filePath ;;
    if size >? maxObjectSize c
    then fail (PlainError (filePath +:+ " size : " +:+ pretty size
                           +:+ ", max allowed size : 5TB"))
    else if size <? minimumPartSize c then
      content <- readFile filePath ;;
      data <- decode (getHashSummer (anonymous c) content) ;;
      simpleUploader c bucket object contentType content size
                     (snd data) (fst data)
    else ret EnterMultipart.

(** The single PUT of an upload, as seen on the wire: the payload is the
    whole object, [Content-MD5] and, for a signed request,
    [x-amz-content-sha256] are the digests of that payload, and the path has
    no query. *)
Definition isSinglePut (c : Client) (bucket object data md5sum sha256sum : string)
    (r : Request) : Prop :=
  ro_method (options r) = "PUT"
  /\ payload r = data
  /\ ro_path (options r)
     = ro_path (getRequestOptions c
                  {| method := "PUT"; bucketName := Some bucket;
                     objectName := Some object; query := None;
                     headers := [] |})
  /\ obj_get "content-length" (ro_headers (options r))
     = Some (pretty (fileSize data))
  /\ obj_get "content-md5" (ro_headers (options r)) = Some md5sum
  /\ (anonymous c = false ->
      obj_get "x-amz-content-sha256" (ro_headers (options r)) = Some sha256sum).

(** ** Object listing *)








(** Observations on a request of the wire: it is the [?location] lookup of
    a bucket; a parameter of a query string is a [max-keys] parameter. *)
Definition isLookup (bucket : string) (r : Request) : Prop :=
  ro_path (options r) = "/" +:+ bucket +:+ "?location".


(** ** POST policy *)

Record PostPolicy := {
  policy : Policy;
  formData : gmap string string
}.

(** [new PostPolicy()]. *)
Definition newPostPolicy : PostPolicy :=
  {| policy := {| expiration := None; conditions := [] |}; formData := ∅ |}.

Definition pushCondition (cond : Condition) (p : PostPolicy) : Policy :=
  {| expiration := expiration (policy p);
     conditions := conditions (policy p) ++ [cond] |}.

(** [setExpires(nativedate)]; a date is its time value, [None] is a missing
    one.  The guard names an undeclared variable, so it throws a
    [ReferenceError]. *)
Definition setExpires (nativedate : option Z) (p : PostPolicy) : Err + PostPolicy :=
  match nativedate with
  | None => inl ReferenceError
  | Some date =>
      inr {| policy := {| expiration := Some (formatExpiration date);
                          conditions := conditions (policy p) |};
             formData := formData p |}
  end.

Definition setKey (object : string) (p : PostPolicy) : Err + PostPolicy :=
  if negb (isValidObjectName object) then inl InvalidObjectNameError
  else inr {| policy := pushCondition (CondEq "$key" object) p;
              formData := <["key" := object]> (formData p) |}.

Definition setKeyStartsWith (prefix : string) (p : PostPolicy) : Err + PostPolicy :=
  if negb (isValidPrefix prefix) then inl InvalidPrefixError
  else inr {| policy := pushCondition (CondStartsWith "$key" prefix) p;
              formData := <["key" := prefix]> (formData p) |}.

Definition setBucket (bucket : string) (p : PostPolicy) : Err + PostPolicy :=
  if negb (isValidBucketName bucket) then inl InvalidBucketNameError
  else inr {| policy := pushCondition (CondEq "$bucket" bucket) p;
              formData := <["bucket" := bucket]> (formData p) |}.

Definition setContentType (type : string) (p : PostPolicy) : Err + PostPolicy :=
  if negb (truthy type) then inl (PlainError "content-type cannot be null")
  else inr {| policy := pushCondition (CondEq "$Content-Type" type) p;
              formData := <["Content-Type" := type]> (formData p) |}.

Definition setContentLength (min max : Z) (p : PostPolicy) : Err + PostPolicy :=
  if min >? max then inl (PlainError "min cannot be more than max")
  else if min <? 0 then inl (PlainError "min should be > 0")
  else if max <? 0 then inl (PlainError "max should be > 0")
  else inr {| policy := pushCondition (CondContentLengthRange min max) p;
              formData := formData p |}.

(** A call of one of the setters. *)
Inductive Setter : Type :=
  | SetExpires (nativedate : option Z)
  | SetKey (object : string)
  | SetKeyStartsWith (prefix : string)
  | SetBucket (bucket : string)
  | SetContentType (type : string)
  | SetContentLength (min max : Z).

Definition isSetBucket (s : Setter) : bool :=
  match s with SetBucket _ => true | _ => false end.

Definition applySetter (s : Setter) : PostPolicy -> Err + PostPolicy :=
  match s with
  | SetExpires d => setExpires d
  | SetKey o => setKey o
  | SetKeyStartsWith x => setKeyStartsWith x
  | SetBucket b => setBucket b
  | SetContentType t => setContentType t
  | SetContentLength lo hi => setContentLength lo hi
  end.

(** The policy object after a sequence of setter calls on it; a setter that
    throws leaves the object as it was. *)
Definition afterCalls (calls : list Setter) (p : PostPolicy) : PostPolicy :=
  fold_left (fun p s => match applySetter s p with inr p' => p' | inl _ => p end)
            calls p.

(** [presignedPostPolicy(postPolicy, cb)]: the value is the policy object as
    the call leaves it; the callback receives its [formData].  A bucket name
    that is [undefined] is no valid bucket name. *)
Definition presignedPostPolicy (c : Client) (postPolicy : PostPolicy)
    : Io PostPolicy :=
  if anonymous c then throw AnonymousRequestError
  else
    match formData postPolicy !! "bucket" with
    | None => throw InvalidBucketNameError
    | Some bucket =>
        region <- getBucketRegion c bucket ;;
        date <- now ;;
        let dateStr := amzDate date in
        let credential := accessKey (params c) +:+ "/" +:+ getScope region date in
        let pol :=
          {| expiration := expiration (policy postPolicy);
             conditions :=
               conditions (policy postPolicy)
               ++ [CondEq "$x-amz-date" dateStr;
                   CondEq "$x-amz-algorithm" "AWS4-HMAC-SHA256";
                   CondEq "$x-amz-credential" credential] |} in
        let policyBase64 := base64 (jsonStringify pol) in
        let signature :=
          postPresignSignatureV4 region date (secretKey (params c)) policyBase64 in
        ret {| policy := pol;
               formData :=
                 <["x-amz-signature" := signature]>
                   (<["policy" := policyBase64]>
                      (<["x-amz-credential" := credential]>
                         (<["x-amz-algorithm" := "AWS4-HMAC-SHA256"]>
                            (<["x-amz-date" := dateStr]> (formData postPolicy))))) |}
    end.

(** ** Vocabulary of the properties *)





(** The keys of an object, in insertion order. *)
Definition keysOf (o : Obj) : list string := map fst o.

(** Header keys as they go on the wire: pairwise distinct and lower-case. *)
Definition wellKeyed (o : Obj) : Prop :=
  NoDup (keysOf o) /\ Forall (fun k => toLowerCase k = k) (keysOf o).

(** The headers that signing adds. *)
Definition signingKeys : list string :=
  ["authorization"; "x-amz-date"; "x-amz-content-sha256"].

(** A condition of a policy that has its form field, or its legal range. *)
Definition conditionBacked (formData : gmap string string) (cond : Condition)
    : Prop :=
  match cond with
  | CondEq f v | CondStartsWith f v =>
      exists k, f = "$" +:+ k /\ is_Some (formData !! k)
  | CondContentLengthRange lo hi => 0 <= lo <= hi
  end.

(** A form field that has its condition. *)
Definition entryBacked (conds : list Condition) (k v : string) : Prop :=
  In (CondEq ("$" +:+ k) v) conds \/ In (CondStartsWith ("$" +:+ k) v) conds.

(** Conditions and form data of a policy object in step. *)
Definition policyConsistent (p : PostPolicy) : Prop :=
  Forall (conditionBacked (formData p)) (conditions (policy p))
  /\ forall k v, formData p !! k = Some v ->
                 entryBacked (conditions (policy p)) k v.

(** The form fields that [presignedPostPolicy] writes. *)
Definition signingFields : list string :=
  ["x-amz-date"; "x-amz-algorithm"; "x-amz-credential"; "policy";
   "x-amz-signature"].

End Minio.

(** ** More of the client

    The bucket list, the presigned URLs and the part loops of the multipart
    engine.  The collaborators these need beyond
    [Env] are the fields of [EngineEnv]. *)

Record BucketInfo := {
  bi_name : string;
  bi_creationDate : string
}.

(** An entry of a part listing. *)
Record PartInfo := {
  pi_part : Z;
  pi_etag : string;
  pi_size : Z
}.

(** An entry of [partsDone]: the part number and the ETag, which is
    [undefined] when the response to the part upload has no [etag] header. *)
Record PartRecord := {
  pr_part : Z;
  pr_etag : option string
}.

Class EngineEnv := {
  (* signing.js: [inl] is the error it throws *)
  presignSignatureV4 :
    ReqOptions -> string -> string -> string -> nat -> Z -> Err + string;
  (* crypto, Buffer *)
  md5hex : string -> string;
  hexToBase64 : string -> string;
  base64ToHex : string -> string;
  (* transformers.js *)
  getListBucketTransformer : Response -> Err + list BucketInfo
}.

Section Engine.
Context {env : Env} {eng : EngineEnv}.

#[local] Notation "x <- m ;; k" := (bind m (fun x => k))
  (at level 100, m at next level, right associativity).
#[local] Notation "m ;;; k" := (bind m (fun _ => k))
  (at level 100, right associativity).

(** [listBuckets(cb)]. *)
Definition listBuckets (c : Client) : Io (list BucketInfo) :=
  response <- makeRequest c {| method := "GET"; bucketName := None;
                               objectName := None; query := None;
                               headers := [] |} EmptyString 200 ;;
  decode (getListBucketTransformer response).

(** [presignedGetObject] and [presignedPutObject] differ in the method only.
    The request date is read before the region is resolved; what
    [presignSignatureV4] throws goes to the callback. *)
Definition presignedObject (method : string) (c : Client)
    (bucket object : string) (expires : Z) : Io string :=
  if anonymous c then throw AnonymousRequestError
  else if negb (isValidBucketName bucket) then throw InvalidBucketNameError
  else if negb (isValidObjectName object) then throw InvalidObjectNameError
  else
    let reqOptions :=
      getRequestOptions c {| method := method; bucketName := Some bucket;
                             objectName := Some object; query := None;
                             headers := [] |} in
    requestDate <- now ;;
    region <- getBucketRegion c bucket ;;
    decode (presignSignatureV4 reqOptions (accessKey (params c))
              (secretKey (params c)) region requestDate expires).

Definition presignedPutObject : Client -> string -> string -> Z -> Io string :=
  presignedObject "PUT".

Definition presignedGetObject : Client -> string -> string -> Z -> Io string :=
  presignedObject "GET".

(** *** Part uploads *)

(** [getUploader(bucketName, objectName, contentType, true)], applied:
    [multipartUploader(uploadId, partNumber, stream, length, sha256sum,
    md5sum, cb)].  The value is the ETag of the part. *)
Definition multipartUploader (c : Client) (bucket object contentType : string)
    (uploadId : string) (partNumber : Z) (stream : string) (length : Z)
    (sha256sum : option string) (md5sum : string) : Io (option string) :=
  if negb (isValidBucketName bucket) then throw InvalidBucketNameError
  else if negb (isValidObjectName object) then throw InvalidObjectNameError
  else
    let contentType :=
      if truthy contentType then contentType else "application/octet-stream" in
    if negb (truthy uploadId) then throw InvalidArgumentError
    else if partNumber =? 0 then throw InvalidArgumentError
    else
      match sha256sum with
      | None => throw TypeError
      | Some sha256sum =>
          response <- makeRequestStream c
            {| method := "PUT"; bucketName := Some bucket;
               objectName := Some object;
               query := Some ("partNumber=" +:+ pretty partNumber
                              +:+ "&uploadId=" +:+ uploadId);
               headers := [("Content-Length", pretty length);
                           ("Content-Type", contentType);
                           ("Content-MD5", md5sum)] |}
            stream sha256sum 200 ;;
          ret (option_map stripQuotes (obj_get "etag" (resp_headers response)))
      end.

(** [parts[partNumber]] for the object built by the [reduce] over the part
    listing: the first entry with that number. *)
Definition partsByNumber (etags : list PartInfo) (n : Z) : option PartInfo :=
  List.find (fun item => pi_part item =? n) etags.

(** [fs.createReadStream(path, {start, end})] with [end = start + length - 1],
    read to its end; a range that ends before it starts is refused. *)
Definition readRange (path : string) (start length : Z) : Io string :=
  if length <=? 0 then throw (PlainError "start must be <= end")
  else fun w =>
    match files w !! path with
    | Some content =>
        (CbOk (String.substring (Z.to_nat start) (Z.to_nat length) content), w)
    | None => (CbError (IOError "ENOENT"), w)
    end.

(** The [async.whilst] loop of [fPutObject]; [fuel] bounds the number of
    iterations, and [None] is the loop still running when it is used up. *)
Fixpoint fPutParts (fuel : nat) (c : Client)
    (bucket object contentType filePath uploadId : string)
    (etags : list PartInfo) (size partSize partNumber uploadedSize : Z)
    (partsDone : list PartRecord) : Io (option (list PartRecord)) :=
  match fuel with
  | O => ret None
  | S fuel =>
      if uploadedSize <? size then
        let part := partsByNumber etags partNumber in
        let length :=
          if partSize >? size - uploadedSize then size - uploadedSize
          else partSize in
        chunk <- readRange filePath uploadedSize length ;;
        data <- decode (getHashSummer false chunk) ;;
        let md5sumhex := base64ToHex (fst data) in
        match part with
        | Some p =>
            if String.eqb md5sumhex (pi_etag p) then
              fPutParts fuel c bucket object contentType filePath uploadId etags
                size partSize (partNumber + 1) (uploadedSize + length)
                (partsDone ++ [{| pr_part := partNumber;
                                  pr_etag := Some (pi_etag p) |}])
            else
              etag <- multipartUploader c bucket object contentType uploadId
                        partNumber chunk length (snd data) (fst data) ;;
              fPutParts fuel c bucket object contentType filePath uploadId etags
                size partSize (partNumber + 1) (uploadedSize + length)
                (partsDone ++ [{| pr_part := partNumber; pr_etag := etag |}])
        | None =>
            etag <- multipartUploader c bucket object contentType uploadId
                      partNumber chunk length (snd data) (fst data) ;;
            fPutParts fuel c bucket object contentType filePath uploadId etags
              size partSize (partNumber + 1) (uploadedSize + length)
              (partsDone ++ [{| pr_part := partNumber; pr_etag := etag |}])
        end
      else ret (Some partsDone)
  end.

(** *** The chunk uploader *)

(** The variables the transform of [chunkUploader] closes over.  The
    aggregator, [md5] and [sha256] are created and dropped together; they
    hold the bytes written since the last part, empty when they are null. *)
Record Aggregation := {
  aggregatedSize : Z;
  aggregator : string;
  partNumber : Z;
  partsDone : list PartRecord
}.

Definition nextPart (st : Aggregation) (done : PartRecord) : Aggregation :=
  {| aggregatedSize := 0; aggregator := EmptyString;
     partNumber := partNumber st + 1;
     partsDone := partsDone st ++ [done] |}.

(** The transform function of [chunkUploader], for one chunk. *)
Definition chunkStep (c : Client) (bucket object contentType uploadId : string)
    (partsArray : list PartInfo) (multipartSize : Z)
    (st : Aggregation) (chunk : string) : Io Aggregation :=
  if fileSize chunk >? minimumPartSize c
  then fail (PlainError "chunk length cannot be more")
  else
    let size := aggregatedSize st + fileSize chunk in
    if size >? multipartSize
    then fail (PlainError "aggregated size cannot be greater than multipartSize")
    else
      let data := aggregator st +:+ chunk in
      let done :=
        (size =? multipartSize)
        || ((size <? multipartSize) && (fileSize chunk <? minimumPartSize c)) in
      if negb done
      then ret {| aggregatedSize := size; aggregator := data;
                  partNumber := partNumber st; partsDone := partsDone st |}
      else
        let md5sumhex := md5hex data in
        let upload :=
          etag <- multipartUploader c bucket object contentType uploadId
                    (partNumber st) data size (Some (sha256hex data))
                    (hexToBase64 md5sumhex) ;;
          ret (nextPart st {| pr_part := partNumber st; pr_etag := etag |}) in
        match partsByNumber partsArray (partNumber st) with
        | Some p =>
            if String.eqb md5sumhex (pi_etag p)
            then ret (nextPart st {| pr_part := pi_part p;
                                     pr_etag := Some (pi_etag p) |})
            else upload
        | None => upload
        end.

Fixpoint chunkSteps (c : Client) (bucket object contentType uploadId : string)
    (partsArray : list PartInfo) (multipartSize : Z)
    (st : Aggregation) (chunks : list string) : Io Aggregation :=
  match chunks with
  | [] => ret st
  | chunk :: rest =>
      st' <- chunkStep c bucket object contentType uploadId partsArray
               multipartSize st chunk ;;
      chunkSteps c bucket object contentType uploadId partsArray multipartSize
                 st' rest
  end.

(** [chunkUploader(bucketName, objectName, contentType, uploadId, partsArray,
    multipartSize)], fed with [chunks] and then ended: the value is what the
    flush function pushes. *)
Definition chunkUploader (c : Client) (bucket object contentType uploadId : string)
    (partsArray : list PartInfo) (multipartSize : Z) (chunks : list string)
    : Io (list PartRecord) :=
  if negb (isValidBucketName bucket) then throw InvalidBucketNameError
  else if negb (isValidObjectName object) then throw InvalidObjectNameError
  else if multipartSize >? maximumPartSize c then throw InvalidArgumentError
  else
    st <- chunkSteps c bucket object contentType uploadId partsArray
            multipartSize
            {| aggregatedSize := 0; aggregator := EmptyString;
               partNumber := 1; partsDone := [] |} chunks ;;
    ret (partsDone st).

(** The bytes written to the requests of a stretch of the wire, in order. *)
Definition sentBytes (reqs : list Request) : string :=
  fold_right (fun r s => payload r +:+ s) EmptyString reqs.

End Engine.

(** ** A concrete environment

    Stand-ins for the collaborators, used to run the definitions on concrete
    inputs.  The server is left open. *)

Definition digest64 : string :=
  "0000000000000000000000000000000000000000000000000000000000000000".

Definition digit_of (a : ascii) : option Z :=
  let n := nat_of_ascii a in
  if ((48 <=? n) && (n <=? 57))%nat then Some (Z.of_nat (n - 48)) else None.

Fixpoint parseDigits (s : string) (acc : Z) : option Z :=
  match s with
  | EmptyString => Some acc
  | String a r =>
      match digit_of a with
      | Some d => parseDigits r (10 * acc + d)
      | None => None
      end
  end.

Definition decimalNumber (o : option string) : option Z :=
  match o with
  | Some (String a r) => parseDigits (String a r) 0
  | _ => None
  end.

(** The part of a path before its last slash, ["."] when there is none. *)
Fixpoint dirnameAux (s : string) : option string :=
  match s with
  | EmptyString => None
  | String a r =>
      match dirnameAux r with
      | Some d => Some (String a d)
      | None => if Ascii.eqb a "/"%char then Some EmptyString else None
      end
  end.

Definition simpleDirname (s : string) : string :=
  match dirnameAux s with
  | Some EmptyString => "/"
  | Some d => d
  | None => "."
  end.

Definition lengthBetween (lo hi : nat) (s : string) : bool :=
  ((lo <=? String.length s) && (String.length s <=? hi))%nat.

(** Percent-encoding of the ampersand, the one reserved character that the
    runs below depend on. *)
Fixpoint escapeAmpersand (s : string) : string :=
  match s with
  | EmptyString => EmptyString
  | String a r =>
      if Ascii.eqb a "&" then "%26" +:+ escapeAmpersand r
      else String a (escapeAmpersand r)
  end.

Definition testEnv (server : list Request -> Request -> Err + Response) : Env :=
  {| isValidEndpoint := truthy;
     isValidPort := fun p => (0 <=? p) && (p <=? 65535);
     isAmazonEndpoint := String.eqb "s3.amazonaws.com";
     isValidBucketName := lengthBetween 1 63;
     isValidObjectName := lengthBetween 1 1024;
     isValidPrefix := lengthBetween 0 1024;
     isValidACL := fun acl =>
       existsb (String.eqb acl) ["private"; "public-read"; "public-read-write";
                                 "authenticated-read"];
     uriEscape := escapeAmpersand;
     uriResourceEscape := fun s => s;
     getScope := fun region date => "20150101/" +:+ region +:+ "/s3/aws4_request";
     signV4 := fun ro ak sk region =>
       "AWS4-HMAC-SHA256 Credential=" +:+ ak +:+ "/" +:+ region;
     postPresignSignatureV4 := fun region date sk policyBase64 =>
       "signed:" +:+ region;
     sha256hex := fun _ => digest64;
     md5base64 := fun data => "md5:" +:+ data;
     base64 := fun s => s;
     jsonStringify := fun _ => "{}";
     toNumber := decimalNumber;
     getErrorTransformer := fun r => S3Error (resp_body r);
     getHashSummer := fun anon data =>
       inr ("md5:" +:+ data, if anon then None else Some digest64);
     getBucketRegionTransformer := fun r =>
       inr (if truthy (resp_body r) then [resp_body r] else []);
     getAclTransformer := fun r =>
       inr (map (fun kv => {| grantee_uri := fst kv; permission := snd kv |})
                (resp_headers r));
     getListObjectsTransformer := fun r =>
       inr {| objects := []; isTruncated := truthy (resp_body r);
              nextMarker := resp_body r |};
     amzDate := fun _ => "20150101T000000Z";
     formatExpiration := fun _ => "2015-01-01T00:00:00.000Z";
     platform := "linux";
     arch := "x64";
     version := "1.0.0";
     dirname := simpleDirname;
     mkdirp := fun _ => None;
     transport := server |}.

Definition testParams : ConstructorParams :=
  {| endPoint := "localhost"; cp_port := 9000; insecure := true;
     cp_accessKey := "accesskey"; cp_secretKey := "secretkey" |}.

(** The client [new Client(testParams)] builds. *)
Definition testClient : Client :=
  {| params := {| host := "localhost"; port := 9000; protocol := "http:";
                  accessKey := "accesskey"; secretKey := "secretkey";
                  userAgent := "Minio (linux; x64) minio-js/1.0.0" |};
     anonymous := false;
     virtualHostStyle := false;
     minimumPartSize := 5242880;
     maximumPartSize := 5368709120;
     maxObjectSize := 5497558138880 |}.

(** The client [new Client] builds when the parameters name no keys. *)
Definition anonymousParams : ConstructorParams :=
  {| endPoint := "localhost"; cp_port := 9000; insecure := true;
     cp_accessKey := EmptyString; cp_secretKey := EmptyString |}.

Definition anonymousClient : Client :=
  {| params := {| host := "localhost"; port := 9000; protocol := "http:";
                  accessKey := EmptyString; secretKey := EmptyString;
                  userAgent := "Minio (linux; x64) minio-js/1.0.0" |};
     anonymous := true;
     virtualHostStyle := false;
     minimumPartSize := 5242880;
     maximumPartSize := 5368709120;
     maxObjectSize := 5497558138880 |}.

(** A string of [n] bytes. *)
Definition blob (n : N) : string := N.iter n (String "x"%char) EmptyString.

Definition emptyWorld : World :=
  {| regionMap := ∅; files := ∅; wire := [] |}.

Definition reply (status : Z) (body : string) : Response :=
  {| statusCode := status; resp_headers := []; resp_body := body |}.

(** A server that answers every request with the same response. *)
Definition constServer (r : Response) : list Request -> Request -> Err + Response :=
  fun _ _ => inr r.

Definition quietEnv : Env := testEnv (constServer (reply 200 EmptyString)).



(** A server that knows the region of [bucket], deletes what it is asked to
    delete and holds no objects. *)
Definition bucketServer : list Request -> Request -> Err + Response :=
  fun _ r =>
    if String.eqb (ro_path (options r)) "/bucket?location"
    then inr (reply 200 "eu-west-1")
    else if String.eqb (ro_method (options r)) "DELETE"
    then inr (reply 204 EmptyString)
    else inr (reply 404 "NoSuchKey").

Definition bucketEnv : Env := testEnv bucketServer.





(** A server whose every bucket grants READ to everybody. *)
Definition publicReadEnv : Env :=
  testEnv (constServer {| statusCode := 200;
                          resp_headers := [(AllUsers, "READ")];
                          resp_body := EmptyString |}).

(** A server that holds the three-byte object ["abc"] with ETag ["e"] under
    every name and honours the range [bytes=1-]. *)
Definition objectServer : list Request -> Request -> Err + Response :=
  fun _ r =>
    if String.eqb (ro_method (options r)) "HEAD"
    then inr {| statusCode := 200;
                resp_headers := [("etag", dquote +:+ "e" +:+ dquote);
                                 ("content-length", "3")];
                resp_body := EmptyString |}
    else if String.eqb (ro_path (options r)) "/b?location"
    then inr (reply 200 EmptyString)
    else match obj_get "range" (ro_headers (options r)) with
         | Some "bytes=1-" => inr (reply 206 "bc")
         | Some _ => inr (reply 416 "InvalidRange")
         | None => inr (reply 200 "abc")
         end.

Definition objectEnv : Env := testEnv objectServer.

(** A server that announces three bytes and delivers two. *)
Definition truncatingServer : list Request -> Request -> Err + Response :=
  fun _ r =>
    if String.eqb (ro_method (options r)) "HEAD"
    then inr {| statusCode := 200;
                resp_headers := [("etag", dquote +:+ "e" +:+ dquote);
                                 ("content-length", "3")];
                resp_body := EmptyString |}
    else if String.eqb (ro_path (options r)) "/b?location"
    then inr (reply 200 EmptyString)
    else inr (reply 200 "ab").

Definition truncatingEnv : Env := testEnv truncatingServer.

Definition cachedWorld : World :=
  {| regionMap := {[ "bucket" := "eu-west-1" ]}; files := ∅; wire := [] |}.

(** Doubles of the collaborators of [EngineEnv]; the digests agree with
    those of [testEnv]. *)
Definition testEngine : EngineEnv :=
  {| presignSignatureV4 := fun ro ak sk region date expires =>
       inr (ro_host ro +:+ ro_path ro +:+ "?X-Amz-Credential=" +:+ ak +:+ "/"
            +:+ region);
     md5hex := fun data => "md5:" +:+ data;
     hexToBase64 := fun s => s;
     base64ToHex := fun s => s;
     getListBucketTransformer := fun _ => inr [] |}.

(** A client with the sizes scaled down: parts of at least 2 and at most 8
    bytes. *)
Definition smallClient : Client :=
  {| params := params testClient;
     anonymous := false;
     virtualHostStyle := false;
     minimumPartSize := 2;
     maximumPartSize := 8;
     maxObjectSize := 100 |}.

(** A world with the five-byte file [/tmp/f]. *)
Definition fileWorld : World :=
  {| regionMap := ∅; files := {[ "/tmp/f" := "abcde" ]}; wire := [] |}.

(** A request for an object with two headers that differ in case only. *)
Definition mixedCaseRequest : RequestSpec :=
  {| method := "PUT"; bucketName := Some "bucket"; objectName := Some "object";
     query := None;
     headers := [("Content-Type", "text/plain"); ("content-type", "text/html")] |}.

(** ** Properties *)

Section Properties.
Context {env : Env}.

Lemma newClient_sizes p c :
  newClient p = inr c ->
  minimumPartSize c = 5 * 1024 * 1024
  /\ maximumPartSize c = 5 * 1024 * 1024 * 1024
  /\ maxObjectSize c = 5 * 1024 * 1024 * 1024 * 1024.
Proof.
  unfold newClient. intros Hc.
  destruct (negb (isValidEndpoint (endPoint p))); [discriminate|].
  destruct (negb (isValidPort (cp_port p))); [discriminate|].
  destruct (negb (insecure p)); injection Hc as <-; auto.
Qed.

(** [ceil_div a b] is the ceiling of the quotient: the least integer [q]
    with [a <= b * q]. *)
Lemma ceil_div_spec a b :
  0 < b -> b * (ceil_div a b - 1) < a <= b * ceil_div a b.
Proof.
  intros Hb. unfold ceil_div.
  pose proof (Z.div_mod (- a) b ltac:(lia)) as Hdm.
  pose proof (Z.mod_pos_bound (- a) b Hb) as Hm.
  nia.
Qed.

Lemma ceil_div_unique a b q :
  0 < b -> b * (q - 1) < a <= b * q -> q = ceil_div a b.
Proof.
  intros Hb Hq. pose proof (ceil_div_spec a b Hb) as Hs. nia.
Qed.

(** *** Part size *)

(** C2.  For a client built by the constructor and an integer
    byte count [S] with [0 <= S <= maxObjectSize], [calculatePartSize(S)]
    returns [ceil(ceil(S/10000)/minimumPartSize) * minimumPartSize] with
    [minimumPartSize] = 5 MiB: a multiple of 5 MiB that never exceeds
    [maximumPartSize], that is positive when [S > 0] and is 0 when [S = 0].
    [calculatePartSize(5 * 2^40)] is [525 * 1024 * 1024], and for
    [S > maxObjectSize] the call throws instead of returning a size. *)
Theorem calculatePartSize_formula p c S :
  newClient p = inr c ->
  0 <= S ->
  (S <= maxObjectSize c ->
   exists q1 q2,
     10000 * (q1 - 1) < S <= 10000 * q1
     /\ minimumPartSize c * (q2 - 1) < q1 <= minimumPartSize c * q2
     /\ calculatePartSize c S = inr (q2 * minimumPartSize c)
     /\ minimumPartSize c = 5 * 1024 * 1024
     /\ 0 <= q2 * minimumPartSize c <= maximumPartSize c
     /\ (0 < S -> 0 < q2 * minimumPartSize c)
     /\ (S = 0 -> q2 * minimumPartSize c = 0))
  /\ (maxObjectSize c < S -> calculatePartSize c S = inl TypeError)
  /\ maxObjectSize c = 5 * 2 ^ 40
  /\ calculatePartSize c (5 * 2 ^ 40) = inr (525 * 1024 * 1024).
Proof.
  intros Hc HS. destruct (newClient_sizes p c Hc) as (Hmin & Hmax & Hobj).
  split; [|split; [|split]].
  - intros Hle.
    exists (ceil_div S 10000), (ceil_div (ceil_div S 10000) (minimumPartSize c)).
    pose proof (ceil_div_spec S 10000 ltac:(lia)) as H1.
    pose proof (ceil_div_spec (ceil_div S 10000) (minimumPartSize c) ltac:(lia)) as H2.
    split; [exact H1|]. split; [exact H2|].
    split.
    + unfold calculatePartSize.
      destruct (S >? maxObjectSize c) eqn:E; [lia|reflexivity].
    + split; [exact Hmin|]. rewrite Hmin, Hmax in *. rewrite Hobj in Hle.
      repeat split; try nia.
  - intros Hgt. unfold calculatePartSize.
    destruct (S >? maxObjectSize c) eqn:E; [reflexivity|lia].
  - rewrite Hobj. reflexivity.
  - unfold calculatePartSize. rewrite Hobj, Hmin. reflexivity.
Qed.

(** *** Strings *)

Lemma append_nil_l (b : string) : EmptyString +:+ b = b.
Proof. reflexivity. Qed.

Lemma append_cons x (a b : string) : String x a +:+ b = String x (a +:+ b).
Proof. reflexivity. Qed.

Lemma append_assoc (a b c : string) : (a +:+ b) +:+ c = a +:+ b +:+ c.
Proof.
  induction a as [|x a IH]; [reflexivity|].
  rewrite !append_cons. now rewrite IH.
Qed.

Lemma append_nil_r (a : string) : a +:+ EmptyString = a.
Proof.
  induction a as [|x a IH]; [reflexivity|]. rewrite append_cons. now rewrite IH.
Qed.

Lemma length_append (a b : string) :
  String.length (a +:+ b) = (String.length a + String.length b)%nat.
Proof.
  induction a as [|x a IH]; [reflexivity|].
  rewrite append_cons. simpl. now rewrite IH.
Qed.

(** *** Request construction *)

Lemma getRequestOptions_headers c opts :
  exists h, ro_headers (getRequestOptions c opts)
            = lowerHeaders (headers opts) [("host", h)].
Proof.
  unfold getRequestOptions.
  destruct (negb (virtualHostStyle c) || negb (truthy_opt (bucketName opts)));
    eexists; reflexivity.
Qed.

Lemma getRequestOptions_method c opts :
  ro_method (getRequestOptions c opts) = method opts.
Proof.
  unfold getRequestOptions.
  destruct (negb (virtualHostStyle c) || negb (truthy_opt (bucketName opts)));
    reflexivity.
Qed.

(** *** Region cache and request executor, step by step *)

Lemma cachedRegion_absent (m : gmap string string) b :
  m !! b = None -> inheritedKey b = false -> cachedRegion m b = None.
Proof. unfold cachedRegion. now intros -> ->. Qed.

Lemma cachedRegion_inherited (m : gmap string string) b :
  m !! b = None -> inheritedKey b = true ->
  cachedRegion m b = Some (inheritedValue b).
Proof. unfold cachedRegion. now intros -> ->. Qed.

Lemma cachedRegion_None (m : gmap string string) b :
  cachedRegion m b = None -> inheritedKey b = false \/ is_Some (m !! b).
Proof.
  unfold cachedRegion. destruct (m !! b) as [x|]; [now right; eexists|].
  destruct (inheritedKey b); [discriminate|now left].
Qed.

Lemma cachedRegion_present (m : gmap string string) b r :
  m !! b = Some r -> truthy r = true -> cachedRegion m b = Some r.
Proof. unfold cachedRegion. now intros -> ->. Qed.

Lemma cachedRegion_inv (m : gmap string string) b r :
  cachedRegion m b = Some r ->
  (m !! b = Some r /\ truthy r = true)
  \/ (m !! b = None /\ inheritedKey b = true /\ r = inheritedValue b).
Proof.
  unfold cachedRegion. destruct (m !! b) as [x|].
  - destruct (truthy x) eqn:E; [|discriminate]. intros [= <-]. now left.
  - destruct (inheritedKey b); [|discriminate]. intros [= <-]. now right.
Qed.

Lemma cachedRegion_truthy (m : gmap string string) b r :
  cachedRegion m b = Some r -> truthy r = true.
Proof.
  intros [[_ H]|(_ & _ & ->)]%cachedRegion_inv; [exact H|reflexivity].
Qed.

Lemma getBucketRegion_hit c b w r :
  isValidBucketName b = true ->
  cachedRegion (regionMap w) b = Some r ->
  getBucketRegion c b w = (CbOk r, w).
Proof.
  intros Hb Hc. unfold getBucketRegion. rewrite Hb. cbn [negb].
  unfold bind, getRegionMap. now rewrite Hc.
Qed.

Lemma getBucketRegion_miss c b w :
  isValidBucketName b = true ->
  cachedRegion (regionMap w) b = None ->
  getBucketRegion c b w
  = let req := locationLookup c b w in
    match transport (wire w) req with
    | inl e => (CbError e, sent req w)
    | inr response =>
        if statusCode response =? 200 then
          match getBucketRegionTransformer response with
          | inl e => (CbError e, sent req w)
          | inr data =>
              (CbOk (regionOfData data),
               withRegionMap (<[b := regionOfData data]> (regionMap w))
                             (sent req w))
          end
        else (CbError (getErrorTransformer response), sent req w)
    end.
Proof.
  intros Hb Hc. unfold getBucketRegion. rewrite Hb. cbn [negb].
  unfold bind at 1. unfold getRegionMap. rewrite Hc.
  unfold bind at 1. unfold now. unfold bind at 1. unfold send.
  fold (locationLookup c b w). cbv zeta.
  destruct (transport (wire w) (locationLookup c b w)) as [e|response];
    [reflexivity|].
  destruct (statusCode response =? 200); cbn [negb]; [|reflexivity].
  unfold bind, decode.
  destruct (getBucketRegionTransformer response); reflexivity.
Qed.

Lemma _makeRequest_eq c opts ro stream sha expected region w :
  _makeRequest c opts ro stream sha expected region w
  = let req := signedRequest c ro stream sha region w in
    match transport (wire w) req with
    | inl e => (CbError e, sent req w)
    | inr response =>
        if expected =? statusCode response then (CbOk response, sent req w)
        else (CbError (getErrorTransformer response),
              withRegionMap (delete (js_string (bucketName opts)) (regionMap w))
                            (sent req w))
    end.
Proof.
  unfold _makeRequest, bind, now, send. fold (signedRequest c ro stream sha region w).
  cbv zeta.
  destruct (transport (wire w) (signedRequest c ro stream sha region w))
    as [e|response]; [reflexivity|].
  destruct (expected =? statusCode response); reflexivity.
Qed.

Lemma obj_get_set_eq k v o : obj_get k (obj_set k v o) = Some v.
Proof.
  induction o as [|[k' v'] o IH]; cbn.
  - now rewrite String.eqb_refl.
  - destruct (String.eqb k k') eqn:E; cbn.
    + now rewrite String.eqb_refl.
    + rewrite E. exact IH.
Qed.

Lemma obj_get_set_ne k k' v o :
  k <> k' -> obj_get k (obj_set k' v o) = obj_get k o.
Proof.
  intros Hne. induction o as [|[k0 v0] o IH]; cbn.
  - now apply String.eqb_neq in Hne as ->.
  - destruct (String.eqb_spec k' k0) as [<-|Hk]; cbn.
    + now apply String.eqb_neq in Hne as ->.
    + now rewrite IH.
Qed.

Lemma stamp_authorization c ro date sha region :
  exists ro',
    obj_get "authorization" (ro_headers (stamp c ro date sha region))
    = Some (signV4 ro' (accessKey (params c)) (secretKey (params c)) region)
    /\ ro_method ro' = ro_method ro /\ ro_host ro' = ro_host ro
    /\ ro_path ro' = ro_path ro
    /\ obj_get "x-amz-content-sha256" (ro_headers ro') = Some sha.
Proof.
  unfold stamp. eexists. split; [apply obj_get_set_eq|].
  cbn. repeat split. apply obj_get_set_eq.
Qed.

Lemma stamp_shape c ro date sha region :
  ro_method (stamp c ro date sha region) = ro_method ro
  /\ ro_host (stamp c ro date sha region) = ro_host ro
  /\ ro_port (stamp c ro date sha region) = ro_port ro
  /\ ro_protocol (stamp c ro date sha region) = ro_protocol ro
  /\ ro_path (stamp c ro date sha region) = ro_path ro.
Proof. unfold stamp. cbn. auto. Qed.

Lemma regionOfData_truthy data : truthy (regionOfData data) = true.
Proof.
  unfold regionOfData.
  assert (forall r, truthy r = true ->
            truthy (fold_left (fun region d => if truthy d then d else region)
                              data r) = true) as H0.
  { induction data as [|d data IH]; intros r Hr; cbn; [exact Hr|].
    apply IH. destruct (truthy d) eqn:E; assumption. }
  now apply H0.
Qed.

Lemma regionOfData_default data :
  Forall (fun d => truthy d = false) data -> regionOfData data = "us-east-1".
Proof.
  unfold regionOfData. generalize "us-east-1".
  induction data as [|d data IH]; intros r Hall; cbn; [reflexivity|].
  inversion Hall as [|? ? Hd Hrest]; subst. rewrite Hd. now apply IH.
Qed.


Lemma signedRequest_shape c ro stream sha region w :
  ro_method (options (signedRequest c ro stream sha region w)) = ro_method ro
  /\ ro_host (options (signedRequest c ro stream sha region w)) = ro_host ro
  /\ ro_path (options (signedRequest c ro stream sha region w)) = ro_path ro
  /\ payload (signedRequest c ro stream sha region w) = stream.
Proof.
  unfold signedRequest. cbn [options payload].
  destruct (anonymous c); [auto|].
  destruct (stamp_shape c ro (length (wire w)) sha region)
    as (S1 & S2 & _ & _ & S5).
  auto.
Qed.

Lemma locationLookup_isLookup c b w : isLookup b (locationLookup c b w).
Proof.
  unfold isLookup, locationLookup, locationRequest. cbn [options].
  destruct (anonymous c); [reflexivity|].
  match goal with
  | |- ro_path (stamp c ?ro ?d ?s ?r) = _ =>
      destruct (stamp_shape c ro d s r) as (_ & _ & _ & _ & S5); exact S5
  end.
Qed.

(** What a run of [getBucketRegion] leaves behind: the files are untouched
    and the wire grows by at most the lookup. *)
Lemma getBucketRegion_trace c b w o w' :
  getBucketRegion c b w = (o, w') ->
  files w' = files w
  /\ (wire w' = wire w \/ wire w' = wire w ++ [locationLookup c b w]).
Proof.
  destruct (isValidBucketName b) eqn:Hb.
  - destruct (cachedRegion (regionMap w) b) as [r|] eqn:Hc.
    + rewrite (getBucketRegion_hit c b w r Hb Hc). intros [= <- <-]. auto.
    + rewrite (getBucketRegion_miss c b w Hb Hc). cbv zeta.
      destruct (transport (wire w) (locationLookup c b w)) as [e|response].
      * intros [= <- <-]. auto.
      * destruct (statusCode response =? 200).
        -- destruct (getBucketRegionTransformer response);
             intros [= <- <-]; auto.
        -- intros [= <- <-]. auto.
  - unfold getBucketRegion. rewrite Hb. intros [= <- <-]. auto.
Qed.

(** What a run of [makeRequestStream] leaves behind: the files are
    untouched, and the wire grows by at most the lookup for the bucket
    followed by the request itself. *)
Lemma makeRequestStream_trace c opts stream sha expected w o w' :
  makeRequestStream c opts stream sha expected w = (o, w') ->
  files w' = files w
  /\ exists new,
       wire w' = wire w ++ new
       /\ Forall (fun r =>
                    isLookup (js_string (bucketName opts)) r
                    \/ (ro_method (options r) = method opts
                        /\ ro_path (options r)
                           = ro_path (getRequestOptions c opts)
                        /\ payload r = stream)) new.
Proof.
  unfold makeRequestStream.
  destruct (sha256sumRejected c sha).
  { intros [= <- <-]. split; [reflexivity|]. exists []. split; [|constructor].
    now rewrite app_nil_r. }
  unfold bind at 1.
  destruct (resolveRegion c opts w) as [[e|e|region] w1] eqn:Hres.
  1,2: intros [= <- <-].
  all: assert (files w1 = files w
               /\ (wire w1 = wire w
                   \/ wire w1 = wire w
                                ++ [locationLookup c (js_string (bucketName opts)) w]))
         as [Hf Hw]
         by (unfold resolveRegion in Hres;
             destruct (negb (truthy_opt (bucketName opts)));
             [injection Hres as _ <-; auto
             |exact (getBucketRegion_trace _ _ _ _ _ Hres)]).
  1,2: split; [exact Hf|]; destruct Hw as [Hw|Hw]; rewrite Hw;
       [exists []; split; [now rewrite app_nil_r|constructor]
       |eexists; split; [reflexivity|];
        constructor; [left; apply locationLookup_isLookup|constructor]].
  rewrite _makeRequest_eq. cbv zeta.
  set (req := signedRequest c (getRequestOptions c opts) stream sha region w1).
  assert (wire (sent req w1) = wire w1 ++ [req]) as Hsent by reflexivity.
  assert (Forall (fun r =>
                    isLookup (js_string (bucketName opts)) r
                    \/ (ro_method (options r) = method opts
                        /\ ro_path (options r)
                           = ro_path (getRequestOptions c opts)
                        /\ payload r = stream)) [req]) as Hreq.
  { constructor; [|constructor]. right.
    destruct (signedRequest_shape c (getRequestOptions c opts) stream sha
                region w1) as (S1 & _ & S3 & S4).
    fold req in S1, S3, S4. rewrite S1, S3, S4.
    now rewrite getRequestOptions_method. }
  intros Hrun.
  assert (files w' = files w1 /\ wire w' = wire w1 ++ [req]) as [Hf' Hw'].
  { destruct (transport (wire w1) req) as [e|response].
    - injection Hrun as _ <-. auto.
    - destruct (expected =? statusCode response); injection Hrun as _ <-; auto. }
  split; [congruence|].
  destruct Hw as [Hw|Hw]; rewrite Hw', Hw.
  - exists [req]. auto.
  - exists ([locationLookup c (js_string (bucketName opts)) w] ++ [req]).
    split; [now rewrite app_assoc|].
    apply Forall_app. split; [|exact Hreq].
    constructor; [left; apply locationLookup_isLookup|constructor].
Qed.

Lemma makeRequest_trace c opts body expected w o w' :
  makeRequest c opts body expected w = (o, w') ->
  files w' = files w
  /\ exists new,
       wire w' = wire w ++ new
       /\ Forall (fun r =>
                    isLookup (js_string (bucketName opts)) r
                    \/ (ro_method (options r) = method opts
                        /\ ro_path (options r)
                           = ro_path (getRequestOptions c
                                        (withContentLength opts body))
                        /\ payload r = body)) new.
Proof.
  unfold makeRequest. intros Hrun.
  exact (makeRequestStream_trace _ _ _ _ _ _ _ _ Hrun).
Qed.

(** *** The cache holds regions only *)

Lemma cacheSound_insert b region w :
  cacheSound w -> region <> EmptyString ->
  cacheSound (withRegionMap (<[b := region]> (regionMap w)) w).
Proof.
  intros Hs Hr b' r'. cbn [regionMap withRegionMap].
  rewrite lookup_insert. case_decide as E; [now intros [= <-]|apply Hs].
Qed.

Lemma cacheSound_delete b w :
  cacheSound w -> cacheSound (withRegionMap (delete b (regionMap w)) w).
Proof.
  intros Hs b' r'. cbn [regionMap withRegionMap].
  rewrite lookup_delete. case_decide as E; [discriminate|apply Hs].
Qed.

Lemma getBucketRegion_cacheSound c b w o w' :
  cacheSound w -> getBucketRegion c b w = (o, w') -> cacheSound w'.
Proof.
  intros Hs. destruct (isValidBucketName b) eqn:Hb.
  - destruct (cachedRegion (regionMap w) b) as [r|] eqn:Hc.
    + rewrite (getBucketRegion_hit c b w r Hb Hc). now intros [= <- <-].
    + rewrite (getBucketRegion_miss c b w Hb Hc). cbv zeta.
      destruct (transport (wire w) (locationLookup c b w)) as [e|response].
      * now intros [= <- <-].
      * destruct (statusCode response =? 200).
        -- destruct (getBucketRegionTransformer response) as [e|data];
             intros [= <- <-]; [exact Hs|].
           apply (cacheSound_insert b (regionOfData data) (sent _ w) Hs).
           pose proof (regionOfData_truthy data) as Ht.
           intros E. rewrite E in Ht. discriminate.
        -- now intros [= <- <-].
  - unfold getBucketRegion. rewrite Hb. now intros [= <- <-].
Qed.

Lemma makeRequestStream_cacheSound c opts stream sha expected w o w' :
  cacheSound w ->
  makeRequestStream c opts stream sha expected w = (o, w') ->
  cacheSound w'.
Proof.
  intros Hs. unfold makeRequestStream.
  destruct (sha256sumRejected c sha); [now intros [= <- <-]|].
  unfold bind at 1.
  destruct (resolveRegion c opts w) as [[e|e|region] w1] eqn:Hres.
  1,2: intros [= <- <-].
  all: assert (cacheSound w1) as Hs1
         by (unfold resolveRegion in Hres;
             destruct (negb (truthy_opt (bucketName opts)));
             [now injection Hres as _ <-
             |exact (getBucketRegion_cacheSound _ _ _ _ _ Hs Hres)]).
  1,2: exact Hs1.
  rewrite _makeRequest_eq. cbv zeta.
  destruct (transport (wire w1) _) as [e|response]; [now intros [= <- <-]|].
  destruct (expected =? statusCode response); intros [= <- <-]; [exact Hs1|].
  exact (cacheSound_delete _ (sent _ w1) Hs1).
Qed.

(** In a world reached from an empty cache, whatever the cache holds for a
    bucket is answered without a request. *)
Lemma getBucketRegion_cached c b r w :
  cacheSound w ->
  isValidBucketName b = true ->
  regionMap w !! b = Some r ->
  getBucketRegion c b w = (CbOk r, w).
Proof.
  intros Hs Hb Hm. apply getBucketRegion_hit; [exact Hb|].
  apply cachedRegion_present; [exact Hm|].
  specialize (Hs b r Hm). destruct r; [congruence|reflexivity].
Qed.

(** *** Object listing *)


(** *** Bucket creation *)

Lemma Xml_createBucketConfiguration region :
  Xml (createBucketConfiguration region) = createBucketConfigurationXml region.
Proof.
  unfold createBucketConfigurationXml, createBucketConfiguration, Xml, dquote.
  cbn [flat_map map app join xml_attr fst snd].
  rewrite !append_assoc, !append_nil_l, ?append_nil_r.
  reflexivity.
Qed.

Lemma makeBucketPayload_cases region :
  (region = EmptyString -> makeBucketPayload region = EmptyString)
  /\ (region <> EmptyString ->
      makeBucketPayload region = createBucketConfigurationXml region).
Proof.
  unfold makeBucketPayload. split.
  - now intros ->.
  - intros Hne. destruct region; [congruence|].
    cbn [truthy]. apply Xml_createBucketConfiguration.
Qed.

(** C5 (as amended).  On a client that addresses buckets path-style,
    [makeBucket(b, "private", region)] puts one request on the wire: a PUT of
    [/b] with header [x-amz-acl: private], signed for region [us-east-1]
    unless the client is anonymous, and expecting status 200.  The body is
    empty when [region] is the empty string; for every other region,
    [us-east-1] included, it is the [CreateBucketConfiguration] document with
    that [LocationConstraint]. *)
Theorem makeBucket_request c bucket region w :
  isValidBucketName bucket = true ->
  isValidACL "private" = true ->
  bucket <> EmptyString ->
  virtualHostStyle c = false ->
  exists req o,
    makeBucket c bucket "private" region w = (o, sent req w)
    /\ ro_method (options req) = "PUT"
    /\ ro_host (options req) = host (params c)
    /\ ro_path (options req) = "/" +:+ bucket
    /\ obj_get "x-amz-acl" (ro_headers (options req)) = Some "private"
    /\ (anonymous c = false ->
        exists ro,
          obj_get "authorization" (ro_headers (options req))
          = Some (signV4 ro (accessKey (params c)) (secretKey (params c))
                         "us-east-1")
          /\ ro_path ro = "/" +:+ bucket
          /\ obj_get "x-amz-content-sha256" (ro_headers ro)
             = Some (sha256hex (payload req)))
    /\ (region = EmptyString -> payload req = EmptyString)
    /\ (region <> EmptyString ->
        payload req = createBucketConfigurationXml region)
    /\ match transport (wire w) req with
       | inl e => o = CbError e
       | inr response =>
           if statusCode response =? 200 then o = CbOk tt
           else o = CbError (getErrorTransformer response)
       end.
Proof.
  intros Hb Hacl Hne Hvh.
  assert (truthy bucket = true) as Ht by (destruct bucket; [congruence|reflexivity]).
  unfold makeBucket. rewrite Hb. cbn [negb truthy]. rewrite Hacl. cbn [negb].
  unfold bind at 1. unfold now. unfold bind at 1. unfold send.
  set (ro0 := getRequestOptions c _).
  assert (ro_method ro0 = "PUT" /\ ro_host ro0 = host (params c)
          /\ ro_path ro0 = "/" +:+ bucket
          /\ exists h, ro_headers ro0 = [("host", h); ("x-amz-acl", "private")])
    as (M0 & H0 & P0 & h & Hh).
  { unfold ro0, getRequestOptions. rewrite Hvh.
    cbn [negb orb truthy_opt objectName bucketName query js_string method headers].
    rewrite Ht. cbn. repeat split. eexists. reflexivity. }
  set (ro1 := if anonymous c then ro0 else stamp c ro0 _ _ _).
  exists {| options := ro1; payload := makeBucketPayload region |}.
  destruct (makeBucketPayload_cases region) as [Pe Pn].
  assert (ro_method ro1 = "PUT" /\ ro_host ro1 = host (params c)
          /\ ro_path ro1 = "/" +:+ bucket
          /\ obj_get "x-amz-acl" (ro_headers ro1) = Some "private")
    as (M1 & H1 & P1 & A1).
  { unfold ro1. destruct (anonymous c).
    - rewrite Hh. repeat split; assumption || reflexivity.
    - destruct (stamp_shape c ro0 (length (wire w))
                  (sha256hex (makeBucketPayload region)) "us-east-1")
        as (S1 & S2 & _ & _ & S5).
      rewrite S1, S2, S5. repeat split; try assumption.
      unfold stamp. cbn [ro_headers]. rewrite Hh. reflexivity. }
  assert (anonymous c = false ->
          exists ro,
            obj_get "authorization" (ro_headers ro1)
            = Some (signV4 ro (accessKey (params c)) (secretKey (params c))
                           "us-east-1")
            /\ ro_path ro = "/" +:+ bucket
            /\ obj_get "x-amz-content-sha256" (ro_headers ro)
               = Some (sha256hex (makeBucketPayload region))) as Hauth.
  { intros Ha. unfold ro1. rewrite Ha.
    destruct (stamp_authorization c ro0 (length (wire w))
                (sha256hex (makeBucketPayload region)) "us-east-1")
      as (ro & B1 & _ & _ & B4 & B5).
    exists ro. split; [exact B1|]. split; [congruence|exact B5]. }
  cbv zeta.
  destruct (transport (wire w)
              {| options := ro1; payload := makeBucketPayload region |})
    as [e|response] eqn:Etr.
  - eexists. split; [reflexivity|]. cbn [options payload].
    repeat (split; [assumption|]). reflexivity.
  - destruct (Z.eqb_spec 200 (statusCode response)) as [E|E]; cbn [negb];
      eexists; (split; [reflexivity|]); cbn [options payload];
      repeat (split; [assumption|]).
    + rewrite <- E. reflexivity.
    + destruct (Z.eqb_spec (statusCode response) 200);
        [congruence|reflexivity].
Qed.

(** *** Ranged download *)


Lemma rangeOf_open offset :
  0 < offset -> rangeOf offset 0 = "bytes=" +:+ pretty offset +:+ "-".
Proof.
  intros Ho. unfold rangeOf. destruct (offset =? 0) eqn:Eo; [lia|]. reflexivity.
Qed.

(** *** Bucket ACL *)

Lemma permStep_flags acc g :
  let p := permStep acc g in
  publicRead p
  = publicRead acc || (String.eqb (grantee_uri g) AllUsers
                       && String.eqb (permission g) "READ")
  /\ publicWrite p
     = publicWrite acc || (String.eqb (grantee_uri g) AllUsers
                           && String.eqb (permission g) "WRITE")
  /\ authenticatedRead p
     = authenticatedRead acc || (String.eqb (grantee_uri g) AuthenticatedUsers
                                 && String.eqb (permission g) "READ")
  /\ authenticatedWrite p
     = authenticatedWrite acc || (String.eqb (grantee_uri g) AuthenticatedUsers
                                  && String.eqb (permission g) "WRITE").
Proof.
  unfold permStep.
  destruct (String.eqb_spec (grantee_uri g) AllUsers) as [Hu|Hu].
  - assert (String.eqb (grantee_uri g) AuthenticatedUsers = false) as ->
      by (rewrite Hu; reflexivity).
    destruct (String.eqb_spec (permission g) "READ") as [Hp|Hp].
    + assert (String.eqb (permission g) "WRITE" = false) as ->
        by (rewrite Hp; reflexivity).
      cbn. now rewrite !orb_false_r, !orb_true_r.
    + destruct (String.eqb (permission g) "WRITE"); cbn;
        now rewrite ?orb_false_r, ?orb_true_r.
  - destruct (String.eqb (grantee_uri g) AuthenticatedUsers);
      destruct (String.eqb_spec (permission g) "READ") as [Hp|Hp];
      try (assert (String.eqb (permission g) "WRITE" = false) as ->
             by (rewrite Hp; reflexivity));
      try destruct (String.eqb (permission g) "WRITE"); cbn;
      now rewrite ?orb_false_r, ?orb_true_r.
Qed.

Lemma fold_permStep_flags acl : forall acc,
  let p := fold_left permStep acl acc in
  publicRead p = publicRead acc || grants AllUsers "READ" acl
  /\ publicWrite p = publicWrite acc || grants AllUsers "WRITE" acl
  /\ authenticatedRead p
     = authenticatedRead acc || grants AuthenticatedUsers "READ" acl
  /\ authenticatedWrite p
     = authenticatedWrite acc || grants AuthenticatedUsers "WRITE" acl.
Proof.
  induction acl as [|g acl IH]; intros acc; cbn.
  - now rewrite !orb_false_r.
  - destruct (IH (permStep acc g)) as (H1 & H2 & H3 & H4).
    destruct (permStep_flags acc g) as (G1 & G2 & G3 & G4).
    cbn in *. rewrite H1, H2, H3, H4, G1, G2, G3, G4.
    now rewrite !orb_assoc.
Qed.

Lemma cannedACLOfPerm_table perm :
  cannedACLOfPerm perm
  = cannedACLTable (publicRead perm) (publicWrite perm)
                   (authenticatedRead perm) (authenticatedWrite perm).
Proof.
  unfold cannedACLOfPerm, cannedACLTable.
  destruct (publicRead perm), (publicWrite perm), (authenticatedRead perm),
    (authenticatedWrite perm); reflexivity.
Qed.

(** C8.  When the [?acl] request succeeds and the ACL decoder emits the grant
    list [acl], [getBucketACL] calls back with the canned ACL that the
    reduction table gives for the four flags of [acl]:
    (T,T,F,F) is public-read-write, (T,F,F,F) is public-read, (F,F,T,F) is
    authenticated-read, (F,F,F,F) is private, and every other combination is
    the string unsupported-acl. *)
Theorem getBucketACL_table c bucket w response w' acl :
  isValidBucketName bucket = true ->
  makeRequest c {| method := "GET"; bucketName := Some bucket;
                   objectName := None; query := Some "acl"; headers := [] |}
              EmptyString 200 w = (CbOk response, w') ->
  getAclTransformer response = inr acl ->
  getBucketACL c bucket w
  = (CbOk (cannedACLTable (grants AllUsers "READ" acl)
                          (grants AllUsers "WRITE" acl)
                          (grants AuthenticatedUsers "READ" acl)
                          (grants AuthenticatedUsers "WRITE" acl)), w').
Proof.
  intros Hb Hreq Hacl.
  - unfold getBucketACL. rewrite Hb. cbn [negb]. unfold bind at 1.
    rewrite Hreq. unfold bind, decode. rewrite Hacl. unfold ret.
    rewrite cannedACLOfPerm_table.
    destruct (fold_permStep_flags acl
                {| publicRead := false; publicWrite := false;
                   authenticatedRead := false; authenticatedWrite := false |})
      as (H1 & H2 & H3 & H4).
    cbn in H1, H2, H3, H4. unfold permOfGrants.
    now rewrite H1, H2, H3, H4.
Qed.

(** *** Download to a file *)

Lemma getPartialObject_files c bucket object offset length cb w o w' :
  getPartialObject c bucket object offset length cb w = (o, w') ->
  files w' = files w.
Proof.
  unfold getPartialObject.
  destruct (negb (isValidBucketName bucket)); [now intros [= <- <-]|].
  destruct (negb (isValidObjectName object)); [now intros [= <- <-]|].
  destruct (negb (bool_decide (is_Some cb))); [now intros [= <- <-]|].
  intros Hrun. exact (proj1 (makeRequest_trace _ _ _ _ _ _ _ Hrun)).
Qed.

Lemma partFileName_fresh filePath etag : partFileName filePath etag <> filePath.
Proof.
  unfold partFileName. intros E.
  apply (f_equal String.length) in E.
  rewrite length_append, append_cons in E. cbn in E. lia.
Qed.

Lemma fGetDownload_skip c bucket object partFile objStat cb w content :
  files w !! partFile = Some content ->
  size objStat = Some (fileSize content) ->
  fGetDownload c bucket object partFile objStat cb w = (CbOk AlreadyComplete, w).
Proof.
  intros Hf Hs. unfold fGetDownload, fs_stat. rewrite Hf.
  now rewrite bool_decide_eq_true_2.
Qed.

Lemma fGetDownload_resume c bucket object partFile objStat w content n
    response w2 :
  files w !! partFile = Some content ->
  size objStat = Some n ->
  fileSize content <> n ->
  getPartialObject c bucket object (fileSize content) 0 (Some tt) w
  = (CbOk response, w2) ->
  fileSize (content +:+ resp_body response) = n ->
  fGetDownload c bucket object partFile objStat (Some tt) w
  = (CbOk Downloaded,
     withFiles (<[partFile := content +:+ resp_body response]> (files w2)) w2).
Proof.
  intros Hf Hs Hne Hget Hn. unfold fGetDownload, fs_stat. rewrite Hf.
  rewrite bool_decide_eq_false_2 by (rewrite Hs; congruence).
  unfold bind at 1. unfold createWriteStream. rewrite Hf.
  unfold bind at 1. rewrite Hget.
  pose proof (getPartialObject_files _ _ _ _ _ _ _ _ _ Hget) as Hfiles.
  unfold bind at 1. unfold pipeToFile. rewrite Hfiles, Hf. unfold writeFile.
  unfold bind at 1. unfold fs_stat. cbn [files withFiles].
  rewrite lookup_insert_eq.
  rewrite bool_decide_eq_true_2 by (rewrite Hs; congruence).
  now rewrite Hfiles.
Qed.

Lemma fGetDownload_fresh c bucket object partFile objStat w n response w2 :
  files w !! partFile = None ->
  size objStat = Some n ->
  getPartialObject c bucket object 0 0 (Some tt)
    (withFiles (<[partFile := EmptyString]> (files w)) w)
  = (CbOk response, w2) ->
  fileSize (resp_body response) = n ->
  fGetDownload c bucket object partFile objStat (Some tt) w
  = (CbOk Downloaded,
     withFiles (<[partFile := resp_body response]> (files w2)) w2).
Proof.
  intros Hf Hs Hget Hn. unfold fGetDownload, fs_stat. rewrite Hf.
  unfold bind at 1. unfold createWriteStream. rewrite Hf. unfold writeFile.
  unfold bind at 1. rewrite Hget.
  pose proof (getPartialObject_files _ _ _ _ _ _ _ _ _ Hget) as Hfiles.
  cbn [files withFiles] in Hfiles.
  unfold bind at 1. unfold pipeToFile. rewrite Hfiles, lookup_insert_eq.
  unfold writeFile.
  unfold bind at 1. unfold fs_stat. cbn [files withFiles].
  rewrite lookup_insert_eq, append_nil_l.
  rewrite bool_decide_eq_true_2 by (rewrite Hs; congruence).
  now rewrite Hfiles.
Qed.

Lemma fs_rename_moves partFile filePath data w :
  files w !! partFile = Some data ->
  partFile <> filePath ->
  exists w',
    fs_rename (Some partFile) filePath w = (CbOk tt, w')
    /\ files w' !! filePath = Some data
    /\ files w' !! partFile = None
    /\ wire w' = wire w
    /\ regionMap w' = regionMap w.
Proof.
  intros Hf Hne. unfold fs_rename. rewrite Hf. eexists. split; [reflexivity|].
  cbn [files withFiles wire regionMap].
  rewrite lookup_insert_eq, lookup_insert_ne by congruence.
  now rewrite lookup_delete_eq.
Qed.

(** C6 (as amended).  Once [statObject] has answered with the object's size
    [n] and ETag, [fGetObject(bucket, object, filePath)] works on the part
    file [{filePath}.{etag}.part.minio].
    (a) If the part file exists with size [n], nothing is downloaded and the
        part file is renamed to [filePath].
    (b) If it exists with another size and [filePath] has a directory part
        that [mkdirp] provides, the object is asked for from the offset of
        that size on (an open-ended range when the offset is positive), the
        bytes received are appended, and when the size is then [n] the part
        file is renamed to [filePath].
    (c) If it does not exist, under the same condition on [filePath] the
        whole object is asked for and written, and when the size is then [n]
        the part file is renamed to [filePath]. *)
Theorem fGetObject_part_file c bucket object filePath w objStat w1 n :
  isValidBucketName bucket = true ->
  isValidObjectName object = true ->
  statObject c bucket object w = (CbOk objStat, w1) ->
  size objStat = Some n ->
  let partFile := partFileName filePath (etag objStat) in
  partFile = filePath +:+ "." +:+ etag objStat +:+ ".part.minio"
  /\ (forall content,
        files w1 !! partFile = Some content ->
        fileSize content = n ->
        dirname filePath = "." \/ mkdirp (dirname filePath) = None ->
        exists w',
          fGetObject c bucket object filePath w = (CbOk tt, w')
          /\ files w' !! filePath = Some content
          /\ files w' !! partFile = None
          /\ wire w' = wire w1)
  /\ (forall content response w2,
        files w1 !! partFile = Some content ->
        fileSize content <> n ->
        dirname filePath <> "." ->
        mkdirp (dirname filePath) = None ->
        getPartialObject c bucket object (fileSize content) 0 (Some tt) w1
        = (CbOk response, w2) ->
        fileSize (content +:+ resp_body response) = n ->
        (0 < fileSize content ->
         getPartialObject c bucket object (fileSize content) 0 (Some tt)
         = makeRequest c
             {| method := "GET"; bucketName := Some bucket;
                objectName := Some object; query := None;
                headers := [("range", "bytes=" +:+ pretty (fileSize content)
                                      +:+ "-")] |}
             EmptyString 206)
        /\ exists w',
             fGetObject c bucket object filePath w = (CbOk tt, w')
             /\ files w' !! filePath = Some (content +:+ resp_body response)
             /\ files w' !! partFile = None
             /\ wire w' = wire w2)
  /\ (forall response w2,
        files w1 !! partFile = None ->
        dirname filePath <> "." ->
        mkdirp (dirname filePath) = None ->
        getPartialObject c bucket object 0 0 (Some tt)
          (withFiles (<[partFile := EmptyString]> (files w1)) w1)
        = (CbOk response, w2) ->
        fileSize (resp_body response) = n ->
        getPartialObject c bucket object 0 0 (Some tt)
        = makeRequest c
            {| method := "GET"; bucketName := Some bucket;
               objectName := Some object; query := None; headers := [] |}
            EmptyString 200
        /\ exists w',
             fGetObject c bucket object filePath w = (CbOk tt, w')
             /\ files w' !! filePath = Some (resp_body response)
             /\ files w' !! partFile = None
             /\ wire w' = wire w2).
Proof.
  intros Hb Ho Hstat Hsize partFile.
  pose proof (partFileName_fresh filePath (etag objStat)) as Hfresh.
  fold partFile in Hfresh.
  split; [reflexivity|]. split; [|split].
  - intros content Hf Hn Hdir.
    assert (exists cb,
              (if String.eqb (dirname filePath) "." then Some None
               else match mkdirp (dirname filePath) with
                    | None => Some (Some tt)
                    | Some _ => None
                    end) = Some cb) as [cb Hcb].
    { destruct Hdir as [-> | ->]; [eexists; reflexivity|].
      destruct (String.eqb (dirname filePath) "."); eexists; reflexivity. }
    unfold fGetObject. rewrite Hb, Ho. cbn [negb]. rewrite Hstat.
    cbv zeta. rewrite Hcb. fold partFile.
    rewrite (fGetDownload_skip c bucket object partFile objStat cb w1 content Hf)
      by congruence.
    destruct (fs_rename_moves partFile filePath content w1 Hf Hfresh)
      as (w' & Hr & F1 & F2 & F3 & _).
    exists w'. auto.
  - intros content response w2 Hf Hne Hdir Hmk Hget Hn. split.
    + intros Hpos. unfold getPartialObject. rewrite Hb, Ho. cbn [negb].
      rewrite bool_decide_eq_true_2 by (eexists; reflexivity). cbn [negb].
      rewrite rangeOf_open by assumption.
      unfold rangeHeaders, expectedStatusOf. reflexivity.
    + unfold fGetObject. rewrite Hb, Ho. cbn [negb]. rewrite Hstat.
      cbv zeta.
      apply String.eqb_neq in Hdir. rewrite Hdir, Hmk. fold partFile.
      rewrite (fGetDownload_resume c bucket object partFile objStat w1 content n
                 response w2 Hf Hsize Hne Hget Hn).
      destruct (fs_rename_moves partFile filePath
                  (content +:+ resp_body response)
                  (withFiles (<[partFile := content +:+ resp_body response]>
                                (files w2)) w2)
                  ltac:(apply lookup_insert_eq) Hfresh)
        as (w' & Hr & F1 & F2 & F3 & _).
      exists w'. auto.
  - intros response w2 Hf Hdir Hmk Hget Hn. split.
    + unfold getPartialObject. rewrite Hb, Ho. cbn [negb].
      rewrite bool_decide_eq_true_2 by (eexists; reflexivity). reflexivity.
    + unfold fGetObject. rewrite Hb, Ho. cbn [negb]. rewrite Hstat.
      cbv zeta.
      apply String.eqb_neq in Hdir. rewrite Hdir, Hmk. fold partFile.
      rewrite (fGetDownload_fresh c bucket object partFile objStat w1 n
                 response w2 Hf Hsize Hget Hn).
      destruct (fs_rename_moves partFile filePath (resp_body response)
                  (withFiles (<[partFile := resp_body response]> (files w2)) w2)
                  ltac:(apply lookup_insert_eq) Hfresh)
        as (w' & Hr & F1 & F2 & F3 & _).
      exists w'. auto.
Qed.

(** *** Upload entry points *)

Lemma makeRequestStream_requests c opts stream sha expected w o w' :
  makeRequestStream c opts stream sha expected w = (o, w') ->
  files w' = files w
  /\ exists new,
       wire w' = wire w ++ new
       /\ Forall (fun r =>
                    (exists w0,
                       r = locationLookup c (js_string (bucketName opts)) w0)
                    \/ (exists region w0,
                          r = signedRequest c (getRequestOptions c opts)
                                            stream sha region w0)) new.
Proof.
  unfold makeRequestStream.
  destruct (sha256sumRejected c sha).
  { intros [= <- <-]. split; [reflexivity|]. exists []. split; [|constructor].
    now rewrite app_nil_r. }
  unfold bind at 1.
  destruct (resolveRegion c opts w) as [[e|e|region] w1] eqn:Hres.
  1,2: intros [= <- <-].
  all: assert (files w1 = files w
               /\ (wire w1 = wire w
                   \/ wire w1 = wire w
                                ++ [locationLookup c (js_string (bucketName opts)) w]))
         as [Hf Hw]
         by (unfold resolveRegion in Hres;
             destruct (negb (truthy_opt (bucketName opts)));
             [injection Hres as _ <-; auto
             |exact (getBucketRegion_trace _ _ _ _ _ Hres)]).
  1,2: split; [exact Hf|]; destruct Hw as [Hw|Hw]; rewrite Hw;
       [exists []; split; [now rewrite app_nil_r|constructor]
       |eexists; split; [reflexivity|];
        constructor; [left; eexists; reflexivity|constructor]].
  rewrite _makeRequest_eq. cbv zeta.
  set (req := signedRequest c (getRequestOptions c opts) stream sha region w1).
  intros Hrun.
  assert (files w' = files w1 /\ wire w' = wire w1 ++ [req]) as [Hf' Hw'].
  { destruct (transport (wire w1) req) as [e|response].
    - injection Hrun as _ <-. auto.
    - destruct (expected =? statusCode response); injection Hrun as _ <-; auto. }
  split; [congruence|].
  destruct Hw as [Hw|Hw]; rewrite Hw', Hw.
  - exists [req]. split; [reflexivity|].
    constructor; [right; eexists _, _; reflexivity|constructor].
  - exists ([locationLookup c (js_string (bucketName opts)) w] ++ [req]).
    split; [now rewrite app_assoc|].
    constructor; [left; eexists; reflexivity|].
    constructor; [right; eexists _, _; reflexivity|constructor].
Qed.

Lemma simpleUploader_request c bucket object contentType stream sha md5 region w0 :
  isSinglePut c bucket object stream md5 sha
    (signedRequest c
       (getRequestOptions c
          {| method := "PUT"; bucketName := Some bucket;
             objectName := Some object; query := Some EmptyString;
             headers := [("Content-Length", pretty (fileSize stream));
                         ("Content-Type", contentType);
                         ("Content-MD5", md5)] |})
       stream sha region w0).
Proof.
  set (spec := {| method := "PUT"; bucketName := Some bucket;
                  objectName := Some object; query := Some EmptyString;
                  headers := [("Content-Length", pretty (fileSize stream));
                              ("Content-Type", contentType);
                              ("Content-MD5", md5)] |}).
  destruct (signedRequest_shape c (getRequestOptions c spec) stream sha region w0)
    as (S1 & _ & S3 & S4).
  destruct (getRequestOptions_headers c spec) as [h Hh].
  assert (lowerHeaders (headers spec) [("host", h)]
          = [("host", h); ("content-length", pretty (fileSize stream));
             ("content-type", contentType); ("content-md5", md5)]) as Hl
    by reflexivity.
  rewrite Hl in Hh.
  unfold isSinglePut. rewrite S1, S3, S4, getRequestOptions_method.
  split; [reflexivity|]. split; [reflexivity|].
  split.
  { unfold getRequestOptions, spec.
    cbn [objectName bucketName query truthy_opt truthy js_string].
    destruct (negb (virtualHostStyle c) || negb (truthy bucket));
      destruct (truthy (uriResourceEscape object)); reflexivity. }
  unfold signedRequest. cbn [options].
  destruct (anonymous c).
  - rewrite Hh. repeat split; try reflexivity. discriminate.
  - unfold stamp. cbn [ro_headers]. rewrite Hh. repeat split; reflexivity.
Qed.

(** The single PUT path: whatever happens, the only requests are the region
    lookup and the PUT of the whole payload with its digests, and the call
    does not end in the multipart engine. *)
Lemma simpleUploader_trace c bucket object contentType stream sha md5 w o w' :
  simpleUploader c bucket object contentType stream (fileSize stream)
                 (Some sha) md5 w = (o, w') ->
  o <> CbOk EnterMultipart
  /\ files w' = files w
  /\ exists new,
       wire w' = wire w ++ new
       /\ Forall (fun r => isLookup bucket r
                           \/ isSinglePut c bucket object stream md5 sha r) new.
Proof.
  unfold simpleUploader.
  destruct (isValidBucketName bucket); cbn [negb].
  2: { intros [= <- <-]. split; [discriminate|]. split; [reflexivity|].
       exists []. split; [now rewrite app_nil_r|constructor]. }
  destruct (isValidObjectName object); cbn [negb].
  2: { intros [= <- <-]. split; [discriminate|]. split; [reflexivity|].
       exists []. split; [now rewrite app_nil_r|constructor]. }
  unfold bind.
  destruct (makeRequestStream c _ stream sha 200 w) as [[e|e|response] w1] eqn:Hrun;
    intros [= <- <-];
    destruct (makeRequestStream_requests _ _ _ _ _ _ _ _ Hrun)
      as (Hf & new & Hw & Hall);
    (split; [discriminate|]); (split; [exact Hf|]);
    exists new; (split; [exact Hw|]);
    (eapply Forall_impl; [exact Hall|]);
    intros r [[w0 ->]|(region & w0 & ->)];
    [left; apply locationLookup_isLookup|right; apply simpleUploader_request
    |left; apply locationLookup_isLookup|right; apply simpleUploader_request
    |left; apply locationLookup_isLookup|right; apply simpleUploader_request].
Qed.

Lemma putObject_path c bucket object stream size contentType w :
  isValidBucketName bucket = true ->
  isValidObjectName object = true ->
  0 <= size ->
  putObject c bucket object stream size contentType w
  = if size <=? minimumPartSize c
    then simpleUploader c bucket object (defaultContentType contentType) stream
           (fileSize stream)
           (Some (if anonymous c then EmptyString else sha256hex stream))
           (md5base64 stream) w
    else (CbOk EnterMultipart, w).
Proof.
  intros Hb Ho Hs. unfold putObject. rewrite Hb, Ho. cbn [negb].
  destruct (Z.ltb_spec size 0) as [E|E]; [lia|].
  destruct (size <=? minimumPartSize c); reflexivity.
Qed.

Lemma fPutObject_path c bucket object filePath contentType content w :
  isValidBucketName bucket = true ->
  isValidObjectName object = true ->
  files w !! filePath = Some content ->
  fileSize content <= maxObjectSize c ->
  fPutObject c bucket object filePath contentType w
  = if fileSize content <? minimumPartSize c
    then match getHashSummer (anonymous c) content with
         | inl e => (CbError e, w)
         | inr data =>
             simpleUploader c bucket object (defaultContentType contentType)
               content (fileSize content) (snd data) (fst data) w
         end
    else (CbOk EnterMultipart, w).
Proof.
  intros Hb Ho Hf Hmax. unfold fPutObject. rewrite Hb, Ho. cbn [negb].
  unfold bind at 1. unfold fs_stat. rewrite Hf.
  destruct (Z.gtb_spec (fileSize content) (maxObjectSize c)) as [E|E]; [lia|].
  destruct (fileSize content <? minimumPartSize c); [|reflexivity].
  unfold bind at 1. unfold readFile. rewrite Hf.
  unfold bind, decode.
  destruct (getHashSummer (anonymous c) content); reflexivity.
Qed.

(** The two entry points choose their path by different comparisons:
    [putObject] takes the single PUT when [size <= minimumPartSize],
    [fPutObject] when [size < minimumPartSize]. *)
Lemma upload_path_selection c bucket object filePath contentType content w :
  isValidBucketName bucket = true ->
  isValidObjectName object = true ->
  files w !! filePath = Some content ->
  fileSize content <= maxObjectSize c ->
  (fst (putObject c bucket object content (fileSize content) contentType w)
   = CbOk EnterMultipart
   <-> minimumPartSize c < fileSize content)
  /\ (fst (fPutObject c bucket object filePath contentType w)
      = CbOk EnterMultipart
      <-> minimumPartSize c <= fileSize content).
Proof.
  intros Hb Ho Hf Hmax.
  assert (0 <= fileSize content) as Hpos by (unfold fileSize; lia).
  rewrite (putObject_path c bucket object content _ contentType w Hb Ho Hpos).
  rewrite (fPutObject_path c bucket object filePath contentType content w
             Hb Ho Hf Hmax).
  split.
  - destruct (Z.leb_spec (fileSize content) (minimumPartSize c)) as [E|E].
    + split; [|lia]. intros Hm.
      destruct (simpleUploader c bucket object _ content _ _ _ w) as [o w'] eqn:Hu.
      destruct (simpleUploader_trace _ _ _ _ _ _ _ _ _ _ Hu) as (Hn & _).
      cbn in Hm. contradiction.
    + split; [intros _; exact E|reflexivity].
  - destruct (Z.ltb_spec (fileSize content) (minimumPartSize c)) as [E|E].
    + split; [|lia]. intros Hm.
      destruct (getHashSummer (anonymous c) content) as [e|[md5 [sha|]]];
        [discriminate Hm| |].
      * cbn [fst snd] in Hm.
        destruct (simpleUploader c bucket object _ content _ _ _ w)
          as [o w'] eqn:Hu.
        destruct (simpleUploader_trace _ _ _ _ _ _ _ _ _ _ Hu) as (Hn & _).
        cbn in Hm. contradiction.
      * cbn [fst snd] in Hm. unfold simpleUploader in Hm.
        rewrite Hb, Ho in Hm. discriminate Hm.
    + split; [intros _; exact E|reflexivity].
Qed.

(** C1 (the claim fails on the code).  For a file of exactly
    [minimumPartSize] = 5 MiB bytes, [fPutObject] sends nothing by itself and
    passes control to the multipart engine, while [putObject] with the same
    bytes and the same size takes the single PUT: wherever it ends, it is not
    in the multipart engine, and its only requests are the region lookup and
    the PUT of the whole payload with the digests of that payload. *)
Theorem fPutObject_at_minimumPartSize p c bucket object filePath contentType
    content w :
  newClient p = inr c ->
  isValidBucketName bucket = true ->
  isValidObjectName object = true ->
  files w !! filePath = Some content ->
  fileSize content = minimumPartSize c ->
  minimumPartSize c = 5 * 1024 * 1024
  /\ fPutObject c bucket object filePath contentType w = (CbOk EnterMultipart, w)
  /\ forall o w',
       putObject c bucket object content (fileSize content) contentType w
       = (o, w') ->
       o <> CbOk EnterMultipart
       /\ exists new,
            wire w' = wire w ++ new
            /\ Forall (fun r =>
                 isLookup bucket r
                 \/ isSinglePut c bucket object content (md5base64 content)
                      (if anonymous c then EmptyString else sha256hex content)
                      r) new.
Proof.
  intros Hc Hb Ho Hf Hsize.
  destruct (newClient_sizes p c Hc) as (Hmin & _ & Hobj).
  split; [exact Hmin|]. split.
  - rewrite (fPutObject_path c bucket object filePath contentType content w
               Hb Ho Hf ltac:(lia)).
    destruct (Z.ltb_spec (fileSize content) (minimumPartSize c)) as [E|E];
      [lia|reflexivity].
  - intros o w'.
    rewrite (putObject_path c bucket object content (fileSize content)
               contentType w Hb Ho ltac:(lia)).
    destruct (Z.leb_spec (fileSize content) (minimumPartSize c)) as [E|E];
      [|lia].
    intros Hu.
    destruct (simpleUploader_trace _ _ _ _ _ _ _ _ _ _ Hu) as (Hn & _ & Hw).
    split; assumption.
Qed.

(** *** POST policy *)

Lemma applySetter_bucket s p p' :
  isSetBucket s = false ->
  applySetter s p = inr p' ->
  formData p' !! "bucket" = formData p !! "bucket".
Proof.
  intros Hs. destruct s as [d|o|x|b|t|lo hi]; cbn in *; try discriminate.
  - unfold setExpires. destruct d; [|discriminate]. now intros [= <-].
  - unfold setKey. destruct (negb (isValidObjectName o)); [discriminate|].
    intros [= <-]. cbn. now rewrite lookup_insert_ne.
  - unfold setKeyStartsWith. destruct (negb (isValidPrefix x)); [discriminate|].
    intros [= <-]. cbn. now rewrite lookup_insert_ne.
  - unfold setContentType. destruct (negb (truthy t)); [discriminate|].
    intros [= <-]. cbn. now rewrite lookup_insert_ne.
  - unfold setContentLength.
    destruct (lo >? hi); [discriminate|].
    destruct (lo <? 0); [discriminate|].
    destruct (hi <? 0); [discriminate|]. now intros [= <-].
Qed.

Lemma afterCalls_bucket calls : forall p,
  forallb (fun s => negb (isSetBucket s)) calls = true ->
  formData (afterCalls calls p) !! "bucket" = formData p !! "bucket".
Proof.
  unfold afterCalls.
  induction calls as [|s calls IH]; intros p Hall; cbn; [reflexivity|].
  cbn in Hall. apply andb_true_iff in Hall as [Hs Hrest].
  apply negb_true_iff in Hs.
  rewrite (IH _ Hrest).
  destruct (applySetter s p) as [e|p'] eqn:E; [reflexivity|].
  exact (applySetter_bucket s p p' Hs E).
Qed.

(** C9 (as amended).  A policy object on which [setBucket] was never called,
    whatever other setters were called on it, is not signed:
    [presignedPostPolicy] throws, sends nothing and hands no form data to
    the callback.  (A policy whose expiration was never set is signed like
    any other.) *)
Theorem presignedPostPolicy_needs_bucket c calls w :
  forallb (fun s => negb (isSetBucket s)) calls = true ->
  exists e,
    presignedPostPolicy c (afterCalls calls newPostPolicy) w = (Thrown e, w)
    /\ (e = AnonymousRequestError \/ e = InvalidBucketNameError).
Proof.
  intros Hall. unfold presignedPostPolicy.
  destruct (anonymous c).
  - exists AnonymousRequestError. auto.
  - rewrite (afterCalls_bucket calls newPostPolicy Hall).
    cbn. exists InvalidBucketNameError. auto.
Qed.

(** A request that called back without error: the wire holds, after the
    lookup if the region was not cached, the request itself. *)
Lemma makeRequestStream_success c opts stream sha expected w response w' :
  makeRequestStream c opts stream sha expected w = (CbOk response, w') ->
  files w' = files w
  /\ statusCode response = expected
  /\ exists pre region w1,
       wire w' = wire w ++ pre
                 ++ [signedRequest c (getRequestOptions c opts) stream sha region w1]
       /\ (pre = [] \/ pre = [locationLookup c (js_string (bucketName opts)) w]).
Proof.
  unfold makeRequestStream.
  destruct (sha256sumRejected c sha); [discriminate|].
  unfold bind at 1.
  destruct (resolveRegion c opts w) as [[e|e|region] w1] eqn:Hres;
    [discriminate|discriminate|].
  assert (files w1 = files w
          /\ (wire w1 = wire w
              \/ wire w1 = wire w
                           ++ [locationLookup c (js_string (bucketName opts)) w]))
    as [Hf Hw]
    by (unfold resolveRegion in Hres;
        destruct (negb (truthy_opt (bucketName opts)));
        [injection Hres as _ <-; auto
        |exact (getBucketRegion_trace _ _ _ _ _ Hres)]).
  rewrite _makeRequest_eq. cbv zeta.
  set (req := signedRequest c (getRequestOptions c opts) stream sha region w1).
  destruct (transport (wire w1) req) as [e|resp]; [discriminate|].
  destruct (expected =? statusCode resp) eqn:Hst; [|discriminate].
  intros [= <- <-]. cbn [files wire sent].
  split; [exact Hf|]. split; [symmetry; now apply Z.eqb_eq|].
  destruct Hw as [Hw|Hw]; rewrite Hw.
  - exists [], region, w1. split; [reflexivity|now left].
  - eexists _, region, w1. split; [now rewrite <- app_assoc|now right].
Qed.

(** *** Region resolution and cache invalidation *)

Lemma truthy_nonempty (s : string) : s <> EmptyString -> truthy s = true.
Proof. destruct s; [congruence|reflexivity]. Qed.

Lemma resolveRegion_bucket c opts b w :
  bucketName opts = Some b -> b <> EmptyString ->
  resolveRegion c opts w = getBucketRegion c b w.
Proof.
  intros Ho Hne. unfold resolveRegion. rewrite Ho.
  cbn [truthy_opt js_string]. now rewrite (truthy_nonempty b Hne).
Qed.

Lemma signedRequest_authorization c ro stream sha region w :
  anonymous c = false ->
  exists ro',
    obj_get "authorization"
            (ro_headers (options (signedRequest c ro stream sha region w)))
    = Some (signV4 ro' (accessKey (params c)) (secretKey (params c)) region)
    /\ ro_method ro' = ro_method ro /\ ro_host ro' = ro_host ro
    /\ ro_path ro' = ro_path ro.
Proof.
  intros Ha. unfold signedRequest. cbn [options]. rewrite Ha.
  destruct (stamp_authorization c ro (length (wire w)) sha region)
    as (ro' & H1 & H2 & H3 & H4 & _).
  exists ro'. auto.
Qed.

(** C4.  Region resolution, and where it departs from the claim.
    (a) A request spec without bucket name resolves to [us-east-1] and leaves
        the world as it is: no lookup goes on the wire, and the request is
        stamped and signed for [us-east-1].
    (b) A bucket with a region of its own in the cache resolves to that
        region, again with no request.
    (c) When a read of the cache finds nothing for the bucket, one request
        goes on the wire: a GET of [/{bucket}?location] on the endpoint host
        itself (path style), with an empty body and, unless the client is
        anonymous, an authorization computed by [signV4] for region
        [us-east-1].  A socket error, a status other than 200 or a decoder
        error is handed to the caller and the cache stays as it was; on
        success the region is the decoded one, [us-east-1] when the decoder
        yields nothing (an empty or absent body), and only then is it
        inserted into the cache.
    (d) For a request spec with a bucket, the resolution is
        [getBucketRegion] of that bucket: its error is the error of the
        request, which then sends nothing more, and its region is the one
        the request proper is signed for.
    (e) The cache is a plain object: for a bucket without entry whose name
        is a key that every object inherits, such as [constructor], the read
        finds the inherited function, and [getBucketRegion] hands that to
        its caller as the region, with no lookup and no entry made. *)
Theorem region_resolution c :
  (forall opts w,
     truthy_opt (bucketName opts) = false ->
     resolveRegion c opts w = (CbOk "us-east-1", w)
     /\ forall stream sha expected,
          sha256sumRejected c sha = false ->
          makeRequestStream c opts stream sha expected w
          = _makeRequest c opts (getRequestOptions c opts) stream sha expected
                         "us-east-1" w)
  /\ (forall b r w,
        isValidBucketName b = true ->
        regionMap w !! b = Some r -> r <> EmptyString ->
        getBucketRegion c b w = (CbOk r, w))
  /\ (forall b w,
        isValidBucketName b = true ->
        cachedRegion (regionMap w) b = None ->
        let req := locationLookup c b w in
        (ro_method (options req) = "GET"
         /\ ro_host (options req) = host (params c)
         /\ ro_path (options req) = "/" +:+ b +:+ "?location"
         /\ payload req = EmptyString
         /\ (anonymous c = false ->
             exists ro,
               obj_get "authorization" (ro_headers (options req))
               = Some (signV4 ro (accessKey (params c)) (secretKey (params c))
                              "us-east-1")
               /\ ro_path ro = "/" +:+ b +:+ "?location"
               /\ ro_host ro = host (params c))
         /\ (anonymous c = true -> ro_headers (options req) = []))
        /\ exists o w',
            getBucketRegion c b w = (o, w')
            /\ wire w' = wire w ++ [req]
            /\ match transport (wire w) req with
               | inl e => o = CbError e /\ regionMap w' = regionMap w
               | inr response =>
                   if statusCode response =? 200 then
                     match getBucketRegionTransformer response with
                     | inl e => o = CbError e /\ regionMap w' = regionMap w
                     | inr data =>
                         exists region,
                           o = CbOk region
                           /\ regionMap w' = <[b := region]> (regionMap w)
                           /\ region = regionOfData data
                           /\ region <> EmptyString
                           /\ (Forall (fun d => truthy d = false) data ->
                               region = "us-east-1")
                     end
                   else o = CbError (getErrorTransformer response)
                        /\ regionMap w' = regionMap w
               end)
  /\ (forall opts b stream sha expected w,
        bucketName opts = Some b ->
        b <> EmptyString ->
        sha256sumRejected c sha = false ->
        resolveRegion c opts w = getBucketRegion c b w
        /\ match getBucketRegion c b w with
           | (CbOk region, w1) =>
               let req := signedRequest c (getRequestOptions c opts) stream sha
                                        region w1 in
               (exists o w',
                  makeRequestStream c opts stream sha expected w = (o, w')
                  /\ wire w' = wire w1 ++ [req])
               /\ (anonymous c = false ->
                   exists ro,
                     obj_get "authorization" (ro_headers (options req))
                     = Some (signV4 ro (accessKey (params c))
                                    (secretKey (params c)) region)
                     /\ ro_path ro = ro_path (getRequestOptions c opts))
           | (CbError e, w1) =>
               makeRequestStream c opts stream sha expected w = (CbError e, w1)
           | (Thrown e, w1) =>
               makeRequestStream c opts stream sha expected w = (Thrown e, w1)
           end)
  /\ (forall b w,
        isValidBucketName b = true ->
        inheritedKey b = true ->
        regionMap w !! b = None ->
        cachedRegion (regionMap w) b = Some (inheritedValue b)
        /\ getBucketRegion c b w = (CbOk (inheritedValue b), w)).
Proof.
  split; [|split; [|split; [|split]]].
  - intros opts w Hb.
    assert (resolveRegion c opts w = (CbOk "us-east-1", w)) as Hres
      by (unfold resolveRegion; now rewrite Hb).
    split; [exact Hres|]. intros stream sha expected Hsha.
    unfold makeRequestStream. rewrite Hsha. unfold bind. now rewrite Hres.
  - intros b r w Hb Hm Hr.
    exact (getBucketRegion_hit c b w r Hb
             (cachedRegion_present _ _ _ Hm (truthy_nonempty r Hr))).
  - intros b w Hb Hc req. split.
    + unfold req, locationLookup, locationRequest. cbn [options payload].
      destruct (anonymous c) eqn:Ha.
      * cbn. repeat split; try reflexivity. discriminate.
      * destruct (stamp_shape c
                    {| ro_method := "GET"; ro_host := host (params c);
                       ro_port := Some (port (params c));
                       ro_protocol := protocol (params c);
                       ro_path := "/" +:+ b +:+ "?location";
                       ro_headers :=
                         [("host", host_header (protocol (params c))
                                               (host (params c))
                                               (Some (port (params c))))] |}
                    (length (wire w)) (sha256hex EmptyString) "us-east-1")
          as (S1 & S2 & _ & _ & S5).
        cbn [ro_method ro_host ro_port ro_protocol ro_path ro_headers].
        split; [exact S1|]. split; [exact S2|]. split; [exact S5|].
        split; [reflexivity|]. split; [|discriminate].
        intros _.
        destruct (stamp_authorization c
                    {| ro_method := "GET"; ro_host := host (params c);
                       ro_port := Some (port (params c));
                       ro_protocol := protocol (params c);
                       ro_path := "/" +:+ b +:+ "?location";
                       ro_headers :=
                         [("host", host_header (protocol (params c))
                                               (host (params c))
                                               (Some (port (params c))))] |}
                    (length (wire w)) (sha256hex EmptyString) "us-east-1")
          as (ro & A1 & _ & A3 & A4 & _).
        exists ro. split; [exact A1|]. split; [exact A4|exact A3].
    + rewrite (getBucketRegion_miss c b w Hb Hc). fold req. cbv zeta.
      destruct (transport (wire w) req) as [e|response].
      * eexists _, _. split; [reflexivity|]. split; [reflexivity|].
        split; reflexivity.
      * destruct (statusCode response =? 200).
        -- destruct (getBucketRegionTransformer response) as [e|data].
           ++ eexists _, _. split; [reflexivity|]. split; [reflexivity|].
              split; reflexivity.
           ++ eexists _, _. split; [reflexivity|]. split; [reflexivity|].
              exists (regionOfData data). split; [reflexivity|].
              split; [reflexivity|]. split; [reflexivity|].
              split; [|apply regionOfData_default].
              pose proof (regionOfData_truthy data) as Ht.
              intros E. rewrite E in Ht. discriminate.
        -- eexists _, _. split; [reflexivity|]. split; [reflexivity|].
           split; reflexivity.
  - intros opts b stream sha expected w Ho Hne Hsha.
    pose proof (resolveRegion_bucket c opts b w Ho Hne) as Hres.
    split; [exact Hres|].
    unfold makeRequestStream. rewrite Hsha. unfold bind. rewrite Hres.
    destruct (getBucketRegion c b w) as [[e|e|region] w1];
      [reflexivity|reflexivity|].
    cbv zeta. split.
    + rewrite _makeRequest_eq. cbv zeta.
      destruct (transport _ _) as [e|response];
        [eexists _, _; split; reflexivity|].
      destruct (expected =? statusCode response);
        eexists _, _; split; reflexivity.
    + intros Ha.
      destruct (signedRequest_authorization c (getRequestOptions c opts) stream
                  sha region w1 Ha) as (ro & H1 & _ & _ & H4).
      exists ro. split; assumption.
  - intros b w Hb Hin Hm.
    pose proof (cachedRegion_inherited _ _ Hm Hin) as Hc.
    split; [exact Hc|]. exact (getBucketRegion_hit c b w _ Hb Hc).
Qed.

(** The path of a request for a bucket as such. *)
Lemma getRequestOptions_bucket c opts b :
  bucketName opts = Some b -> b <> EmptyString ->
  objectName opts = None -> query opts = None ->
  ro_method (getRequestOptions c opts) = method opts
  /\ ro_path (getRequestOptions c opts)
     = if virtualHostStyle c then "/" else "/" +:+ b.
Proof.
  intros Hb Hne Ho Hq. split; [apply getRequestOptions_method|].
  unfold getRequestOptions. rewrite Hb, Ho, Hq.
  cbn [truthy_opt js_string]. rewrite (truthy_nonempty b Hne).
  cbn [negb orb]. rewrite orb_false_r.
  destruct (virtualHostStyle c); reflexivity.
Qed.

(** C3.  Invalidation of the region cache, and where it departs from the
    claim.  For a legal bucket name [b]:
    (a) when the region is resolved, the request goes out and the response
        carries a status other than the expected one, [makeRequestStream]
        calls back with the decoded error in a world from whose region cache
        the entry of [b] has been deleted;
    (b) [removeBucket(b)], once the region is resolved, puts one request on
        the wire, a [DELETE] of the bucket with an empty body, and calls
        back without error exactly when that request is answered with
        status 204; the entry of [b] is then deleted from the cache (as it
        is after any other status); a call of [removeBucket(b)] that calls
        back without error always leaves the cache without entry for [b];
    (c) in a world whose cache has no entry for [b], the next request to [b]
        first puts the [?location] lookup for [b] on the wire, provided the
        name is not a key that every object inherits;
    (d) for a name that is such a key, [constructor] say, a read of the
        cache finds the inherited function whether or not an entry was
        deleted: the region is never looked up, and the next request of an
        anonymous client is the only request that goes on the wire. *)
Theorem region_cache_invalidation c b :
  isValidBucketName b = true ->
  b <> EmptyString ->
  (forall opts stream sha expected w region w1 response,
     bucketName opts = Some b ->
     sha256sumRejected c sha = false ->
     resolveRegion c opts w = (CbOk region, w1) ->
     transport (wire w1)
               (signedRequest c (getRequestOptions c opts) stream sha region w1)
     = inr response ->
     statusCode response <> expected ->
     exists w2,
       makeRequestStream c opts stream sha expected w
       = (CbError (getErrorTransformer response), w2)
       /\ wire w2
          = wire w1 ++ [signedRequest c (getRequestOptions c opts) stream sha
                                      region w1]
       /\ regionMap w2 = delete b (regionMap w1)
       /\ regionMap w2 !! b = None)
  /\ (forall w region w1,
        anonymous c = true \/ String.length (sha256hex EmptyString) = 64%nat ->
        getBucketRegion c b w = (CbOk region, w1) ->
        exists req o w2,
          removeBucket c b w = (o, w2)
          /\ wire w2 = wire w1 ++ [req]
          /\ ro_method (options req) = "DELETE"
          /\ ro_path (options req)
             = (if virtualHostStyle c then "/" else "/" +:+ b)
          /\ payload req = EmptyString
          /\ match transport (wire w1) req with
             | inl e => o = CbError e /\ regionMap w2 = regionMap w1
             | inr response =>
                 (o = if statusCode response =? 204 then CbOk tt
                      else CbError (getErrorTransformer response))
                 /\ regionMap w2 = delete b (regionMap w1)
             end)
  /\ (forall w w2,
        removeBucket c b w = (CbOk tt, w2) -> regionMap w2 !! b = None)
  /\ (forall opts stream sha expected w,
        regionMap w !! b = None ->
        inheritedKey b = false ->
        bucketName opts = Some b ->
        sha256sumRejected c sha = false ->
        exists o w' rest,
          makeRequestStream c opts stream sha expected w = (o, w')
          /\ wire w' = wire w ++ locationLookup c b w :: rest)
  /\ (inheritedKey b = true ->
      forall w,
        regionMap w !! b = None ->
        getBucketRegion c b w = (CbOk (inheritedValue b), w)
        /\ (anonymous c = true ->
            forall opts stream sha expected,
              bucketName opts = Some b ->
              exists o w',
                makeRequestStream c opts stream sha expected w = (o, w')
                /\ wire w'
                   = wire w ++ [{| options := getRequestOptions c opts;
                                   payload := stream |}])).
Proof.
  intros Hb Hne. split; [|split; [|split; [|split]]].
  - intros opts stream sha expected w region w1 response Ho Hsha Hres Htr Hst.
    unfold makeRequestStream. rewrite Hsha. unfold bind. rewrite Hres.
    rewrite _makeRequest_eq. cbv zeta. rewrite Htr.
    destruct (Z.eqb_spec expected (statusCode response)) as [E|E];
      [congruence|].
    eexists. split; [reflexivity|]. split; [reflexivity|].
    rewrite Ho. cbn. split; [reflexivity|apply lookup_delete_eq].
  - intros w region w1 Hsha Hreg.
    set (opts := withContentLength
                   {| method := "DELETE"; bucketName := Some b;
                      objectName := None; query := None; headers := [] |}
                   EmptyString).
    set (sha := if anonymous c then EmptyString else sha256hex EmptyString).
    assert (sha256sumRejected c sha = false) as Hrej.
    { unfold sha256sumRejected, sha. destruct (anonymous c); [reflexivity|].
      destruct Hsha as [Ha | ->]; [discriminate|reflexivity]. }
    destruct (getRequestOptions_bucket c opts b eq_refl Hne eq_refl eq_refl)
      as [Hmeth Hpath].
    destruct (signedRequest_shape c (getRequestOptions c opts) EmptyString sha
                                  region w1) as (S1 & _ & S3 & S4).
    exists (signedRequest c (getRequestOptions c opts) EmptyString sha region w1).
    unfold removeBucket. rewrite Hb. cbn [negb].
    unfold makeRequest. cbv zeta. fold opts. fold sha.
    unfold makeRequestStream. rewrite Hrej. unfold bind at 1.
    rewrite (resolveRegion_bucket c opts b w eq_refl Hne), Hreg.
    rewrite _makeRequest_eq. cbv zeta.
    destruct (transport (wire w1) _) as [e|response].
    + eexists _, _. split; [reflexivity|]. split; [reflexivity|].
      split; [now rewrite S1, Hmeth|]. split; [now rewrite S3, Hpath|].
      split; [exact S4|]. split; reflexivity.
    + destruct (204 =? statusCode response) eqn:E.
      * eexists _, _. split; [reflexivity|]. split; [reflexivity|].
        split; [now rewrite S1, Hmeth|]. split; [now rewrite S3, Hpath|].
        split; [exact S4|].
        rewrite Z.eqb_sym, E. split; reflexivity.
      * eexists _, _. split; [reflexivity|]. split; [reflexivity|].
        split; [now rewrite S1, Hmeth|]. split; [now rewrite S3, Hpath|].
        split; [exact S4|].
        rewrite Z.eqb_sym, E. split; reflexivity.
  - intros w w2. unfold removeBucket. rewrite Hb. cbn [negb].
    destruct (makeRequest c _ EmptyString 204 w) as [[e|e|r] w1];
      [discriminate|discriminate|].
    cbn. intros [= <-]. cbn. apply lookup_delete_eq.
  - intros opts stream sha expected w Hm Hin Ho Hsha.
    unfold makeRequestStream. rewrite Hsha. unfold bind.
    rewrite (resolveRegion_bucket c opts b w Ho Hne).
    rewrite (getBucketRegion_miss c b w Hb (cachedRegion_absent _ _ Hm Hin)).
    cbv zeta.
    destruct (transport (wire w) (locationLookup c b w)) as [e|response].
    + eexists _, _, []. split; reflexivity.
    + destruct (statusCode response =? 200).
      * destruct (getBucketRegionTransformer response) as [e|data].
        -- eexists _, _, []. split; reflexivity.
        -- rewrite _makeRequest_eq. cbv zeta.
           match goal with
           | |- context [transport ?l ?r] => destruct (transport l r) as [e|resp]
           end.
           ++ eexists _, _, [_]. split; [reflexivity|].
              cbn. now rewrite <- app_assoc.
           ++ destruct (expected =? statusCode resp).
              ** eexists _, _, [_]. split; [reflexivity|].
                 cbn. now rewrite <- app_assoc.
              ** eexists _, _, [_]. split; [reflexivity|].
                 cbn. now rewrite <- app_assoc.
      * eexists _, _, []. split; reflexivity.
  - intros Hin w Hm.
    pose proof (getBucketRegion_hit c b w _ Hb
                  (cachedRegion_inherited _ _ Hm Hin)) as Hreg.
    split; [exact Hreg|].
    intros Ha opts stream sha expected Ho.
    unfold makeRequestStream, sha256sumRejected. rewrite Ha.
    rewrite !andb_false_r. cbn [orb]. unfold bind.
    rewrite (resolveRegion_bucket c opts b w Ho Hne), Hreg.
    rewrite _makeRequest_eq. cbv zeta. unfold signedRequest. rewrite Ha.
    destruct (transport _ _) as [e|response];
      [eexists _, _; split; reflexivity|].
    destruct (expected =? statusCode response);
      eexists _, _; split; reflexivity.
Qed.

(** *** Ranged reads on the wire *)


Lemma rangeOf_none : rangeOf 0 0 = EmptyString.
Proof. reflexivity. Qed.



(** *** The parameters of a listing request *)















End Properties.

(** ** Further properties of the request pipeline *)

Section MoreProperties.
Context {env : Env}.

(** *** The constructor *)

(** X1.  What [new Client(params)] fixes: an illegal endpoint or port is
    refused; the port of a client is never 0, an absent port becoming 443
    under TLS and 80 without; the client is anonymous exactly when one of the
    two keys is empty; and a request built for a client on its default port
    names the host without port in its [host] header, while any other port
    is spelled out. *)
Theorem newClient_defaults p :
  (isValidEndpoint (endPoint p) = false ->
   newClient p = inl InvalidEndPointError)
  /\ (isValidEndpoint (endPoint p) = true -> isValidPort (cp_port p) = false ->
      newClient p = inl InvalidArgumentError)
  /\ forall c,
       newClient p = inr c ->
       port (params c) <> 0
       /\ host (params c) = endPoint p
       /\ virtualHostStyle c = isAmazonEndpoint (endPoint p)
       /\ protocol (params c) = (if insecure p then "http:" else "https:")
       /\ port (params c)
          = (if cp_port p =? 0 then if insecure p then 80 else 443
             else cp_port p)
       /\ (anonymous c = true
           <-> cp_accessKey p = EmptyString \/ cp_secretKey p = EmptyString)
       /\ forall opts,
            headers opts = [] ->
            obj_get "host" (ro_headers (getRequestOptions c opts))
            = Some (if port (params c) =? (if insecure p then 80 else 443)
                    then ro_host (getRequestOptions c opts)
                    else ro_host (getRequestOptions c opts) +:+ ":"
                         +:+ pretty (port (params c))).
Proof.
  unfold newClient. split; [|split].
  - now intros ->.
  - now intros -> ->.
  - intros c.
    destruct (isValidEndpoint (endPoint p)); [|discriminate].
    destruct (isValidPort (cp_port p)); [|discriminate]. cbn [negb].
    assert (forall a b : string,
              negb (truthy a) || negb (truthy b) = true
              <-> a = EmptyString \/ b = EmptyString) as Hanon.
    { intros [|x a] [|y b]; cbn; intuition congruence. }
    destruct (insecure p); cbn [negb]; intros [= <-];
      cbn [params port host protocol anonymous virtualHostStyle];
      (split; [destruct (Z.eqb_spec (cp_port p) 0); lia|]);
      (split; [reflexivity|]); (split; [reflexivity|]);
      (split; [reflexivity|]); (split; [reflexivity|]);
      (split; [apply Hanon|]);
      intros opts Hh; unfold getRequestOptions;
      cbn [params port host protocol anonymous virtualHostStyle];
      rewrite Hh;
      destruct (negb (isAmazonEndpoint (endPoint p))
                || negb (truthy_opt (bucketName opts)));
      cbn [ro_headers ro_host lowerHeaders fold_left obj_get];
      rewrite String.eqb_refl; unfold host_header; cbn [String.eqb Ascii.eqb];
      destruct (Z.eqb_spec (cp_port p) 0) as [E|E].
    all: try (cbn; reflexivity).
    all: cbn -[Z.eqb pretty String.append].
    all: destruct (cp_port p =? 0) eqn:E0; [apply Z.eqb_eq in E0; contradiction|].
    all: rewrite ?orb_false_r.
    all: case_bool_decide as H;
      match goal with
      | |- context [Z.eqb ?x ?n] => destruct (Z.eqb_spec x n) as [E2|E2]
      end;
      cbn [negb js_number]; try reflexivity; congruence.
Qed.

(** *** Header keys *)

Lemma lower_ascii_idem a : lower_ascii (lower_ascii a) = lower_ascii a.
Proof. destruct a as [[] [] [] [] [] [] [] []]; reflexivity. Qed.

Lemma toLowerCase_idem s : toLowerCase (toLowerCase s) = toLowerCase s.
Proof.
  induction s as [|a s IH]; cbn; [reflexivity|].
  now rewrite lower_ascii_idem, IH.
Qed.

Lemma obj_set_keys k v o x :
  x ∈ keysOf (obj_set k v o) -> x = k \/ x ∈ keysOf o.
Proof.
  induction o as [|[k' v'] o IH]; cbn.
  - intros [->|[]%elem_of_nil]%elem_of_cons. now left.
  - destruct (String.eqb_spec k k') as [<-|Hne]; cbn.
    + intros [->|H]%elem_of_cons; [now left|]. right. now apply elem_of_cons; right.
    + intros [->|H]%elem_of_cons.
      * right. apply elem_of_cons. now left.
      * destruct (IH H) as [->|H']; [now left|].
        right. apply elem_of_cons. now right.
Qed.

Lemma obj_set_NoDup k v o : NoDup (keysOf o) -> NoDup (keysOf (obj_set k v o)).
Proof.
  induction o as [|[k' v'] o IH]; cbn.
  - intros _. apply NoDup_singleton.
  - destruct (String.eqb_spec k k') as [<-|Hne]; cbn; [auto|].
    intros [Hk Hn]%NoDup_cons. apply NoDup_cons. split; [|now apply IH].
    intros [->|H]%obj_set_keys; [congruence|contradiction].
Qed.

Lemma obj_set_Forall (P : string -> Prop) k v o :
  P k -> Forall P (keysOf o) -> Forall P (keysOf (obj_set k v o)).
Proof.
  intros Hk. induction o as [|[k' v'] o IH]; cbn.
  - intros _. constructor; [exact Hk|constructor].
  - intros [Hk' Ho]%Forall_cons.
    destruct (String.eqb k k'); cbn; constructor; auto.
Qed.

Lemma wellKeyed_set k v o :
  toLowerCase k = k -> wellKeyed o -> wellKeyed (obj_set k v o).
Proof.
  intros Hk [Hn Hl]. split; [now apply obj_set_NoDup|].
  now apply (obj_set_Forall (fun k => toLowerCase k = k)).
Qed.

Lemma wellKeyed_lowerHeaders hs : forall acc,
  wellKeyed acc -> wellKeyed (lowerHeaders hs acc).
Proof.
  unfold lowerHeaders. induction hs as [|[k v] hs IH]; intros acc Ha; cbn;
    [exact Ha|].
  apply IH. apply wellKeyed_set; [apply toLowerCase_idem|exact Ha].
Qed.

Lemma wellKeyed_getRequestOptions c opts :
  wellKeyed (ro_headers (getRequestOptions c opts)).
Proof.
  destruct (getRequestOptions_headers c opts) as [h ->].
  apply wellKeyed_lowerHeaders. split; cbn.
  - apply NoDup_singleton.
  - constructor; [reflexivity|constructor].
Qed.

Lemma wellKeyed_stamp c ro date sha region :
  wellKeyed (ro_headers ro) -> wellKeyed (ro_headers (stamp c ro date sha region)).
Proof.
  intros Hw. unfold stamp. cbn [ro_headers].
  repeat (apply wellKeyed_set; [reflexivity|]). exact Hw.
Qed.

Lemma wellKeyed_locationLookup c b w :
  wellKeyed (ro_headers (options (locationLookup c b w))).
Proof.
  unfold locationLookup, locationRequest. cbn [options].
  destruct (anonymous c).
  - split; cbn; constructor.
  - apply wellKeyed_stamp. split; cbn.
    + apply NoDup_singleton.
    + constructor; [reflexivity|constructor].
Qed.

(** X2.  Whatever headers the caller of [makeRequestStream] supplies, in
    whatever case, every request the call puts on the wire has header keys
    that are lower-case and pairwise distinct: headers that differ only in
    case collapse into one. *)
Theorem wire_header_keys c opts stream sha expected w o w' :
  makeRequestStream c opts stream sha expected w = (o, w') ->
  exists new,
    wire w' = wire w ++ new
    /\ Forall (fun r =>
                 NoDup (map fst (ro_headers (options r)))
                 /\ Forall (fun k => toLowerCase k = k)
                           (map fst (ro_headers (options r)))) new.
Proof.
  intros Hrun.
  destruct (makeRequestStream_requests _ _ _ _ _ _ _ _ Hrun)
    as (_ & new & Hw & Hall).
  exists new. split; [exact Hw|].
  eapply Forall_impl; [exact Hall|].
  intros r [[w0 ->]|(region & w0 & ->)].
  - apply wellKeyed_locationLookup.
  - unfold signedRequest. cbn [options].
    destruct (anonymous c);
      [|apply wellKeyed_stamp]; apply wellKeyed_getRequestOptions.
Qed.

(** *** Signing *)

Lemma obj_get_lowerHeaders_None k hs : forall acc,
  obj_get k acc = None ->
  Forall (fun kv => toLowerCase (fst kv) <> k) hs ->
  obj_get k (lowerHeaders hs acc) = None.
Proof.
  unfold lowerHeaders. induction hs as [|[k0 v0] hs IH]; intros acc Ha Hall; cbn;
    [exact Ha|].
  inversion Hall as [|? ? Hk Hrest]; subst. apply IH; [|exact Hrest].
  rewrite obj_get_set_ne by (cbn in Hk; congruence). exact Ha.
Qed.

Lemma stamp_signingKeys c ro date sha region :
  Forall (fun k => is_Some (obj_get k (ro_headers (stamp c ro date sha region))))
         signingKeys.
Proof.
  unfold stamp, signingKeys. cbn [ro_headers].
  repeat constructor.
  - rewrite obj_get_set_eq. now eexists.
  - rewrite !obj_get_set_ne by discriminate. rewrite obj_get_set_eq. now eexists.
  - rewrite obj_get_set_ne by discriminate. rewrite obj_get_set_eq. now eexists.
Qed.

(** X3.  A client signs all of its requests or none.  For an anonymous
    client, if the caller supplies none of the three signing headers, no
    request of [makeRequestStream] carries [authorization], [x-amz-date] or
    [x-amz-content-sha256]; for any other client every request carries all
    three, and a request other than the region lookup carries the
    [sha256sum] it was given, which is 64 characters long. *)
Theorem requests_signed_or_not c opts stream sha expected w o w' :
  makeRequestStream c opts stream sha expected w = (o, w') ->
  exists new,
    wire w' = wire w ++ new
    /\ (anonymous c = true ->
        Forall (fun kv => ~ In (toLowerCase (fst kv)) signingKeys)
               (headers opts) ->
        Forall (fun r =>
                  Forall (fun k => obj_get k (ro_headers (options r)) = None)
                         signingKeys) new)
    /\ (anonymous c = false ->
        Forall (fun r =>
                  Forall (fun k => is_Some (obj_get k (ro_headers (options r))))
                         signingKeys
                  /\ (isLookup (js_string (bucketName opts)) r
                      \/ (obj_get "x-amz-content-sha256"
                                  (ro_headers (options r)) = Some sha
                          /\ String.length sha = 64%nat))) new).
Proof.
  intros Hrun.
  destruct (makeRequestStream_requests _ _ _ _ _ _ _ _ Hrun)
    as (_ & new & Hw & Hall).
  exists new. split; [exact Hw|]. split.
  - intros Ha Hh. eapply Forall_impl; [exact Hall|].
    intros r [[w0 ->]|(region & w0 & ->)].
    + unfold locationLookup, locationRequest. cbn [options]. rewrite Ha.
      repeat constructor.
    + unfold signedRequest. cbn [options]. rewrite Ha.
      destruct (getRequestOptions_headers c opts) as [h ->].
      unfold signingKeys in *.
      repeat (constructor;
              [apply obj_get_lowerHeaders_None;
               [reflexivity
               |eapply Forall_impl; [exact Hh|]; cbn; intros kv Hkv E;
                apply Hkv; rewrite E; tauto]|]).
      constructor.
  - intros Ha.
    destruct (sha256sumRejected c sha) eqn:Hrej.
    { unfold makeRequestStream in Hrun. rewrite Hrej in Hrun.
      injection Hrun as _ <-.
      apply (f_equal (@length _)) in Hw. rewrite length_app in Hw.
      destruct new as [|r new]; [constructor|cbn in Hw; lia]. }
    assert (String.length sha = 64%nat) as Hlen.
    { unfold sha256sumRejected in Hrej. rewrite Ha in Hrej.
      cbn [negb] in Hrej. rewrite !andb_true_r in Hrej.
      apply orb_false_iff in Hrej as [_ Hrej].
      apply negb_false_iff in Hrej. now apply Nat.eqb_eq in Hrej. }
    eapply Forall_impl; [exact Hall|].
    intros r [[w0 ->]|(region & w0 & ->)].
    + split; [|left; apply locationLookup_isLookup].
      unfold locationLookup, locationRequest. cbn [options]. rewrite Ha.
      apply stamp_signingKeys.
    + unfold signedRequest. cbn [options]. rewrite Ha.
      split; [apply stamp_signingKeys|]. right. split; [|exact Hlen].
      unfold stamp. cbn [ro_headers].
      rewrite obj_get_set_ne by discriminate. apply obj_get_set_eq.
Qed.

(** *** The region cache across requests *)



(** X5.  The region of a bucket is resolved once while requests to it
    succeed: after a request to bucket [b] that called back without error, a
    read of the cache finds a region for [b], and the next request to [b]
    puts exactly one request on the wire, signed for that region.  Unless
    the name of the bucket is a key that every object inherits, what the
    read finds is the bucket's own entry, a non-empty string. *)
Theorem region_looked_up_once c opts stream sha expected w response w' b :
  bucketName opts = Some b ->
  b <> EmptyString ->
  makeRequestStream c opts stream sha expected w = (CbOk response, w') ->
  exists region,
    cachedRegion (regionMap w') b = Some region
    /\ (inheritedKey b = false ->
        regionMap w' !! b = Some region /\ region <> EmptyString)
    /\ forall opts2 stream2 sha2 expected2,
         bucketName opts2 = Some b ->
         sha256sumRejected c sha2 = false ->
         exists o2 w2,
           makeRequestStream c opts2 stream2 sha2 expected2 w' = (o2, w2)
           /\ wire w2
              = wire w' ++ [signedRequest c (getRequestOptions c opts2) stream2
                                         sha2 region w'].
Proof.
  intros Hopt Hne Hrun.
  assert (truthy b = true) as Ht by (destruct b; [congruence|reflexivity]).
  unfold makeRequestStream in Hrun.
  destruct (sha256sumRejected c sha); [discriminate|].
  unfold bind in Hrun.
  destruct (resolveRegion c opts w) as [[e|e|region] w1] eqn:Hres;
    [discriminate|discriminate|].
  unfold resolveRegion in Hres. rewrite Hopt in Hres.
  cbn [truthy_opt js_string] in Hres. rewrite Ht in Hres. cbn [negb] in Hres.
  assert (isValidBucketName b = true) as Hb.
  { destruct (isValidBucketName b) eqn:E; [reflexivity|].
    unfold getBucketRegion in Hres. rewrite E in Hres. discriminate. }
  assert (cachedRegion (regionMap w1) b = Some region) as Hc.
  { destruct (cachedRegion (regionMap w) b) as [r|] eqn:Hc.
    - rewrite (getBucketRegion_hit c b w r Hb Hc) in Hres.
      now injection Hres as <- <-.
    - rewrite (getBucketRegion_miss c b w Hb Hc) in Hres. cbv zeta in Hres.
      destruct (transport (wire w) (locationLookup c b w)) as [e|resp];
        [discriminate|].
      destruct (statusCode resp =? 200); [|discriminate].
      destruct (getBucketRegionTransformer resp) as [e|data]; [discriminate|].
      injection Hres as <- <-. cbn [regionMap withRegionMap sent].
      apply cachedRegion_present; [apply lookup_insert_eq
                                  |apply regionOfData_truthy]. }
  rewrite _makeRequest_eq in Hrun. cbv zeta in Hrun.
  destruct (transport (wire w1) _) as [e|resp]; [discriminate|].
  destruct (expected =? statusCode resp); [|discriminate].
  injection Hrun as _ <-.
  exists region. split; [exact Hc|].
  split.
  { intros Hown.
    destruct (cachedRegion_inv _ _ _ Hc) as [[Hm Htr]|(_ & Hin & _)];
      [|congruence].
    split; [exact Hm|]. intros E; rewrite E in Htr; discriminate. }
  intros opts2 stream2 sha2 expected2 Hopt2 Hsha2.
  unfold makeRequestStream. rewrite Hsha2. unfold bind, resolveRegion.
  rewrite Hopt2. cbn [truthy_opt js_string]. rewrite Ht. cbn [negb].
  rewrite (getBucketRegion_hit c b (sent _ w1) region Hb Hc).
  rewrite _makeRequest_eq. cbv zeta.
  destruct (transport _ _) as [e|resp2].
  - eexists _, _. split; reflexivity.
  - destruct (expected2 =? statusCode resp2); eexists _, _; split; reflexivity.
Qed.

(** *** Object metadata *)

Lemma stripTrailingQuote_app e : stripTrailingQuote (e +:+ dquote) = e.
Proof.
  induction e as [|a e IH]; [reflexivity|].
  rewrite append_cons. cbn [stripTrailingQuote].
  destruct (e +:+ dquote) eqn:E.
  - destruct e; discriminate E.
  - now rewrite IH.
Qed.

Lemma stripQuotes_quoted e : stripQuotes (dquote +:+ e +:+ dquote) = e.
Proof.
  unfold stripQuotes.
  change (dquote +:+ e +:+ dquote) with (String "034"%char (e +:+ dquote)).
  cbn [stripLeadingQuote Ascii.eqb Bool.eqb]. apply stripTrailingQuote_app.
Qed.

(** X6.  [statObject] after a successful HEAD: an ETag that arrives in double
    quotes is handed over without them; the size is the number read off
    [content-length]; and a response without [etag] header makes the call
    throw a [TypeError] instead of calling back. *)
Theorem statObject_result c bucket object w response w1 :
  isValidBucketName bucket = true ->
  isValidObjectName object = true ->
  makeRequest c {| method := "HEAD"; bucketName := Some bucket;
                   objectName := Some object; query := None; headers := [] |}
              EmptyString 200 w = (CbOk response, w1) ->
  (obj_get "etag" (resp_headers response) = None ->
   statObject c bucket object w = (Thrown TypeError, w1))
  /\ (forall e,
        obj_get "etag" (resp_headers response)
        = Some (dquote +:+ e +:+ dquote) ->
        exists stat,
          statObject c bucket object w = (CbOk stat, w1)
          /\ etag stat = e
          /\ size stat
             = toNumber (obj_get "content-length" (resp_headers response))
          /\ contentType stat = obj_get "content-type" (resp_headers response)
          /\ lastModified stat
             = obj_get "last-modified" (resp_headers response)).
Proof.
  intros Hb Ho Hrun. unfold statObject. rewrite Hb, Ho. cbn [negb].
  unfold bind. rewrite Hrun. split.
  - now intros ->.
  - intros e ->. eexists. split; [reflexivity|]. cbn [etag size contentType lastModified].
    split; [apply stripQuotes_quoted|auto].
Qed.

(** *** Query strings *)


(** *** POST policy *)

Lemma conditionBacked_insert fd k v cond :
  conditionBacked fd cond -> conditionBacked (<[k := v]> fd) cond.
Proof.
  destruct cond as [f x|f x|lo hi]; cbn; [| |auto].
  all: intros (k' & -> & Hs); exists k'; split; [reflexivity|];
    rewrite lookup_insert; case_decide; [now eexists|exact Hs].
Qed.

Lemma policyConsistent_push p k v cond :
  policyConsistent p ->
  (cond = CondEq ("$" +:+ k) v \/ cond = CondStartsWith ("$" +:+ k) v) ->
  policyConsistent {| policy := pushCondition cond p;
                      formData := <[k := v]> (formData p) |}.
Proof.
  intros [Hc He] Hcond. split; cbn [policy formData pushCondition conditions].
  - apply Forall_app. split.
    + eapply Forall_impl; [exact Hc|]. intros c. apply conditionBacked_insert.
    + constructor; [|constructor].
      destruct Hcond as [-> | ->]; cbn; exists k;
        (split; [reflexivity|]); rewrite lookup_insert_eq; now eexists.
  - intros k' v'. rewrite lookup_insert. unfold entryBacked.
    case_decide as E.
    + intros [= <-]. subst k'. rewrite !in_app_iff. cbn.
      destruct Hcond as [-> | ->]; tauto.
    + intros Hl. destruct (He k' v' Hl) as [H1|H1];
        rewrite !in_app_iff; tauto.
Qed.

Lemma applySetter_consistent s p p' :
  policyConsistent p -> applySetter s p = inr p' -> policyConsistent p'.
Proof.
  intros Hp. destruct s as [d|o|x|b|t|lo hi]; cbn.
  - unfold setExpires. destruct d; [|discriminate]. intros [= <-].
    destruct Hp as [Hc He]. split; assumption.
  - unfold setKey. destruct (negb (isValidObjectName o)); [discriminate|].
    intros [= <-]. apply policyConsistent_push; auto.
  - unfold setKeyStartsWith. destruct (negb (isValidPrefix x)); [discriminate|].
    intros [= <-]. apply policyConsistent_push; auto.
  - unfold setBucket. destruct (negb (isValidBucketName b)); [discriminate|].
    intros [= <-]. apply policyConsistent_push; auto.
  - unfold setContentType. destruct (negb (truthy t)); [discriminate|].
    intros [= <-]. apply policyConsistent_push; auto.
  - unfold setContentLength.
    destruct (Z.gtb_spec lo hi); [discriminate|].
    destruct (Z.ltb_spec lo 0); [discriminate|].
    destruct (Z.ltb_spec hi 0); [discriminate|].
    intros [= <-]. destruct Hp as [Hc He].
    split; cbn [policy formData pushCondition conditions].
    + apply Forall_app. split; [exact Hc|].
      constructor; [cbn; lia|constructor].
    + intros k v Hl. destruct (He k v Hl) as [Hback|Hback];
        unfold entryBacked; rewrite !in_app_iff; tauto.
Qed.

(** X8.  The setters of [PostPolicy] keep conditions and form data in step.
    On a policy object that started empty, after any sequence of setter
    calls, failed ones included: every [eq] or [starts-with] condition is on
    a field [$k] for which the form data has an entry [k]; every form-data
    entry [k = v] is backed by a condition on [$k] with value [v]; and every
    [content-length-range] condition has [0 <= min <= max]. *)
Theorem postPolicy_consistent calls :
  let p := afterCalls calls newPostPolicy in
  Forall (fun cond =>
            match cond with
            | CondEq f v | CondStartsWith f v =>
                exists k, f = "$" +:+ k /\ is_Some (formData p !! k)
            | CondContentLengthRange lo hi => 0 <= lo <= hi
            end) (conditions (policy p))
  /\ forall k v,
       formData p !! k = Some v ->
       In (CondEq ("$" +:+ k) v) (conditions (policy p))
       \/ In (CondStartsWith ("$" +:+ k) v) (conditions (policy p)).
Proof.
  cbv zeta. change (policyConsistent (afterCalls calls newPostPolicy)).
  assert (policyConsistent newPostPolicy) as H0.
  { split; [constructor|]. intros k v. cbn. now rewrite lookup_empty. }
  revert H0. generalize newPostPolicy. unfold afterCalls.
  induction calls as [|s calls IH]; intros p Hp; cbn; [exact Hp|].
  apply IH. destruct (applySetter s p) as [e|p'] eqn:E; [exact Hp|].
  exact (applySetter_consistent s p p' Hp E).
Qed.

Lemma presignedPostPolicy_step c p w signed w' :
  presignedPostPolicy c p w = (CbOk signed, w') ->
  anonymous c = false
  /\ exists bucket region,
       let date := length (wire w') in
       formData p !! "bucket" = Some bucket
       /\ getBucketRegion c bucket w = (CbOk region, w')
       /\ cachedRegion (regionMap w') bucket = Some region
       /\ expiration (policy signed) = expiration (policy p)
       /\ conditions (policy signed)
          = conditions (policy p)
            ++ [CondEq "$x-amz-date" (amzDate date);
                CondEq "$x-amz-algorithm" "AWS4-HMAC-SHA256";
                CondEq "$x-amz-credential"
                       (accessKey (params c) +:+ "/" +:+ getScope region date)]
       /\ formData signed !! "policy"
          = Some (base64 (jsonStringify (policy signed)))
       /\ formData signed !! "x-amz-signature"
          = Some (postPresignSignatureV4 region date (secretKey (params c))
                    (base64 (jsonStringify (policy signed))))
       /\ (forall k, ~ In k signingFields ->
                     formData signed !! k = formData p !! k).
Proof.
  unfold presignedPostPolicy.
  destruct (anonymous c); [discriminate|].
  destruct (formData p !! "bucket") as [bucket|] eqn:Hbk; [|discriminate].
  unfold bind.
  destruct (getBucketRegion c bucket w) as [[e|e|region] w1] eqn:Hreg;
    [discriminate|discriminate|].
  unfold now, ret. intros [= <- <-]. split; [reflexivity|].
  exists bucket, region. cbv zeta. split; [reflexivity|].
  split; [exact Hreg|].
  split.
  { destruct (isValidBucketName bucket) eqn:Hb.
    - destruct (cachedRegion (regionMap w) bucket) as [r|] eqn:Hc.
      + rewrite (getBucketRegion_hit c bucket w r Hb Hc) in Hreg.
        injection Hreg as <- <-. exact Hc.
      + rewrite (getBucketRegion_miss c bucket w Hb Hc) in Hreg.
        cbv zeta in Hreg.
        destruct (transport (wire w) (locationLookup c bucket w))
          as [e|resp]; [discriminate|].
        destruct (statusCode resp =? 200); [|discriminate].
        destruct (getBucketRegionTransformer resp) as [e|data];
          [discriminate|].
        injection Hreg as <- <-. cbn [regionMap withRegionMap sent].
        apply cachedRegion_present; [apply lookup_insert_eq
                                    |apply regionOfData_truthy].
    - unfold getBucketRegion in Hreg. rewrite Hb in Hreg. discriminate. }
  cbn [policy formData expiration conditions].
  split; [reflexivity|]. split; [reflexivity|].
  split; [rewrite lookup_insert_ne by discriminate; apply lookup_insert_eq|].
  split; [apply lookup_insert_eq|].
  intros k Hk. unfold signingFields in Hk. cbn in Hk.
  rewrite !lookup_insert_ne by (intros <-; tauto). reflexivity.
Qed.

(** X9.  What a successful [presignedPostPolicy] leaves in the policy
    object.  The three signing conditions (date, algorithm, credential) are
    appended to the conditions in that order and the expiration is kept; the
    form data gains [policy], the encoded policy with those conditions, and
    [x-amz-signature], computed over exactly that encoding for the region a
    read of the cache then finds for the bucket (its own entry, unless the
    name is a key every object inherits); all other form fields are as the
    caller set them.  Signing the same object a second time appends the
    three conditions once more, and sends nothing, the region being
    cached. *)
Theorem presignedPostPolicy_result c p w signed w' :
  presignedPostPolicy c p w = (CbOk signed, w') ->
  (exists bucket region,
     formData p !! "bucket" = Some bucket
     /\ cachedRegion (regionMap w') bucket = Some region
     /\ (inheritedKey bucket = false -> regionMap w' !! bucket = Some region)
     /\ expiration (policy signed) = expiration (policy p)
     /\ conditions (policy signed)
        = conditions (policy p)
          ++ [CondEq "$x-amz-date" (amzDate (length (wire w')));
              CondEq "$x-amz-algorithm" "AWS4-HMAC-SHA256";
              CondEq "$x-amz-credential"
                     (accessKey (params c) +:+ "/"
                      +:+ getScope region (length (wire w')))]
     /\ formData signed !! "policy"
        = Some (base64 (jsonStringify (policy signed)))
     /\ formData signed !! "x-amz-signature"
        = Some (postPresignSignatureV4 region (length (wire w'))
                  (secretKey (params c))
                  (base64 (jsonStringify (policy signed))))
     /\ (forall k, ~ In k signingFields ->
                   formData signed !! k = formData p !! k))
  /\ forall signed2 w2,
       presignedPostPolicy c signed w' = (CbOk signed2, w2) ->
       w2 = w'
       /\ exists d1 cr1 d2 cr2,
            conditions (policy signed2)
            = conditions (policy p)
              ++ [CondEq "$x-amz-date" d1;
                  CondEq "$x-amz-algorithm" "AWS4-HMAC-SHA256";
                  CondEq "$x-amz-credential" cr1]
              ++ [CondEq "$x-amz-date" d2;
                  CondEq "$x-amz-algorithm" "AWS4-HMAC-SHA256";
                  CondEq "$x-amz-credential" cr2].
Proof.
  intros Hrun.
  destruct (presignedPostPolicy_step c p w signed w' Hrun)
    as (Ha & bucket & region & Hbk & Hreg & Hm & He & Hc & Hp & Hs & Hk).
  cbv zeta in *. split.
  - exists bucket, region. split; [assumption|]. split; [exact Hm|].
    split.
    { intros Hown.
      destruct (cachedRegion_inv _ _ _ Hm) as [[Hown' _]|(_ & Hin & _)];
        [exact Hown'|congruence]. }
    repeat (split; [assumption|]). assumption.
  - intros signed2 w2 Hrun2.
    destruct (presignedPostPolicy_step c signed w' signed2 w2 Hrun2)
      as (_ & bucket2 & region2 & Hbk2 & Hreg2 & _ & _ & Hc2 & _).
    cbv zeta in *.
    assert (bucket2 = bucket) as ->.
    { rewrite Hk in Hbk2 by (unfold signingFields; cbn; intuition discriminate).
      congruence. }
    assert (isValidBucketName bucket = true) as Hb.
    { destruct (isValidBucketName bucket) eqn:E; [reflexivity|].
      unfold getBucketRegion in Hreg. rewrite E in Hreg. discriminate. }
    rewrite (getBucketRegion_hit c bucket w' region Hb Hm) in Hreg2.
    injection Hreg2 as <- <-. split; [reflexivity|].
    rewrite Hc2, Hc. rewrite <- app_assoc. eexists _, _, _, _.
    reflexivity.
Qed.

End MoreProperties.

(** ** Properties of the rest of the client *)

Section EngineProperties.
Context {env : Env} {eng : EngineEnv}.

Lemma sentBytes_app l1 l2 : sentBytes (l1 ++ l2) = sentBytes l1 +:+ sentBytes l2.
Proof.
  induction l1 as [|r l1 IH]; [reflexivity|].
  cbn [app sentBytes fold_right] in *. fold (sentBytes (l1 ++ l2)).
  fold (sentBytes l1). now rewrite IH, append_assoc.
Qed.

Lemma locationLookup_payload c b w : payload (locationLookup c b w) = EmptyString.
Proof. reflexivity. Qed.

(** A part upload that called back without error wrote the bytes of the
    part, and nothing else. *)
Lemma multipartUploader_success c bucket object contentType uploadId n
    stream len sha md5 w etag w' :
  multipartUploader c bucket object contentType uploadId n stream len sha md5 w
  = (CbOk etag, w') ->
  files w' = files w
  /\ exists reqs,
       wire w' = wire w ++ reqs
       /\ sentBytes reqs = stream
       /\ Forall (fun r => payload r = EmptyString \/ payload r = stream) reqs.
Proof.
  unfold multipartUploader.
  destruct (negb (isValidBucketName bucket)); [discriminate|].
  destruct (negb (isValidObjectName object)); [discriminate|].
  cbv zeta.
  destruct (negb (truthy uploadId)); [discriminate|].
  destruct (n =? 0); [discriminate|].
  destruct sha as [sha|]; [|discriminate].
  unfold bind.
  destruct (makeRequestStream _ _ _ _ _ _) as [[e|e|response] w1] eqn:Hrun;
    [discriminate|discriminate|].
  intros [= _ <-].
  destruct (makeRequestStream_success _ _ _ _ _ _ _ _ Hrun)
    as (Hf & _ & pre & region & w0 & Hw & Hpre).
  split; [exact Hf|]. eexists. split; [exact Hw|].
  rewrite Forall_app, sentBytes_app, Forall_singleton. cbn [sentBytes fold_right].
  destruct (signedRequest_shape c (getRequestOptions c
              {| method := "PUT"; bucketName := Some bucket;
                 objectName := Some object;
                 query := Some ("partNumber=" +:+ pretty n +:+ "&uploadId="
                                +:+ uploadId);
                 headers := [("Content-Length", pretty len);
                             ("Content-Type",
                              if truthy contentType then contentType
                              else "application/octet-stream");
                             ("Content-MD5", md5)] |}) stream sha region w0)
    as (_ & _ & _ & ->).
  rewrite append_nil_r.
  destruct Hpre as [-> | ->]; (split; [reflexivity|]);
    (split; [|now right]); repeat constructor.
Qed.

Lemma substring_zero_length n s : String.substring n 0 s = EmptyString.
Proof.
  revert s. induction n as [|n IH]; intros [|a s]; cbn; auto.
Qed.

Lemma substring_split n m1 m2 s :
  String.substring n (m1 + m2) s
  = String.substring n m1 s +:+ String.substring (n + m1) m2 s.
Proof.
  revert s. induction n as [|n IH]; intros s.
  - revert s. induction m1 as [|m1 IHm]; intros s.
    + cbn [Nat.add]. rewrite substring_zero_length. now rewrite append_nil_l.
    + destruct s as [|a s]; [reflexivity|].
      cbn [Nat.add String.substring]. rewrite append_cons. f_equal.
      exact (IHm s).
  - destruct s as [|a s]; [reflexivity|].
    cbn [Nat.add String.substring]. apply IH.
Qed.

Lemma substring_all s : String.substring 0 (String.length s) s = s.
Proof.
  induction s as [|a s IH]; [reflexivity|]. cbn. now rewrite IH.
Qed.

Lemma ceil_div_nonpos a b : 0 < b -> a <= 0 -> ceil_div a b <= 0.
Proof. intros Hb Ha. pose proof (ceil_div_spec a b Hb). nia. Qed.

Lemma ceil_div_nonneg a b : 0 < b -> 0 <= a -> 0 <= ceil_div a b.
Proof. intros Hb Ha. pose proof (ceil_div_spec a b Hb). nia. Qed.

(** One more part: the number of parts left at [a] bytes to go. *)
Lemma ceil_div_step a b :
  0 < b -> 0 < a ->
  ceil_div a b = 1 + ceil_div (a - (if b >? a then a else b)) b.
Proof.
  intros Hb Ha. symmetry. apply ceil_div_unique; [exact Hb|].
  pose proof (ceil_div_spec (a - (if b >? a then a else b)) b Hb) as Hs.
  destruct (b >? a) eqn:E.
  - replace (a - a) with 0 in * by lia.
    assert (ceil_div 0 b = 0) as -> by (symmetry; apply ceil_div_unique; lia).
    lia.
  - assert (b <= a) by lia. nia.
Qed.

Lemma seqZ_step m n : 0 < n -> seqZ m n = m :: seqZ (m + 1) (n - 1).
Proof. intros Hn. rewrite seqZ_cons by lia. reflexivity. Qed.

(** The loop of [fPutObject], from any of its states to its end. *)
Lemma fPutParts_run c bucket object contentType filePath uploadId etags
    size partSize content fuel :
  0 < partSize ->
  forall partNumber uploadedSize done0 w done w',
    0 <= uploadedSize ->
    files w !! filePath = Some content ->
    fPutParts fuel c bucket object contentType filePath uploadId etags
              size partSize partNumber uploadedSize done0 w
    = (CbOk (Some done), w') ->
    files w' = files w
    /\ exists new reqs,
         done = done0 ++ new
         /\ map pr_part new
            = seqZ partNumber (ceil_div (size - uploadedSize) partSize)
         /\ wire w' = wire w ++ reqs
         /\ (etags = [] ->
             sentBytes reqs
             = String.substring (Z.to_nat uploadedSize)
                                (Z.to_nat (size - uploadedSize)) content).
Proof.
  intros Hps.
  induction fuel as [|fuel IH];
    intros partNumber uploadedSize done0 w done w' Hup Hfile Hrun;
    [discriminate|].
  cbn [fPutParts] in Hrun.
  destruct (Z.ltb_spec uploadedSize size) as [Hlt|Hge].
  2:{ injection Hrun as <- <-. split; [reflexivity|]. exists [], [].
      rewrite !app_nil_r. split; [reflexivity|].
      split; [rewrite seqZ_nil; [reflexivity|]; apply ceil_div_nonpos; lia|].
      split; [reflexivity|]. intros _.
      replace (Z.to_nat (size - uploadedSize)) with 0%nat by lia.
      now rewrite substring_zero_length. }
  cbv zeta in Hrun.
  pose proof (ceil_div_step (size - uploadedSize) partSize Hps ltac:(lia)) as Hn.
  pose proof (ceil_div_nonneg (size - uploadedSize) partSize Hps ltac:(lia)) as Hn0.
  set (len := if partSize >? size - uploadedSize then size - uploadedSize
              else partSize) in *.
  assert (0 < len <= size - uploadedSize) as Hlen
    by (subst len; destruct (Z.gtb_spec partSize (size - uploadedSize)); lia).
  unfold bind at 1 in Hrun. unfold readRange in Hrun.
  destruct (Z.leb_spec len 0) as [Hbad|_]; [lia|].
  rewrite Hfile in Hrun.
  set (chunk := String.substring (Z.to_nat uploadedSize) (Z.to_nat len) content) in *.
  unfold bind at 1 in Hrun.
  destruct (getHashSummer false chunk) as [e|[md5 sha]];
    cbn [decode fail ret fst snd] in Hrun; [discriminate|].
  assert (String.substring (Z.to_nat uploadedSize)
                           (Z.to_nat (size - uploadedSize)) content
          = chunk +:+ String.substring (Z.to_nat (uploadedSize + len))
                        (Z.to_nat (size - (uploadedSize + len))) content)
    as Hsplit.
  { replace (Z.to_nat (size - uploadedSize))
      with (Z.to_nat len + Z.to_nat (size - (uploadedSize + len)))%nat by lia.
    rewrite substring_split. subst chunk. do 2 f_equal. lia. }
  replace (size - uploadedSize - len) with (size - (uploadedSize + len)) in Hn
    by lia.
  pose proof (ceil_div_nonneg (size - (uploadedSize + len)) partSize Hps
                ltac:(lia)) as Hn1.
  destruct (partsByNumber etags partNumber) as [p0|] eqn:Hpart;
    [destruct (String.eqb (base64ToHex md5) (pi_etag p0))|].
  1:{ apply IH in Hrun as (Hf & new & reqs & Hd & Hnum & Hw & Hbytes);
        [|lia|exact Hfile].
      split; [exact Hf|].
      eexists (_ :: new), reqs. split; [rewrite Hd, <- app_assoc; reflexivity|].
      split; [cbn [map pr_part]; rewrite Hnum, Hn, (seqZ_step partNumber) by lia;
              do 2 f_equal; lia|].
      split; [exact Hw|]. intros ->. discriminate. }
  all: unfold bind at 1 in Hrun;
    destruct (multipartUploader _ _ _ _ _ _ _ _ _ _ _) as [[e|e|etag] w1] eqn:Hput;
    [discriminate|discriminate|];
    destruct (multipartUploader_success _ _ _ _ _ _ _ _ _ _ _ _ _ Hput)
      as (Hf1 & reqs1 & Hw1 & Hb1 & _);
    (apply IH in Hrun as (Hf & new & reqs & Hd & Hnum & Hw & Hbytes);
      [|lia|now rewrite Hf1]);
    (split; [congruence|]);
    eexists (_ :: new), (reqs1 ++ reqs);
    (split; [rewrite Hd, <- app_assoc; reflexivity|]);
    (split; [cbn [map pr_part]; rewrite Hnum, Hn, (seqZ_step partNumber) by lia;
             do 2 f_equal; lia|]);
    (split; [rewrite Hw, Hw1, app_assoc; reflexivity|]);
    intros Hfresh; rewrite sentBytes_app, Hb1, (Hbytes Hfresh);
    symmetry; exact Hsplit.
Qed.

Lemma fPutParts_ends c bucket object contentType filePath uploadId etags
    size partSize fuel :
  0 < partSize ->
  forall partNumber uploadedSize done0 w,
    uploadedSize <= size ->
    ceil_div (size - uploadedSize) partSize < Z.of_nat fuel ->
    fst (fPutParts fuel c bucket object contentType filePath uploadId etags
                   size partSize partNumber uploadedSize done0 w)
    <> CbOk None.
Proof.
  intros Hps.
  induction fuel as [|fuel IH]; intros partNumber uploadedSize done0 w Hup Hfuel.
  { pose proof (ceil_div_nonneg (size - uploadedSize) partSize Hps ltac:(lia)).
    lia. }
  cbn [fPutParts].
  destruct (Z.ltb_spec uploadedSize size) as [Hlt|Hge]; [|discriminate].
  cbv zeta.
  pose proof (ceil_div_step (size - uploadedSize) partSize Hps ltac:(lia)) as Hn.
  set (len := if partSize >? size - uploadedSize then size - uploadedSize
              else partSize) in *.
  assert (0 < len <= size - uploadedSize) as Hlen
    by (subst len; destruct (Z.gtb_spec partSize (size - uploadedSize)); lia).
  replace (size - uploadedSize - len) with (size - (uploadedSize + len)) in Hn
    by lia.
  unfold bind at 1.
  destruct (readRange filePath uploadedSize len w) as [[e|e|chunk] w0];
    [discriminate|discriminate|].
  unfold bind at 1.
  destruct (getHashSummer false chunk) as [e|[md5 sha]];
    cbn [decode fail ret fst snd]; [discriminate|].
  destruct (partsByNumber etags partNumber) as [p0|];
    [destruct (String.eqb (base64ToHex md5) (pi_etag p0))|].
  1: apply IH; lia.
  all: unfold bind at 1;
    destruct (multipartUploader _ _ _ _ _ _ _ _ _ _ _) as [[e|e|etag] w1];
    [discriminate|discriminate|]; apply IH; lia.
Qed.

(** X10.  The part loop of [fPutObject], for a file of [fileSize content]
    bytes cut into parts of [partSize > 0] bytes.  When it ends without
    error the file is untouched, the parts recorded are numbered 1, 2, ...
    up to the number of parts the sizes call for, whether a part was
    uploaded or found in the listing of an earlier attempt, and, when no
    earlier attempt is resumed, the bytes written to the wire are, in order,
    exactly the bytes of the file.  The loop takes one round per part. *)
Theorem fPutObject_parts c bucket object contentType filePath uploadId etags
    partSize content fuel w :
  0 < partSize ->
  files w !! filePath = Some content ->
  let size := fileSize content in
  let run := fPutParts fuel c bucket object contentType filePath uploadId etags
                       size partSize 1 0 [] w in
  (forall done w',
     run = (CbOk (Some done), w') ->
     files w' = files w
     /\ map pr_part done = seqZ 1 (ceil_div size partSize)
     /\ exists reqs,
          wire w' = wire w ++ reqs
          /\ (etags = [] -> sentBytes reqs = content))
  /\ (ceil_div size partSize < Z.of_nat fuel -> fst run <> CbOk None).
Proof.
  intros Hps Hfile size run. split.
  - intros done w' Hrun.
    destruct (fPutParts_run c bucket object contentType filePath uploadId etags
                size partSize content fuel Hps 1 0 [] w done w'
                ltac:(lia) Hfile Hrun)
      as (Hf & new & reqs & Hd & Hnum & Hw & Hbytes).
    cbn [app] in Hd. subst new. rewrite Z.sub_0_r in Hnum, Hbytes.
    split; [exact Hf|]. split; [exact Hnum|].
    exists reqs. split; [exact Hw|]. intros Hfresh.
    rewrite (Hbytes Hfresh). unfold size, fileSize.
    rewrite Nat2Z.id. apply substring_all.
  - intros Hfuel. apply fPutParts_ends; [exact Hps| |now rewrite Z.sub_0_r].
    unfold size, fileSize. lia.
Qed.


(** *** The chunk uploader *)

Lemma fileSize_append a b : fileSize (a +:+ b) = fileSize a + fileSize b.
Proof. unfold fileSize. rewrite length_append. lia. Qed.

Lemma partsByNumber_part partsArray n p :
  partsByNumber partsArray n = Some p -> pi_part p = n.
Proof.
  unfold partsByNumber. intros H. apply find_some in H as [_ H].
  now apply Z.eqb_eq.
Qed.

(** One chunk through the transform of [chunkUploader]. *)
Lemma chunkStep_run c bucket object contentType uploadId partsArray
    multipartSize st chunk w st' w' :
  aggregatedSize st = fileSize (aggregator st) ->
  chunkStep c bucket object contentType uploadId partsArray multipartSize
            st chunk w = (CbOk st', w') ->
  aggregatedSize st' = fileSize (aggregator st')
  /\ files w' = files w
  /\ (aggregator st' = EmptyString
      \/ (fileSize chunk = minimumPartSize c
          /\ minimumPartSize c < multipartSize))
  /\ exists new reqs,
       partsDone st' = partsDone st ++ new
       /\ map pr_part new = seqZ (partNumber st) (Z.of_nat (length new))
       /\ partNumber st' = partNumber st + Z.of_nat (length new)
       /\ wire w' = wire w ++ reqs
       /\ Forall (fun r => fileSize (payload r) <= multipartSize) reqs
       /\ (partsArray = [] ->
           sentBytes reqs +:+ aggregator st' = aggregator st +:+ chunk).
Proof.
  intros Hinv. unfold chunkStep.
  destruct (Z.gtb_spec (fileSize chunk) (minimumPartSize c)) as [|Hmin];
    [discriminate|].
  cbv zeta.
  destruct (Z.gtb_spec (aggregatedSize st + fileSize chunk) multipartSize)
    as [|Hmax]; [discriminate|].
  assert (0 <= fileSize (aggregator st)) as Hpos by (unfold fileSize; lia).
  assert (0 <= fileSize chunk) as Hpos' by (unfold fileSize; lia).
  destruct (Z.eqb_spec (aggregatedSize st + fileSize chunk) multipartSize)
    as [Heq|Hne];
    [|destruct (Z.ltb_spec (aggregatedSize st + fileSize chunk) multipartSize)
        as [Hlt|Hge];
      [destruct (Z.ltb_spec (fileSize chunk) (minimumPartSize c)) as [Hshort|Hfull]
      |lia]];
    cbn [orb andb negb].
  3:{ intros [= <- <-]. cbn [aggregatedSize aggregator partNumber partsDone].
      split; [now rewrite fileSize_append, Hinv|]. split; [reflexivity|].
      split; [right; lia|]. exists [], [].
      rewrite !app_nil_r, Z.add_0_r. repeat (split; [reflexivity|]).
      split; [constructor|]. intros _. reflexivity. }
  all: set (data := aggregator st +:+ chunk);
    assert (fileSize data <= multipartSize) as Hdata
      by (subst data; rewrite fileSize_append; lia);
    destruct (partsByNumber partsArray (partNumber st)) as [p0|] eqn:Hpart;
    [destruct (String.eqb (md5hex data) (pi_etag p0))|].
  1,4: intros [= <- <-];
    cbn [nextPart aggregatedSize aggregator partNumber partsDone];
    rewrite (partsByNumber_part _ _ _ Hpart);
    (split; [reflexivity|]); (split; [reflexivity|]); (split; [now left|]);
    eexists [_], []; rewrite app_nil_r;
    (split; [reflexivity|]); (split; [reflexivity|]); (split; [reflexivity|]);
    (split; [reflexivity|]); (split; [constructor|]);
    intros ->; discriminate.
  all: unfold bind;
    destruct (multipartUploader _ _ _ _ _ _ _ _ _ _ _) as [[e|e|etag] w1] eqn:Hput;
    [discriminate|discriminate|];
    destruct (multipartUploader_success _ _ _ _ _ _ _ _ _ _ _ _ _ Hput)
      as (Hf1 & reqs1 & Hw1 & Hb1 & Hall);
    intros [= <- <-];
    cbn [nextPart aggregatedSize aggregator partNumber partsDone];
    (split; [reflexivity|]); (split; [exact Hf1|]); (split; [now left|]);
    eexists [_], reqs1;
    (split; [reflexivity|]); (split; [reflexivity|]); (split; [reflexivity|]);
    (split; [exact Hw1|]);
    (split; [eapply Forall_impl; [exact Hall|];
             intros r [-> | ->]; [unfold fileSize; cbn; lia|exact Hdata]|]);
    intros _; rewrite Hb1; apply append_nil_r.
Qed.

Lemma chunkSteps_run c bucket object contentType uploadId partsArray
    multipartSize chunks :
  forall st w st' w',
    aggregatedSize st = fileSize (aggregator st) ->
    chunkSteps c bucket object contentType uploadId partsArray multipartSize
               st chunks w = (CbOk st', w') ->
    files w' = files w
    /\ (chunks <> [] ->
        aggregator st' = EmptyString
        \/ exists chunk,
             last chunks = Some chunk
             /\ fileSize chunk = minimumPartSize c
             /\ minimumPartSize c < multipartSize)
    /\ exists new reqs,
         partsDone st' = partsDone st ++ new
         /\ map pr_part new = seqZ (partNumber st) (Z.of_nat (length new))
         /\ wire w' = wire w ++ reqs
         /\ Forall (fun r => fileSize (payload r) <= multipartSize) reqs
         /\ (partsArray = [] ->
             sentBytes reqs +:+ aggregator st'
             = aggregator st +:+ fold_right String.append EmptyString chunks).
Proof.
  induction chunks as [|chunk rest IH]; intros st w st' w' Hinv Hrun.
  - injection Hrun as <- <-. split; [reflexivity|]. split; [congruence|].
    exists [], []. rewrite !app_nil_r. repeat (split; [reflexivity|]).
    split; [constructor|]. intros _. cbn. now rewrite append_nil_r.
  - cbn [chunkSteps] in Hrun. unfold bind in Hrun.
    destruct (chunkStep _ _ _ _ _ _ _ _ _ _) as [[e|e|st1] w1] eqn:Hstep;
      [discriminate|discriminate|].
    destruct (chunkStep_run _ _ _ _ _ _ _ _ _ _ _ _ Hinv Hstep)
      as (Hinv1 & Hf1 & Htail1 & new1 & reqs1 & Hd1 & Hn1 & Hp1 & Hw1 & Hall1
          & Hb1).
    destruct (IH _ _ _ _ Hinv1 Hrun)
      as (Hf & Htail & new & reqs & Hd & Hn & Hw & Hall & Hb).
    split; [congruence|]. split.
    { intros _. destruct rest as [|chunk2 rest].
      - injection Hrun as <- <-.
        destruct Htail1 as [Ht|Ht]; [now left|right]. now exists chunk.
      - destruct (Htail ltac:(discriminate)) as [Ht|(ch & Hl & Ht)];
          [now left|right]. exists ch. split; [|exact Ht].
        rewrite <- Hl. reflexivity. }
    exists (new1 ++ new), (reqs1 ++ reqs).
    split; [rewrite Hd, Hd1, app_assoc; reflexivity|].
    split.
    { rewrite map_app, Hn1, Hn, Hp1, length_app, Nat2Z.inj_add.
      rewrite seqZ_app by lia. reflexivity. }
    split; [rewrite Hw, Hw1, app_assoc; reflexivity|].
    split; [apply Forall_app; auto|].
    intros Hfresh. cbn [fold_right].
    rewrite sentBytes_app, append_assoc, (Hb Hfresh), <- !append_assoc.
    now rewrite (Hb1 Hfresh).
Qed.

(** X11.  The chunk uploader behind [putObject], fed with chunks and ended
    without error.  The parts it reports are numbered 1, 2, ... without gap;
    the local files are untouched; no request carries more than
    [multipartSize] bytes, which is itself at most [maximumPartSize].  When
    no earlier attempt is resumed, the bytes written to the wire are a prefix
    of the bytes received, in order, and what is missing is the aggregate
    still pending at the end: it is empty unless the last chunk is exactly
    [minimumPartSize] long and [multipartSize] is larger than that, in which
    case the pending bytes are dropped without an error. *)
Theorem chunkUploader_parts c bucket object contentType uploadId partsArray
    multipartSize chunks w done w' :
  chunkUploader c bucket object contentType uploadId partsArray multipartSize
                chunks w = (CbOk done, w') ->
  files w' = files w
  /\ multipartSize <= maximumPartSize c
  /\ map pr_part done = seqZ 1 (Z.of_nat (length done))
  /\ exists reqs,
       wire w' = wire w ++ reqs
       /\ Forall (fun r => fileSize (payload r) <= multipartSize) reqs
       /\ (partsArray = [] ->
           exists pending,
             sentBytes reqs +:+ pending
             = fold_right String.append EmptyString chunks
             /\ (pending = EmptyString
                 \/ exists chunk,
                      last chunks = Some chunk
                      /\ fileSize chunk = minimumPartSize c
                      /\ minimumPartSize c < multipartSize)).
Proof.
  unfold chunkUploader.
  destruct (negb (isValidBucketName bucket)); [discriminate|].
  destruct (negb (isValidObjectName object)); [discriminate|].
  destruct (Z.gtb_spec multipartSize (maximumPartSize c)) as [|Hmax];
    [discriminate|].
  unfold bind.
  destruct (chunkSteps _ _ _ _ _ _ _ _ _ _) as [[e|e|st] w1] eqn:Hrun;
    [discriminate|discriminate|].
  intros [= <- <-].
  pose proof Hrun as Hsteps.
  apply chunkSteps_run in Hsteps
    as (Hf & Htail & new & reqs & Hd & Hn & Hw & Hall & Hb); [|reflexivity].
  cbn [partsDone partNumber aggregator app] in Hd, Hn, Hb.
  split; [exact Hf|]. split; [exact Hmax|].
  split; [rewrite Hd; exact Hn|].
  exists reqs. split; [exact Hw|]. split; [exact Hall|].
  intros Hfresh. exists (aggregator st).
  split; [rewrite (Hb Hfresh); apply append_nil_l|].
  destruct chunks as [|chunk rest]; [|apply Htail; discriminate].
  injection Hrun as <- _. now left.
Qed.


(** *** The number of parts *)

Lemma calculatePartSize_covers c size partSize :
  0 < minimumPartSize c ->
  0 < size ->
  calculatePartSize c size = inr partSize ->
  0 < partSize /\ size <= 10000 * partSize.
Proof.
  intros Hmin Hsize. unfold calculatePartSize.
  destruct (size >? maxObjectSize c); [discriminate|]. intros [= <-].
  pose proof (ceil_div_spec size 10000 ltac:(lia)) as H1.
  pose proof (ceil_div_spec (ceil_div size 10000) (minimumPartSize c) Hmin) as H2.
  nia.
Qed.

(** X12.  [fPutObject] never asks for more than 10000 parts: with the part
    size that [calculatePartSize] gives for the size of the file, every part
    the loop records has a number between 1 and 10000. *)
Theorem fPutObject_part_numbers c bucket object contentType filePath uploadId
    etags partSize content fuel w done w' :
  0 < minimumPartSize c ->
  0 < fileSize content ->
  files w !! filePath = Some content ->
  calculatePartSize c (fileSize content) = inr partSize ->
  fPutParts fuel c bucket object contentType filePath uploadId etags
            (fileSize content) partSize 1 0 [] w = (CbOk (Some done), w') ->
  Z.of_nat (length done) <= 10000
  /\ Forall (fun r => 1 <= pr_part r <= 10000) done.
Proof.
  intros Hmin Hsize Hfile Hps Hrun.
  destruct (calculatePartSize_covers c _ _ Hmin Hsize Hps) as [Hpos Hcov].
  destruct (fPutParts_run c bucket object contentType filePath uploadId etags
              (fileSize content) partSize content fuel Hpos 1 0 [] w done w'
              ltac:(lia) Hfile Hrun)
    as (_ & new & _ & Hd & Hnum & _).
  cbn [app] in Hd. subst new. rewrite Z.sub_0_r in Hnum.
  pose proof (ceil_div_spec (fileSize content) partSize Hpos) as Hq.
  assert (ceil_div (fileSize content) partSize <= 10000) as Hle by nia.
  split.
  - rewrite <- (length_map pr_part), Hnum, length_seqZ. lia.
  - apply Forall_forall. intros r Hr.
    assert (pr_part r ∈ seqZ 1 (ceil_div (fileSize content) partSize)) as Hin
      by (rewrite <- Hnum; apply list_elem_of_fmap_2, Hr).
    apply elem_of_seqZ in Hin. lia.
Qed.


(** *** Presigned URLs *)

(** A region handed to the callback is the one the cache holds afterwards. *)
Lemma getBucketRegion_success c b w region w' :
  getBucketRegion c b w = (CbOk region, w') ->
  isValidBucketName b = true
  /\ cachedRegion (regionMap w') b = Some region.
Proof.
  intros Hreg. destruct (isValidBucketName b) eqn:Hb.
  - split; [reflexivity|].
    destruct (cachedRegion (regionMap w) b) as [r|] eqn:Hc.
    + rewrite (getBucketRegion_hit c b w r Hb Hc) in Hreg.
      injection Hreg as <- <-. exact Hc.
    + rewrite (getBucketRegion_miss c b w Hb Hc) in Hreg. cbv zeta in Hreg.
      destruct (transport (wire w) (locationLookup c b w)) as [e|resp];
        [discriminate|].
      destruct (statusCode resp =? 200); [|discriminate].
      destruct (getBucketRegionTransformer resp) as [e|data]; [discriminate|].
      injection Hreg as <- <-. cbn [regionMap withRegionMap sent].
      apply cachedRegion_present; [apply lookup_insert_eq
                                  |apply regionOfData_truthy].
  - unfold getBucketRegion in Hreg. rewrite Hb in Hreg. discriminate.
Qed.

Lemma getBucketRegion_not_thrown c b w e w' :
  isValidBucketName b = true ->
  getBucketRegion c b w <> (Thrown e, w').
Proof.
  intros Hb. destruct (cachedRegion (regionMap w) b) as [r|] eqn:Hc.
  - now rewrite (getBucketRegion_hit c b w r Hb Hc).
  - rewrite (getBucketRegion_miss c b w Hb Hc). cbv zeta.
    destruct (transport (wire w) (locationLookup c b w)) as [e'|resp];
      [discriminate|].
    destruct (statusCode resp =? 200); [|discriminate].
    destruct (getBucketRegionTransformer resp); discriminate.
Qed.

(** X13.  [presignedGetObject] and [presignedPutObject] work locally.  An
    anonymous client is refused before anything else is looked at; no
    request for the object is ever sent, the only request that may go out
    is the region lookup for the bucket; the URL handed to the callback is
    the one [presignSignatureV4] computes for the region the cache then
    holds for the bucket and for the date read before the region was
    resolved; and with credentials and legal names nothing is thrown, an
    error of the signing goes to the callback. *)
Theorem presigned_url_local method c bucket object expires w o w' :
  presignedObject method c bucket object expires w = (o, w') ->
  files w' = files w
  /\ (wire w' = wire w \/ wire w' = wire w ++ [locationLookup c bucket w])
  /\ (anonymous c = true -> o = Thrown AnonymousRequestError /\ w' = w)
  /\ (anonymous c = false -> isValidBucketName bucket = true ->
      isValidObjectName object = true -> forall e, o <> Thrown e)
  /\ (forall url,
        o = CbOk url ->
        exists region date,
          now w = (CbOk date, w)
          /\ cachedRegion (regionMap w') bucket = Some region
          /\ presignSignatureV4
               (getRequestOptions c {| method := method;
                                       bucketName := Some bucket;
                                       objectName := Some object;
                                       query := None; headers := [] |})
               (accessKey (params c)) (secretKey (params c)) region date
               expires
             = inr url).
Proof.
  unfold presignedObject.
  destruct (anonymous c).
  { intros [= <- <-]. repeat split; auto; discriminate. }
  destruct (isValidBucketName bucket) eqn:Hb; cbn [negb].
  2:{ intros [= <- <-]. repeat split; auto; discriminate. }
  destruct (isValidObjectName object) eqn:Ho; cbn [negb].
  2:{ intros [= <- <-]. repeat split; auto; discriminate. }
  cbv zeta. unfold bind at 1. unfold now at 1. unfold bind.
  destruct (getBucketRegion c bucket w) as [[e|e|region] w1] eqn:Hreg.
  - now destruct (getBucketRegion_not_thrown c bucket w e w1 Hb).
  - intros [= <- <-].
    destruct (getBucketRegion_trace _ _ _ _ _ Hreg) as [Hf Hw].
    repeat split; auto; discriminate.
  - destruct (getBucketRegion_trace _ _ _ _ _ Hreg) as [Hf Hw].
    destruct (getBucketRegion_success _ _ _ _ _ Hreg) as [_ Hc].
    destruct (presignSignatureV4 _ _ _ _ _ _) as [e|url] eqn:Hurl;
      intros [= <- <-]; cbn [decode fail ret].
    + repeat split; auto; discriminate.
    + split; [exact Hf|]. split; [exact Hw|]. split; [discriminate|].
      split; [discriminate|]. intros url' [= <-].
      exists region, (length (wire w)). auto.
Qed.


(** *** The bucket list *)

(** X15.  [listBuckets] puts exactly one request on the wire, whatever the
    cache holds: a [GET] of [/] on the endpoint itself, also for a client
    that addresses buckets by host name, with an empty body and signed for
    [us-east-1].  The local files are untouched; the region cache is
    untouched when the call succeeds, and otherwise loses at most the entry
    under the key [undefined]. *)
Theorem listBuckets_request c w o w' :
  anonymous c = true \/ String.length (sha256hex EmptyString) = 64%nat ->
  listBuckets c w = (o, w') ->
  files w' = files w
  /\ (forall b, b <> "undefined" -> regionMap w' !! b = regionMap w !! b)
  /\ ((exists buckets, o = CbOk buckets) -> regionMap w' = regionMap w)
  /\ exists ro sha,
       wire w' = wire w ++ [signedRequest c ro EmptyString sha "us-east-1" w]
       /\ ro_method ro = "GET"
       /\ ro_host ro = host (params c)
       /\ ro_path ro = "/".
Proof.
  intros Hsha. unfold listBuckets, makeRequest, makeRequestStream. cbv zeta.
  assert (sha256sumRejected c (if anonymous c then EmptyString
                               else sha256hex EmptyString) = false) as ->.
  { unfold sha256sumRejected. destruct (anonymous c); [reflexivity|].
    destruct Hsha as [Ha | ->]; [discriminate|reflexivity]. }
  unfold bind at 1 2. unfold resolveRegion. cbn [bucketName withContentLength
    truthy_opt negb ret].
  rewrite _makeRequest_eq. cbv zeta.
  set (ro := getRequestOptions c _).
  set (sha := if anonymous c then EmptyString else sha256hex EmptyString).
  assert (ro_method ro = "GET" /\ ro_host ro = host (params c)
          /\ ro_path ro = "/") as Hro.
  { subst ro. unfold getRequestOptions.
    cbn [bucketName objectName query method truthy_opt negb orb].
    rewrite orb_true_r. cbn. auto. }
  destruct (transport (wire w) (signedRequest c ro EmptyString sha "us-east-1" w))
    as [e|response].
  - intros [= <- <-]. cbn [files regionMap wire sent].
    split; [reflexivity|]. split; [reflexivity|].
    split; [intros [? [=]]|]. exists ro, sha. auto.
  - destruct (200 =? statusCode response).
    + destruct (getListBucketTransformer response) as [e|buckets];
        intros [= <- <-]; cbn [files regionMap wire sent];
        (split; [reflexivity|]); (split; [reflexivity|]);
        (split; [reflexivity|]); exists ro, sha; auto.
    + intros [= <- <-]. cbn [files regionMap wire sent withRegionMap js_string].
      split; [reflexivity|].
      split; [intros b Hb; now rewrite lookup_delete_ne|].
      split; [intros [? [=]]|]. exists ro, sha. auto.
Qed.

(** *** The request of a part upload *)


End EngineProperties.

(** ** Concrete runs *)

Lemma newClient_testParams :
  newClient (env := quietEnv) testParams = inr testClient.
Proof. reflexivity. Qed.

Lemma newClient_anonymousParams :
  newClient (env := quietEnv) anonymousParams = inr anonymousClient.
Proof. reflexivity. Qed.

Lemma fileSize_blob n : fileSize (blob n) = Z.of_N n.
Proof.
  unfold fileSize, blob. rewrite N2Nat.inj_iter, <- N_nat_Z. f_equal.
  induction (N.to_nat n) as [|k IH]; [reflexivity|].
  change (S (String.length (Nat.iter k (String "x"%char) EmptyString)) = S k).
  now rewrite IH.
Qed.

(** The part size of the largest object. *)
Lemma calculatePartSize_formula_witness :
  calculatePartSize testClient (5 * 2 ^ 40) = inr (525 * 1024 * 1024).
Proof.
  exact (proj2 (proj2 (proj2
           (calculatePartSize_formula (env := quietEnv) testParams testClient 1
              eq_refl ltac:(lia))))).
Defined.

(** [calculatePartSize(0)]: the part size of an empty object is 0, which is
    no positive multiple of 5 MiB and is less than [minimumPartSize], where
    the comment above the function has the part size at least
    [minimumPartSize], and 5 MiB for every size up to 50000 MiB. *)
Lemma calculatePartSize_zero_not_positive :
  0 <= 0 <= maxObjectSize testClient
  /\ calculatePartSize testClient 0 = inr 0
  /\ ~ (exists partSize,
          calculatePartSize testClient 0 = inr partSize /\ 0 < partSize).
Proof.
  split; [unfold testClient, maxObjectSize; lia|]. split; [reflexivity|].
  intros (partSize & Hp & Hpos). vm_compute in Hp. injection Hp as Hp. lia.
Qed.


(** A bucket that grants READ to everybody is public-read. *)
Lemma getBucketACL_table_witness :
  fst (getBucketACL (env := publicReadEnv) testClient "bucket" emptyWorld)
  = CbOk "public-read".
Proof.
  eassert (makeRequest (env := publicReadEnv) testClient
             {| method := "GET"; bucketName := Some "bucket";
                objectName := None; query := Some "acl"; headers := [] |}
             EmptyString 200 emptyWorld = (CbOk _, _)) as Hrun
    by (vm_compute; reflexivity).
  rewrite (getBucketACL_table (env := publicReadEnv) testClient "bucket"
             emptyWorld _ _ _ eq_refl Hrun eq_refl).
  reflexivity.
Defined.

(** Runs against a server that knows the region of [bucket]: a 404 on an
    object evicts the cached region of the bucket; [removeBucket] sends a
    DELETE of the bucket, is answered with 204 and evicts the cached region;
    with nothing cached, the next request first looks the region up.  For
    the bucket [constructor] there is no lookup: the request for the object
    is all that an anonymous client sends. *)
Lemma region_cache_invalidation_witness :
  let getObject :=
    {| method := "GET"; bucketName := Some "bucket";
       objectName := Some "object"; query := None; headers := [] |} in
  (exists w2,
     makeRequestStream (env := bucketEnv) testClient getObject EmptyString
       digest64 200 cachedWorld
     = (CbError (S3Error "NoSuchKey"), w2)
     /\ regionMap cachedWorld !! "bucket" = Some "eu-west-1"
     /\ regionMap w2 !! "bucket" = None)
  /\ (exists req w2,
        removeBucket (env := bucketEnv) testClient "bucket" cachedWorld
        = (CbOk tt, w2)
        /\ wire w2 = [req]
        /\ ro_method (options req) = "DELETE"
        /\ ro_path (options req) = "/bucket"
        /\ payload req = EmptyString
        /\ bucketServer [] req = inr (reply 204 EmptyString)
        /\ regionMap w2 !! "bucket" = None)
  /\ (exists o w' rest,
        makeRequestStream (env := bucketEnv) testClient getObject EmptyString
          digest64 200 emptyWorld
        = (o, w')
        /\ wire w'
           = locationLookup (env := bucketEnv) testClient "bucket" emptyWorld
             :: rest)
  /\ (exists o w' req,
        makeRequestStream (env := bucketEnv) anonymousClient
          {| method := "GET"; bucketName := Some "constructor";
             objectName := Some "object"; query := None; headers := [] |}
          EmptyString EmptyString 200 emptyWorld
        = (o, w')
        /\ wire w' = [req]
        /\ ro_path (options req) = "/constructor/object").
Proof.
  intros getObject.
  destruct (region_cache_invalidation (env := bucketEnv) testClient "bucket"
              eq_refl ltac:(discriminate))
    as (Hstatus & Hremove & Hremoved & Hnext & _).
  split; [|split; [|split]].
  - destruct (Hstatus getObject EmptyString digest64 200 cachedWorld
                "eu-west-1" cachedWorld (reply 404 "NoSuchKey")
                eq_refl eq_refl eq_refl eq_refl ltac:(discriminate))
      as (w2 & Hrun & _ & _ & Hgone).
    exists w2. split; [exact Hrun|]. split; [reflexivity|exact Hgone].
  - destruct (Hremove cachedWorld "eu-west-1" cachedWorld (or_intror eq_refl)
                eq_refl)
      as (req & o & w2 & Hrun & Hwire & Hm & Hpath & Hpay & Hanswer).
    change (ro_path (options req) = "/bucket") in Hpath.
    assert (bucketServer [] req = inr (reply 204 EmptyString)) as Htr
      by (unfold bucketServer; rewrite Hpath, Hm; reflexivity).
    change (transport (wire cachedWorld) req) with (bucketServer [] req)
      in Hanswer.
    rewrite Htr in Hanswer. destruct Hanswer as [-> _].
    exists req, w2. split; [exact Hrun|]. split; [exact Hwire|].
    split; [exact Hm|]. split; [exact Hpath|]. split; [exact Hpay|].
    split; [exact Htr|]. exact (Hremoved _ _ Hrun).
  - exact (Hnext getObject EmptyString digest64 200 emptyWorld
             eq_refl eq_refl eq_refl eq_refl).
  - destruct (region_cache_invalidation (env := bucketEnv) anonymousClient
                "constructor" eq_refl ltac:(discriminate))
      as (_ & _ & _ & _ & Hinherited).
    destruct (Hinherited eq_refl emptyWorld eq_refl) as [_ Hrun].
    destruct (Hrun eq_refl
                {| method := "GET"; bucketName := Some "constructor";
                   objectName := Some "object"; query := None; headers := [] |}
                EmptyString EmptyString 200 eq_refl)
      as (o & w' & Hsend & Hwire).
    exists o, w'. eexists. split; [exact Hsend|]. split; [exact Hwire|].
    reflexivity.
Defined.

(** Against a server that knows the region of [bucket]: with nothing cached,
    [getBucketRegion] sends the one lookup, signed for [us-east-1], and
    caches the region the server names; a request to the bucket resolves
    its region that way and is signed for it; a request without bucket is
    for [us-east-1]; and for the bucket [constructor] the inherited
    function is taken for the region, with nothing sent. *)
Lemma region_resolution_witness :
  let getObject :=
    {| method := "GET"; bucketName := Some "bucket";
       objectName := Some "object"; query := None; headers := [] |} in
  let listAll :=
    {| method := "GET"; bucketName := None; objectName := None;
       query := None; headers := [] |} in
  (exists w',
     getBucketRegion (env := bucketEnv) testClient "bucket" emptyWorld
     = (CbOk "eu-west-1", w')
     /\ wire w'
        = [locationLookup (env := bucketEnv) testClient "bucket" emptyWorld]
     /\ ro_path
          (options
             (locationLookup (env := bucketEnv) testClient "bucket" emptyWorld))
        = "/bucket?location"
     /\ regionMap w' = <["bucket" := "eu-west-1"]> (regionMap emptyWorld))
  /\ (exists o w1 w' req,
        resolveRegion (env := bucketEnv) testClient getObject emptyWorld
        = (CbOk "eu-west-1", w1)
        /\ makeRequestStream (env := bucketEnv) testClient getObject
             EmptyString digest64 200 emptyWorld
           = (o, w')
        /\ wire w' = wire w1 ++ [req]
        /\ exists ro,
             obj_get "authorization" (ro_headers (options req))
             = Some (signV4 (Env := bucketEnv) ro "accesskey" "secretkey"
                            "eu-west-1")
             /\ ro_path ro = "/bucket/object")
  /\ resolveRegion (env := bucketEnv) testClient listAll emptyWorld
     = (CbOk "us-east-1", emptyWorld)
  /\ getBucketRegion (env := bucketEnv) testClient "constructor" emptyWorld
     = (CbOk "Object.prototype.constructor", emptyWorld).
Proof.
  intros getObject listAll.
  destruct (region_resolution (env := bucketEnv) testClient)
    as (Hnone & _ & Hlookup & Hbucket & Hinherited).
  split; [|split; [|split]].
  - destruct (Hlookup "bucket" emptyWorld eq_refl eq_refl)
      as ((_ & _ & Hpath & _) & o & w' & Hrun & Hwire & Hanswer).
    change (exists region,
              o = CbOk region
              /\ regionMap w' = <["bucket" := region]> (regionMap emptyWorld)
              /\ region = "eu-west-1"
              /\ region <> EmptyString
              /\ (Forall (fun d => truthy d = false) ["eu-west-1"] ->
                  region = "us-east-1")) in Hanswer.
    destruct Hanswer as (region & -> & Hmap & -> & _).
    exists w'. split; [exact Hrun|]. split; [exact Hwire|].
    split; [exact Hpath|exact Hmap].
  - destruct (Hbucket getObject "bucket" EmptyString digest64 200 emptyWorld
                eq_refl ltac:(discriminate) eq_refl) as [Hres Hrun].
    destruct (getBucketRegion (env := bucketEnv) testClient "bucket" emptyWorld)
      as [[e|e|region] w1] eqn:Hreg;
      [vm_compute in Hreg; discriminate Hreg..|].
    assert (region = "eu-west-1") as ->
      by (vm_compute in Hreg; now injection Hreg as <- _).
    destruct Hrun as ((o & w' & Hrun & Hwire) & Hsigned).
    exists o, w1, w'. eexists. split; [exact Hres|]. split; [exact Hrun|].
    split; [exact Hwire|]. exact (Hsigned eq_refl).
  - exact (proj1 (Hnone listAll emptyWorld eq_refl)).
  - exact (proj2 (Hinherited "constructor" emptyWorld eq_refl eq_refl eq_refl)).
Defined.

(** The first scenario of the specification, with the empty region. *)
Lemma makeBucket_request_witness :
  exists req o,
    makeBucket (env := quietEnv) testClient "b" "private" EmptyString emptyWorld
    = (o, sent req emptyWorld)
    /\ ro_method (options req) = "PUT"
    /\ ro_path (options req) = "/b"
    /\ obj_get "x-amz-acl" (ro_headers (options req)) = Some "private"
    /\ payload req = EmptyString.
Proof.
  destruct (makeBucket_request (env := quietEnv) testClient "b" EmptyString
              emptyWorld eq_refl eq_refl ltac:(discriminate) eq_refl)
    as (req & o & Hrun & Hm & _ & Hp & Hacl & _ & Hempty & _).
  exists req, o. repeat split; try assumption. exact (Hempty eq_refl).
Defined.

(** The second scenario of the specification: the body for eu-west-1. *)
Example makeBucketPayload_eu_west_1 :
  makeBucketPayload "eu-west-1"
  = "<CreateBucketConfiguration xmlns=" +:+ dquote
    +:+ "http://s3.amazonaws.com/doc/2006-03-01/" +:+ dquote
    +:+ "><LocationConstraint>eu-west-1</LocationConstraint>"
    +:+ "</CreateBucketConfiguration>".
Proof. reflexivity. Qed.

(** C5 as stated fails at its own scenario: with region [us-east-1] the
    request carries the [CreateBucketConfiguration] body. *)
Lemma makeBucket_us_east_1_sends_body :
  exists req,
    makeBucket (env := quietEnv) testClient "b" "private" "us-east-1" emptyWorld
    = (CbOk tt, sent req emptyWorld)
    /\ ro_method (options req) = "PUT"
    /\ ro_path (options req) = "/b"
    /\ payload req
       = "<CreateBucketConfiguration xmlns=" +:+ dquote
         +:+ "http://s3.amazonaws.com/doc/2006-03-01/" +:+ dquote
         +:+ "><LocationConstraint>us-east-1</LocationConstraint>"
         +:+ "</CreateBucketConfiguration>"
    /\ payload req <> EmptyString.
Proof.
  eexists. split; [vm_compute; reflexivity|].
  split; [reflexivity|]. split; [reflexivity|]. split; [reflexivity|].
  discriminate.
Qed.

(** A download that stopped after one byte is resumed from offset 1. *)
Lemma fGetObject_part_file_witness :
  exists w',
    fGetObject (env := objectEnv) testClient "b" "o" "d/f"
      (withFiles {[ "d/f.e.part.minio" := "a" ]} emptyWorld)
    = (CbOk tt, w')
    /\ files w' !! "d/f" = Some "abc"
    /\ files w' !! "d/f.e.part.minio" = None.
Proof.
  eassert (statObject (env := objectEnv) testClient "b" "o"
             (withFiles {[ "d/f.e.part.minio" := "a" ]} emptyWorld)
           = (CbOk _, _)) as Hstat by (vm_compute; reflexivity).
  destruct (fGetObject_part_file (env := objectEnv) testClient "b" "o" "d/f"
              _ _ _ 3 eq_refl eq_refl Hstat eq_refl)
    as (_ & _ & Hresume & _).
  match type of Hstat with
  | _ = (_, ?w1) =>
      eassert (getPartialObject (env := objectEnv) testClient "b" "o"
                 (fileSize "a") 0 (Some tt) w1 = (CbOk _, _)) as Hget
        by (vm_compute; reflexivity)
  end.
  destruct (Hresume "a" _ _ ltac:(vm_compute; reflexivity) ltac:(discriminate)
              ltac:(discriminate) eq_refl Hget eq_refl)
    as (_ & w' & Hrun & Hfile & Hpart & _).
  exists w'. split; [exact Hrun|]. split; [exact Hfile|exact Hpart].
Defined.

(** C6 as stated fails on the name of the artifact: a complete file under
    the name [{filePath}.{etag}.part] is not taken for the part file, so the
    object is downloaded all the same, into [{filePath}.{etag}.part.minio]. *)
Lemma fGetObject_ignores_dot_part :
  partFileName "d/f" "e" = "d/f.e.part.minio"
  /\ partFileName "d/f" "e" <> "d/f.e.part"
  /\ exists w',
       fGetObject (env := objectEnv) testClient "b" "o" "d/f"
         (withFiles {[ "d/f.e.part" := "abc" ]} emptyWorld)
       = (CbOk tt, w')
       /\ (exists r, last (wire w') = Some r
                     /\ ro_method (options r) = "GET"
                     /\ ro_path (options r) = "/b/o"
                     /\ payload r = EmptyString)
       /\ files w' !! "d/f.e.part" = Some "abc"
       /\ files w' !! "d/f" = Some "abc".
Proof.
  split; [reflexivity|]. split; [discriminate|].
  eexists. split; [vm_compute; reflexivity|].
  split; [eexists; split; [reflexivity|]; repeat split|].
  split; reflexivity.
Qed.

(** A policy with a key and an expiration but no bucket is refused. *)
Lemma presignedPostPolicy_needs_bucket_witness :
  presignedPostPolicy (env := quietEnv) testClient
    (afterCalls (env := quietEnv) [SetExpires (Some 0); SetKey "o"] newPostPolicy)
    emptyWorld
  = (Thrown InvalidBucketNameError, emptyWorld).
Proof.
  destruct (presignedPostPolicy_needs_bucket (env := quietEnv) testClient
              [SetExpires (Some 0); SetKey "o"] emptyWorld eq_refl)
    as (e & Hrun & [He|He]).
  - exfalso. rewrite He in Hrun. vm_compute in Hrun. discriminate Hrun.
  - rewrite He in Hrun. exact Hrun.
Defined.

(** C9 as stated fails for the expiration: a policy on which [setExpires]
    was never called is signed, and the callback receives form data with
    [x-amz-signature]. *)
Lemma presignedPostPolicy_without_expiration :
  let postPolicy :=
    afterCalls (env := quietEnv) [SetBucket "bucket"; SetKey "o"] newPostPolicy in
  expiration (policy postPolicy) = None
  /\ exists signed w',
       presignedPostPolicy (env := quietEnv) testClient postPolicy emptyWorld
       = (CbOk signed, w')
       /\ expiration (policy signed) = None
       /\ formData signed !! "x-amz-signature" = Some "signed:us-east-1"
       /\ formData signed !! "bucket" = Some "bucket".
Proof.
  split; [reflexivity|].
  eexists _, _. split; [vm_compute; reflexivity|].
  split; [reflexivity|]. split; vm_compute; reflexivity.
Qed.

(** The failing input of C1: a file of exactly 5242880 bytes. *)
Lemma fPutObject_at_minimumPartSize_witness :
  let w := withFiles {[ "f" := blob 5242880 ]} emptyWorld in
  fileSize (blob 5242880) = 5 * 1024 * 1024
  /\ fPutObject (env := quietEnv) testClient "b" "o" "f" EmptyString w
     = (CbOk EnterMultipart, w).
Proof.
  intros w.
  assert (fileSize (blob 5242880) = 5 * 1024 * 1024) as Hsize
    by (rewrite fileSize_blob; reflexivity).
  split; [exact Hsize|].
  exact (proj1 (proj2
           (fPutObject_at_minimumPartSize (env := quietEnv) testParams testClient
              "b" "o" "f" EmptyString (blob 5242880) w
              eq_refl eq_refl eq_refl (lookup_singleton_eq _ _) Hsize))).
Defined.



(** Two runs of [fGetObject] outside the cases above.  After a download
    that fails its size check the final callback of the waterfall still
    renames the part file, and the caller is called back without error; for
    a [filePath] without directory part the third task of the waterfall has
    no callback to pass on, and [getPartialObject] throws. *)
Example fGetObject_renames_unverified :
  exists w',
    fGetObject (env := truncatingEnv) testClient "b" "o" "d/f" emptyWorld
    = (CbOk tt, w')
    /\ files w' !! "d/f" = Some "ab"
    /\ files w' !! "d/f.e.part.minio" = None.
Proof.
  eexists. split; [vm_compute; reflexivity|]. split; reflexivity.
Qed.

Example fGetObject_current_directory :
  exists w',
    fGetObject (env := objectEnv) testClient "b" "o" "f" emptyWorld
    = (Thrown TypeError, w')
    /\ files w' !! "f" = None.
Proof.
  eexists. split; [vm_compute; reflexivity|]. reflexivity.
Qed.

(** *** Runs of the further properties *)

Lemma wire_header_keys_witness :
  exists o w' new,
    makeRequestStream (env := quietEnv) testClient mixedCaseRequest
                      EmptyString digest64 200 emptyWorld = (o, w')
    /\ wire w' = wire emptyWorld ++ new
    /\ Forall (fun r =>
                 NoDup (map fst (ro_headers (options r)))
                 /\ Forall (fun k => toLowerCase k = k)
                           (map fst (ro_headers (options r)))) new.
Proof.
  eassert (makeRequestStream (env := quietEnv) testClient mixedCaseRequest
             EmptyString digest64 200 emptyWorld = (_, _)) as Hrun
    by (vm_compute; reflexivity).
  destruct (wire_header_keys (env := quietEnv) _ _ _ _ _ _ _ _ Hrun)
    as (new & Hw & Hall).
  eexists _, _, new. split; [exact Hrun|]. split; [exact Hw|exact Hall].
Defined.

Lemma requests_signed_or_not_witness :
  exists o w' new,
    makeRequestStream (env := quietEnv) testClient mixedCaseRequest
                      EmptyString digest64 200 emptyWorld = (o, w')
    /\ wire w' = wire emptyWorld ++ new
    /\ Forall (fun r =>
                 Forall (fun k => is_Some (obj_get k (ro_headers (options r))))
                        signingKeys) new.
Proof.
  eassert (makeRequestStream (env := quietEnv) testClient mixedCaseRequest
             EmptyString digest64 200 emptyWorld = (_, _)) as Hrun
    by (vm_compute; reflexivity).
  destruct (requests_signed_or_not (env := quietEnv) _ _ _ _ _ _ _ _ Hrun)
    as (new & Hw & _ & Hsigned).
  eexists _, _, new. split; [exact Hrun|]. split; [exact Hw|].
  eapply Forall_impl; [exact (Hsigned eq_refl)|]. intros r [Hr _]. exact Hr.
Defined.


Lemma region_looked_up_once_witness :
  exists response w' region,
    makeRequestStream (env := quietEnv) testClient mixedCaseRequest
                      EmptyString digest64 200 emptyWorld = (CbOk response, w')
    /\ regionMap w' !! "bucket" = Some region
    /\ region <> EmptyString.
Proof.
  eassert (makeRequestStream (env := quietEnv) testClient mixedCaseRequest
             EmptyString digest64 200 emptyWorld = (CbOk _, _)) as Hrun
    by (vm_compute; reflexivity).
  destruct (region_looked_up_once (env := quietEnv) testClient mixedCaseRequest
              EmptyString digest64 200 emptyWorld _ _ "bucket" eq_refl
              ltac:(discriminate) Hrun)
    as (region & _ & Hown & _).
  eexists _, _, region. split; [exact Hrun|]. exact (Hown eq_refl).
Defined.

Lemma statObject_result_witness :
  exists stat w1,
    statObject (env := objectEnv) testClient "b" "o" emptyWorld = (CbOk stat, w1)
    /\ etag stat = "e"
    /\ size stat = Some 3.
Proof.
  eassert (makeRequest (env := objectEnv) testClient
             {| method := "HEAD"; bucketName := Some "b";
                objectName := Some "o"; query := None; headers := [] |}
             EmptyString 200 emptyWorld = (CbOk _, _)) as Hrun
    by (vm_compute; reflexivity).
  destruct (proj2 (statObject_result (env := objectEnv) testClient "b" "o"
                     emptyWorld _ _ eq_refl eq_refl Hrun) "e" eq_refl)
    as (stat & Hstat & He & Hs & _).
  exists stat. eexists. split; [exact Hstat|]. split; [exact He|].
  rewrite Hs. reflexivity.
Defined.

Lemma presignedPostPolicy_result_witness :
  exists signed w' bucket region,
    presignedPostPolicy (env := quietEnv) testClient
      (afterCalls (env := quietEnv) [SetBucket "bucket"; SetKey "o"]
                  newPostPolicy) emptyWorld
    = (CbOk signed, w')
    /\ regionMap w' !! bucket = Some region
    /\ formData signed !! "policy"
       = Some (@base64 quietEnv (@jsonStringify quietEnv (policy signed))).
Proof.
  destruct (presignedPostPolicy (env := quietEnv) testClient
              (afterCalls (env := quietEnv) [SetBucket "bucket"; SetKey "o"]
                          newPostPolicy) emptyWorld)
    as [[e|e|signed] w'] eqn:Hrun;
    [vm_compute in Hrun; discriminate Hrun
    |vm_compute in Hrun; discriminate Hrun|].
  destruct (proj1 (presignedPostPolicy_result (env := quietEnv) _ _ _ _ _ Hrun))
    as (bucket & region & Hb & _ & Hm & _ & _ & Hp & _).
  assert (bucket = "bucket") as ->
    by (vm_compute in Hb; now injection Hb as <-).
  exists signed, w', "bucket", region. split; [reflexivity|].
  split; [exact (Hm eq_refl)|exact Hp].
Defined.

Lemma fPutObject_parts_witness :
  exists done w' reqs,
    fPutParts (env := quietEnv) (eng := testEngine) 4 testClient "bucket"
              "object" "text/plain" "/tmp/f" "id" [] 5 2 1 0 [] fileWorld
    = (CbOk (Some done), w')
    /\ map pr_part done = [1; 2; 3]
    /\ wire w' = wire fileWorld ++ reqs
    /\ sentBytes reqs = "abcde".
Proof.
  eassert (fPutParts (env := quietEnv) (eng := testEngine) 4 testClient "bucket"
             "object" "text/plain" "/tmp/f" "id" [] 5 2 1 0 [] fileWorld
           = (CbOk (Some _), _)) as Hrun
    by (vm_compute; reflexivity).
  destruct (proj1 (fPutObject_parts (env := quietEnv) (eng := testEngine)
                     testClient "bucket" "object" "text/plain" "/tmp/f" "id" []
                     2 "abcde" 4 fileWorld ltac:(lia) eq_refl) _ _ Hrun)
    as (_ & Hnum & reqs & Hw & Hbytes).
  eexists _, _, reqs. split; [exact Hrun|]. split; [exact Hnum|].
  split; [exact Hw|exact (Hbytes eq_refl)].
Defined.

Lemma chunkUploader_parts_witness :
  exists done w' reqs pending,
    chunkUploader (env := quietEnv) (eng := testEngine) smallClient "bucket"
                  "object" "text/plain" "id" [] 4 ["ab"; "cd"; "e"] emptyWorld
    = (CbOk done, w')
    /\ map pr_part done = seqZ 1 (Z.of_nat (length done))
    /\ wire w' = wire emptyWorld ++ reqs
    /\ sentBytes reqs +:+ pending = "abcde".
Proof.
  eassert (chunkUploader (env := quietEnv) (eng := testEngine) smallClient
             "bucket" "object" "text/plain" "id" [] 4 ["ab"; "cd"; "e"]
             emptyWorld = (CbOk _, _)) as Hrun
    by (vm_compute; reflexivity).
  destruct (chunkUploader_parts (env := quietEnv) (eng := testEngine)
              _ _ _ _ _ _ _ _ _ _ _ Hrun)
    as (_ & _ & Hnum & reqs & Hw & _ & Hbytes).
  destruct (Hbytes eq_refl) as (pending & Hp & _).
  eexists _, _, reqs, pending. split; [exact Hrun|]. split; [exact Hnum|].
  split; [exact Hw|exact Hp].
Defined.

(** Three full chunks into parts of two chunks each: the third chunk is
    received, never sent, and the stream ends without an error. *)
Example chunkUploader_drops_pending :
  exists done w',
    chunkUploader (env := quietEnv) (eng := testEngine) smallClient "bucket"
                  "object" "text/plain" "id" [] 4 ["ab"; "cd"; "ef"] emptyWorld
    = (CbOk done, w')
    /\ map pr_part done = [1]
    /\ sentBytes (wire w') = "abcd".
Proof.
  eexists _, _. split; [vm_compute; reflexivity|].
  split; vm_compute; reflexivity.
Qed.

Lemma fPutObject_part_numbers_witness :
  exists done w',
    fPutParts (env := quietEnv) (eng := testEngine) 4 smallClient "bucket"
              "object" "text/plain" "/tmp/f" "id" [] 5 2 1 0 [] fileWorld
    = (CbOk (Some done), w')
    /\ Forall (fun r => 1 <= pr_part r <= 10000) done.
Proof.
  eassert (fPutParts (env := quietEnv) (eng := testEngine) 4 smallClient "bucket"
             "object" "text/plain" "/tmp/f" "id" [] 5 2 1 0 [] fileWorld
           = (CbOk (Some _), _)) as Hrun
    by (vm_compute; reflexivity).
  destruct (fPutObject_part_numbers (env := quietEnv) (eng := testEngine)
              smallClient "bucket" "object" "text/plain" "/tmp/f" "id" [] 2
              "abcde" 4 fileWorld _ _ ltac:(reflexivity) ltac:(reflexivity)
              eq_refl eq_refl Hrun)
    as (_ & Hall).
  eexists _, _. split; [exact Hrun|exact Hall].
Defined.

Lemma presigned_url_local_witness :
  exists url w',
    presignedGetObject (env := quietEnv) (eng := testEngine) testClient
                       "bucket" "object" 3600 emptyWorld = (CbOk url, w')
    /\ files w' = files emptyWorld
    /\ (wire w' = wire emptyWorld
        \/ wire w' = wire emptyWorld
                     ++ [locationLookup (env := quietEnv) testClient "bucket"
                                        emptyWorld]).
Proof.
  eassert (presignedGetObject (env := quietEnv) (eng := testEngine) testClient
             "bucket" "object" 3600 emptyWorld = (CbOk _, _)) as Hrun
    by (vm_compute; reflexivity).
  destruct (presigned_url_local (env := quietEnv) (eng := testEngine)
              "GET" _ _ _ _ _ _ _ Hrun)
    as (Hf & Hw & _).
  eexists _, _. split; [exact Hrun|]. split; [exact Hf|exact Hw].
Defined.

Lemma listBuckets_request_witness :
  exists o w' ro sha,
    listBuckets (env := quietEnv) (eng := testEngine) testClient cachedWorld
    = (o, w')
    /\ wire w'
       = wire cachedWorld
         ++ [signedRequest (env := quietEnv) testClient ro EmptyString sha
                           "us-east-1" cachedWorld]
    /\ ro_path ro = "/".
Proof.
  eassert (listBuckets (env := quietEnv) (eng := testEngine) testClient
             cachedWorld = (_, _)) as Hrun
    by (vm_compute; reflexivity).
  destruct (listBuckets_request (env := quietEnv) (eng := testEngine)
              testClient cachedWorld _ _ (or_intror eq_refl) Hrun)
    as (_ & _ & _ & ro & sha & Hw & _ & _ & Hp).
  eexists _, _, ro, sha. split; [exact Hrun|]. split; [exact Hw|exact Hp].
Defined.
